(** * ramjam: the sparse demand-paged RAM disk of [block_driver/]

    Shallow embedding of the two variants of the driver,
    [block_driver/blk_modern.c] (blk-mq request handler) and
    [block_driver/blk_bio.c] (bio handler), together with the
    properties of the block and mapping endpoints.

    The kernel state the handlers touch is modelled explicitly:
    - the sparse page table [ramjam_dev.pages] is a list of optional page
      frame numbers ([None] is the NULL pointer);
    - the physical pages handed out by [alloc_page] live in a heap
      [physmem], a page frame number being an index in it, so that the
      page table and a user mapping alias the same storage;
    - [alloc_page] may fail; its successive outcomes are read from
      [alloc_plan];
    - the caller's buffer pages travel with the segments ([bv_page] holds
      the bytes) and a handler gives the buffers back as it leaves them;
      they are taken to be distinct from the store's frames;
    - indexing [pages] outside the array and copying past the end of a
      page are undefined in C; the embedding stops with [Undef].

    Each handler holds [ramjam_dev.mutex] from its first access to the
    table to its last, so an execution is a sequence of handler calls and
    of stores through established mappings.

    Around the handlers the development also covers the life of the
    module and its user: [ramjam_init] and [ramjam_exit] of both variants
    (the registrations at the kernel interface, the loop that gives the
    frames back), a process that maps the character device and copies
    through the mapping, and the test program [block_driver/test.c]. *)

From Stdlib Require Import ZArith Lia Bool.
From stdpp Require Import base list gmap.

Local Open Scope Z_scope.

(** ** Kernel constants

    [PAGE_SHIFT] and [SECTOR_SHIFT] come from the kernel headers; the
    values are the ones the drivers' own comments and arithmetic use
    ("262144 pages * 4KB", [PAGE_SIZE / 512]). *)

Definition PAGE_SHIFT : Z := 12.
Definition PAGE_SIZE : Z := Z.shiftl 1 PAGE_SHIFT.
Definition SECTOR_SHIFT : Z := 9.

(** Wrap-around of [uint32_t] / [unsigned int] and of [unsigned long] /
    [sector_t]. *)
Definition u32 (x : Z) : Z := x mod 2 ^ 32.
Definition u64 (x : Z) : Z := x mod 2 ^ 64.

Arguments PAGE_SIZE : simpl never.
Arguments u32 : simpl never.
Arguments u64 : simpl never.

(** ** Machine state *)

(** [struct page]: the frame's bytes and its reference count. *)
Record page := mkpage {
  page_bytes : list Byte.byte;
  page_count : nat
}.

Definition zero_bytes (n : Z) : list Byte.byte := replicate (Z.to_nat n) Byte.x00.
Arguments zero_bytes : simpl never.

(** A frame as [alloc_page(GFP_KERNEL | __GFP_ZERO)] returns it. *)
Definition fresh_page : page := mkpage (zero_bytes PAGE_SIZE) 1.

Record machine := mkmachine {
  ramjam_pages : Z;               (* module parameter, unsigned int *)
  pages : list (option nat);      (* ramjam_dev.pages *)
  physmem : list page;            (* frames obtained from alloc_page *)
  alloc_plan : list bool          (* outcomes of the next alloc_page calls *)
}.

Definition set_pages (t : list (option nat)) (s : machine) : machine :=
  mkmachine (ramjam_pages s) t (physmem s) (alloc_plan s).
Definition set_physmem (m : list page) (s : machine) : machine :=
  mkmachine (ramjam_pages s) (pages s) m (alloc_plan s).
Definition set_alloc_plan (p : list bool) (s : machine) : machine :=
  mkmachine (ramjam_pages s) (pages s) (physmem s) p.

(** [ramjam_init]: [vcalloc(ramjam_pages, sizeof(struct page* ))], every
    slot NULL, no frame allocated yet. *)
Definition ramjam_init (n : Z) (plan : list bool) : machine :=
  mkmachine n (replicate (Z.to_nat n) None) [] plan.

(** ** Outcomes and the state monad of the handlers *)

Inductive undef :=
| BadIndex (i : Z)   (* pages[i] with i outside the array *)
| BadCopy.           (* access outside a frame: memcpy or memset running
                        past the end of a page *)

Inductive outcome (A : Type) :=
| Done (a : A) (s : machine)
| Undef (u : undef).
Arguments Done {A} a s.
Arguments Undef {A} u.

Definition M (A : Type) : Type := machine -> outcome A.

Definition ret {A} (a : A) : M A := fun s => Done a s.

Definition bind {A B} (m : M A) (k : A -> M B) : M B :=
  fun s => match m s with
           | Done a s' => k a s'
           | Undef u => Undef u
           end.

Notation "'let*' x ':=' m 'in' k" := (bind m (fun x => k))
  (at level 10, x name, m at level 100, k at level 200).

(** ** Primitive accesses *)

Definition read_ramjam_pages : M Z := fun s => Done (ramjam_pages s) s.

(** [ramjam_dev.pages[i]] as an rvalue. *)
Definition pages_load (i : Z) : M (option nat) := fun s =>
  if i <? 0 then Undef (BadIndex i)
  else match pages s !! Z.to_nat i with
       | Some slot => Done slot s
       | None => Undef (BadIndex i)
       end.

(** [ramjam_dev.pages[i] = v]. *)
Definition pages_store (i : Z) (v : option nat) : M unit := fun s =>
  if i <? 0 then Undef (BadIndex i)
  else match pages s !! Z.to_nat i with
       | Some _ => Done tt (set_pages (<[Z.to_nat i := v]> (pages s)) s)
       | None => Undef (BadIndex i)
       end.

(** [alloc_page(GFP_KERNEL | __GFP_ZERO)]: NULL when the plan says so, a
    new zeroed frame otherwise (also when the plan is exhausted). *)
Definition alloc_page : M (option nat) := fun s =>
  match alloc_plan s with
  | false :: plan => Done None (set_alloc_plan plan s)
  | plan =>
      Done (Some (length (physmem s)))
           (mkmachine (ramjam_pages s) (pages s)
                      (physmem s ++ [fresh_page]) (tail plan))
  end.

(** [get_page(page)]: one more reference on the frame. *)
Definition get_page (pfn : nat) : M unit := fun s =>
  match physmem s !! pfn with
  | Some pg =>
      Done tt (set_physmem
                 (<[pfn := mkpage (page_bytes pg) (S (page_count pg))]> (physmem s)) s)
  | None => Undef BadCopy
  end.

(** Byte ranges of a buffer of bytes. *)
Definition slice (l : list Byte.byte) (off len : Z) : list Byte.byte :=
  take (Z.to_nat len) (drop (Z.to_nat off) l).

Definition blit (dst : list Byte.byte) (off : Z) (src : list Byte.byte) : list Byte.byte :=
  take (Z.to_nat off) dst ++ src ++ drop (Z.to_nat off + length src) dst.

Definition in_bounds (l : list Byte.byte) (off len : Z) : bool :=
  (0 <=? off) && (0 <=? len) && (off + len <=? Z.of_nat (length l)).

(** [memcpy(dst, kmap_local_page(page) + off, len)] *)
Definition page_read (pfn : nat) (off len : Z) : M (list Byte.byte) := fun s =>
  match physmem s !! pfn with
  | Some pg =>
      if in_bounds (page_bytes pg) off len
      then Done (slice (page_bytes pg) off len) s
      else Undef BadCopy
  | None => Undef BadCopy
  end.

(** [memcpy(kmap_local_page(page) + off, src, len)] *)
Definition page_write (pfn : nat) (off : Z) (src : list Byte.byte) : M unit := fun s =>
  match physmem s !! pfn with
  | Some pg =>
      if in_bounds (page_bytes pg) off (Z.of_nat (length src))
      then Done tt (set_physmem
                      (<[pfn := mkpage (blit (page_bytes pg) off src) (page_count pg)]>
                         (physmem s)) s)
      else Undef BadCopy
  | None => Undef BadCopy
  end.

(** ** Requests *)

Inductive dir := READ | WRITE.

Definition is_write (d : dir) : bool :=
  match d with WRITE => true | READ => false end.

(** [struct bio_vec]: [bv_page] is the caller's buffer page (its bytes),
    the segment being [bv_len] bytes at [bv_offset] in it. *)
Record bio_vec := mkbvec {
  bv_page : list Byte.byte;
  bv_offset : Z;
  bv_len : Z
}.

(** A segment as [rq_for_each_segment] / [bio_for_each_segment] yield
    them: it lies within its single buffer page. *)
Definition wf_bvec (bv : bio_vec) : Prop :=
  Z.of_nat (length (bv_page bv)) = PAGE_SIZE /\
  0 <= bv_offset bv /\ 0 <= bv_len bv /\
  bv_offset bv + bv_len bv <= PAGE_SIZE.

(** The bytes of the segment: [page_address(bv_page) + bv_offset], [bv_len] bytes. *)
Definition payload (bv : bio_vec) : list Byte.byte :=
  slice (bv_page bv) (bv_offset bv) (bv_len bv).

Definition payloads (segs : list bio_vec) : list Byte.byte :=
  concat (map payload segs).

(** Reading the source bytes of a write segment. *)
Definition bvec_load (bv : bio_vec) : M (list Byte.byte) := fun s =>
  if in_bounds (bv_page bv) (bv_offset bv) (bv_len bv)
  then Done (payload bv) s
  else Undef BadCopy.

(** Storing [data] into the segment of a read. *)
Definition bvec_store (bv : bio_vec) (data : list Byte.byte) : M bio_vec := fun s =>
  if in_bounds (bv_page bv) (bv_offset bv) (Z.of_nat (length data))
  then Done (mkbvec (blit (bv_page bv) (bv_offset bv) data) (bv_offset bv) (bv_len bv)) s
  else Undef BadCopy.

(** [memzero_page(bv_page, bv_offset, bv_len)] *)
Definition memzero_page (bv : bio_vec) : M bio_vec :=
  bvec_store bv (zero_bytes (bv_len bv)).

Inductive blk_status_t := BLK_STS_OK | BLK_STS_IOERR.

(** [vm_fault_t]; [VM_FAULT_NONE] stands for the handlers' [return 0]. *)
Inductive vm_fault_t := VM_FAULT_NONE | VM_FAULT_SIGBUS | VM_FAULT_OOM.

(** [struct vm_area_struct], the fields the mmap handlers use. *)
Record vm_area_struct := mkvma {
  vm_start : Z;
  vm_end : Z;
  vm_pgoff : Z;
  vm_ops : bool    (* true once the driver's fault handler is attached *)
}.

Definition EINVAL : Z := 22.

(** [!ptr] *)
Definition is_null (p : option nat) : bool :=
  match p with None => true | Some _ => false end.

(** A user access through an established page-table entry: the PTE holds
    the frame that the fault handler put in [vmf->page]. *)
Definition user_store (pfn : nat) (off : Z) (b : Byte.byte) : M unit :=
  page_write pfn off [b].

Definition user_load (pfn : nat) (off : Z) : M (list Byte.byte) :=
  page_read pfn off 1.

(** ** [blk_modern.c] *)

Module Modern.

Definition ramjam_get_page (pgoff : Z) (allocate : bool) : M (option nat) :=
  let* n := read_ramjam_pages in
  if pgoff >=? n then ret None
  else
    let* cur := pages_load pgoff in
    let* _ := (if is_null cur && allocate
               then let* p := alloc_page in pages_store pgoff p
               else ret tt) in
    pages_load pgoff.

Record request := mkrq {
  rq_data_dir : dir;
  blk_rq_pos : Z;             (* sector_t *)
  rq_segs : list bio_vec
}.

(** Page index that the handler computes for a segment met at [pos]. *)
Definition seg_pgoff (pos : Z) (bvec : bio_vec) : Z :=
  Z.shiftr (u32 (pos + bv_offset bvec)) PAGE_SHIFT.

(** Body of the [rq_for_each_segment] loop; gives back the segment's
    buffer as the body leaves it. *)
Definition rq_segment (d : dir) (pos : Z) (bvec : bio_vec) : M bio_vec :=
  let pgoff := seg_pgoff pos bvec in
  let* page := ramjam_get_page pgoff (is_write d) in
  match page with
  | Some pfn =>
      if is_write d then
        let* src := bvec_load bvec in
        let* _ := page_write pfn (pos mod PAGE_SIZE) src in
        ret bvec
      else
        let* data := page_read pfn (pos mod PAGE_SIZE) (bv_len bvec) in
        bvec_store bvec data
  | None =>
      match d with
      | READ => memzero_page bvec
      | WRITE => ret bvec
      end
  end.

Fixpoint rq_for_each_segment (d : dir) (pos : Z) (segs : list bio_vec)
  : M (list bio_vec) :=
  match segs with
  | [] => ret []
  | bvec :: rest =>
      let* b := rq_segment d pos bvec in
      let* bs := rq_for_each_segment d (u32 (pos + bv_len bvec)) rest in
      ret (b :: bs)
  end.

Definition ramjam_queue_rq (rq : request) : M (blk_status_t * list bio_vec) :=
  let pos := u32 (u64 (Z.shiftl (blk_rq_pos rq) SECTOR_SHIFT)) in
  let* bufs := rq_for_each_segment (rq_data_dir rq) pos (rq_segs rq) in
  ret (BLK_STS_OK, bufs).

Definition ramjam_vma_fault (pgoff : Z) : M (vm_fault_t * option nat) :=
  let* page := ramjam_get_page pgoff true in
  match page with
  | None => ret (VM_FAULT_SIGBUS, None)
  | Some pfn =>
      let* _ := get_page pfn in
      ret (VM_FAULT_NONE, Some pfn)
  end.

Definition ramjam_mmap (vma : vm_area_struct) : M (Z * vm_area_struct) :=
  ret (0, mkvma (vm_start vma) (vm_end vma) (vm_pgoff vma) true).

End Modern.

(** ** [blk_bio.c] *)

Module Bio.

Record bio := mkbio {
  bio_data_dir : dir;
  bi_sector : Z;              (* bio->bi_iter.bi_sector *)
  bi_segs : list bio_vec
}.

Definition seg_pg_idx (sector : Z) : Z :=
  u32 (Z.shiftr (u64 (Z.shiftl sector SECTOR_SHIFT)) PAGE_SHIFT).

(** Body of the [bio_for_each_segment] loop. *)
Definition bio_segment (d : dir) (sector : Z) (bvec : bio_vec) : M bio_vec :=
  let pg_idx := seg_pg_idx sector in
  let* n := read_ramjam_pages in
  let* found := (if pg_idx <? n then pages_load pg_idx else ret None) in
  let* page := (if is_null found && is_write d && (pg_idx <? n)
                then let* p := alloc_page in
                     let* _ := pages_store pg_idx p in
                     ret p
                else ret found) in
  match page with
  | Some pfn =>
      if is_write d then
        let* src := bvec_load bvec in
        let* _ := page_write pfn (bv_offset bvec mod PAGE_SIZE) src in
        ret bvec
      else
        let* data := page_read pfn (bv_offset bvec mod PAGE_SIZE) (bv_len bvec) in
        bvec_store bvec data
  | None =>
      match d with
      | READ => memzero_page bvec
      | WRITE => ret bvec
      end
  end.

Fixpoint bio_for_each_segment (d : dir) (sector : Z) (segs : list bio_vec)
  : M (list bio_vec) :=
  match segs with
  | [] => ret []
  | bvec :: rest =>
      let* b := bio_segment d sector bvec in
      let* bs := bio_for_each_segment d
                   (u64 (sector + Z.shiftr (bv_len bvec) SECTOR_SHIFT)) rest in
      ret (b :: bs)
  end.

(** [bio_endio] completes the bio with [bi_status], which the handler
    never sets: it is the [BLK_STS_OK] the bio was submitted with. *)
Definition ramjam_submit_bio (b : bio) : M (blk_status_t * list bio_vec) :=
  let* bufs := bio_for_each_segment (bio_data_dir b) (bi_sector b) (bi_segs b) in
  ret (BLK_STS_OK, bufs).

Definition ramjam_vm_fault (pgoff : Z) : M (vm_fault_t * option nat) :=
  let pg_idx := u32 pgoff in
  let* n := read_ramjam_pages in
  if pg_idx >=? n then ret (VM_FAULT_SIGBUS, None)
  else
    let* found := pages_load pg_idx in
    match found with
    | None =>
        let* p := alloc_page in
        match p with
        | None => ret (VM_FAULT_OOM, None)
        | Some pfn =>
            let* _ := pages_store pg_idx (Some pfn) in
            let* _ := get_page pfn in
            ret (VM_FAULT_NONE, Some pfn)
        end
    | Some pfn =>
        let* _ := get_page pfn in
        ret (VM_FAULT_NONE, Some pfn)
    end.

Definition rramjam_mmap (vma : vm_area_struct) : M (Z * vm_area_struct) :=
  let size := u64 (vm_end vma - vm_start vma) in
  let* n := read_ramjam_pages in
  if u64 (u64 (Z.shiftl (vm_pgoff vma) PAGE_SHIFT) + size)
       >? u64 (Z.shiftl n PAGE_SHIFT)
  then ret (- EINVAL, vma)
  else ret (0, mkvma (vm_start vma) (vm_end vma) (vm_pgoff vma) true).

End Bio.

(** ** Both variants behind one interface *)

Inductive driver := modern | bio_based.

Definition submit (d : driver) (dr : dir) (sector : Z) (segs : list bio_vec)
  : M (blk_status_t * list bio_vec) :=
  match d with
  | modern => Modern.ramjam_queue_rq (Modern.mkrq dr sector segs)
  | bio_based => Bio.ramjam_submit_bio (Bio.mkbio dr sector segs)
  end.

Definition fault (d : driver) (pgoff : Z) : M (vm_fault_t * option nat) :=
  match d with
  | modern => Modern.ramjam_vma_fault pgoff
  | bio_based => Bio.ramjam_vm_fault pgoff
  end.

Definition mmap (d : driver) (vma : vm_area_struct) : M (Z * vm_area_struct) :=
  match d with
  | modern => Modern.ramjam_mmap vma
  | bio_based => Bio.rramjam_mmap vma
  end.

(** An operation a consumer can start on the store. *)
Inductive op :=
| OpSubmit (dr : dir) (sector : Z) (segs : list bio_vec)
| OpFault (pgoff : Z)
| OpMmap (vma : vm_area_struct)
| OpUserStore (pfn : nat) (off : Z) (b : Byte.byte).

Definition exec (d : driver) (o : op) : M unit :=
  match o with
  | OpSubmit dr sector segs => let* _ := submit d dr sector segs in ret tt
  | OpFault pgoff => let* _ := fault d (u64 pgoff) in ret tt   (* vmf->pgoff: unsigned long *)
  | OpMmap vma => let* _ := mmap d vma in ret tt
  | OpUserStore pfn off b => user_store pfn off b
  end.

Fixpoint exec_all (d : driver) (os : list op) : M unit :=
  match os with
  | [] => ret tt
  | o :: rest => let* _ := exec d o in exec_all d rest
  end.

(** The segment loop of either variant.  The cursor is the byte position
    [pos] in [blk_modern.c] and the sector in [blk_bio.c]. *)
Definition start_cursor (d : driver) (sector : Z) : Z :=
  match d with
  | modern => u32 (u64 (Z.shiftl sector SECTOR_SHIFT))
  | bio_based => sector
  end.

Definition next_cursor (d : driver) (cur : Z) (bvec : bio_vec) : Z :=
  match d with
  | modern => u32 (cur + bv_len bvec)
  | bio_based => u64 (cur + Z.shiftr (bv_len bvec) SECTOR_SHIFT)
  end.

Definition seg_index (d : driver) (cur : Z) (bvec : bio_vec) : Z :=
  match d with
  | modern => Modern.seg_pgoff cur bvec
  | bio_based => Bio.seg_pg_idx cur
  end.

Definition segment (d : driver) (dr : dir) (cur : Z) (bvec : bio_vec) : M bio_vec :=
  match d with
  | modern => Modern.rq_segment dr cur bvec
  | bio_based => Bio.bio_segment dr cur bvec
  end.

Definition for_each_segment (d : driver) (dr : dir) (cur : Z) (segs : list bio_vec)
  : M (list bio_vec) :=
  match d with
  | modern => Modern.rq_for_each_segment dr cur segs
  | bio_based => Bio.bio_for_each_segment dr cur segs
  end.

(** The page indices the loop resolves, segment by segment. *)
Fixpoint seg_indices (d : driver) (cur : Z) (segs : list bio_vec) : list Z :=
  match segs with
  | [] => []
  | bvec :: rest => seg_index d cur bvec :: seg_indices d (next_cursor d cur bvec) rest
  end.

(** A read segment's buffer after [memzero_page]. *)
Definition zero_filled (bv : bio_vec) : bio_vec :=
  mkbvec (blit (bv_page bv) (bv_offset bv) (zero_bytes (bv_len bv)))
         (bv_offset bv) (bv_len bv).

(** The frames the page table owns, and their number: the count of
    allocated entries. *)
Definition table_frames (s : machine) : list nat := omap id (pages s).

Definition allocated (s : machine) : nat := length (table_frames s).

(** The table is the array [ramjam_init] allocated: [ramjam_pages] slots. *)
Definition table_ok (s : machine) : Prop :=
  0 <= ramjam_pages s /\ length (pages s) = Z.to_nat (ramjam_pages s).

(** [grows s s']: same capacity, same array length, and every entry
    allocated in [s] still holds the same frame in [s']. *)
Definition grows (s s' : machine) : Prop :=
  ramjam_pages s' = ramjam_pages s /\
  length (pages s') = length (pages s) /\
  forall (i : nat) (pfn : nat),
    pages s !! i = Some (Some pfn) -> pages s' !! i = Some (Some pfn).

(** ** A Hoare logic for the handlers

    [triple U P m Q]: from a state satisfying [P], [m] either finishes in
    a state satisfying [Q], or is undefined for a reason in [U]. *)
Definition triple {A} (U : undef -> Prop) (P : machine -> Prop) (m : M A)
    (Q : A -> machine -> Prop) : Prop :=
  forall s, P s ->
    match m s with
    | Done a s' => Q a s'
    | Undef u => U u
    end.

Definition any_undef : undef -> Prop := fun _ => True.
Definition copy_undef : undef -> Prop := fun u => u = BadCopy.

(** [same_table s s']: capacity and page table are the same in both. *)
Definition same_table (s s' : machine) : Prop :=
  ramjam_pages s' = ramjam_pages s /\ pages s' = pages s.

(** [reached_from s0 s]: [s] comes from [s0] by filling empty slots. *)
Definition reached_from (s0 s : machine) : Prop := grows s0 s.

(** [pure_m m]: when [m] finishes, the machine is as it was. *)
Definition pure_m {A} (m : M A) : Prop :=
  forall s, match m s with Done _ s' => s' = s | Undef _ => True end.

(** The state in which [m] leaves the machine ([s] itself when undefined). *)
Definition state_after {A} (m : M A) (s : machine) : machine :=
  match m s with Done _ s' => s' | Undef _ => s end.

(** ** The store as its consumers see it *)

(** The bytes of page [p], when its entry is allocated. *)
Definition content (s : machine) (p : nat) : option (list Byte.byte) :=
  match pages s !! p with
  | Some (Some pfn) => page_bytes <$> physmem s !! pfn
  | _ => None
  end.

(** The table has [ramjam_pages] slots, every allocated entry points to a
    frame of [PAGE_SIZE] bytes, and no two entries share a frame. *)
Definition wf_store (s : machine) : Prop :=
  table_ok s /\
  (forall (i pfn : nat),
      pages s !! i = Some (Some pfn) ->
      exists pg, physmem s !! pfn = Some pg /\
                 Z.of_nat (length (page_bytes pg)) = PAGE_SIZE) /\
  (forall (i j pfn : nat),
      pages s !! i = Some (Some pfn) -> pages s !! j = Some (Some pfn) -> i = j).

(** [fresh_frame v s]: if [v] is a frame, it is a page-sized frame that
    no entry of the table points to. *)
Definition fresh_frame (v : option nat) (s : machine) : Prop :=
  forall f, v = Some f ->
    (exists pg, physmem s !! f = Some pg /\
                Z.of_nat (length (page_bytes pg)) = PAGE_SIZE) /\
    (forall i, pages s !! i <> Some (Some f)).

(** Every [alloc_page] still to come succeeds. *)
Definition alloc_succeeds (s : machine) : Prop :=
  Forall (fun b => b = true) (alloc_plan s).

(** A whole buffer page as one segment: offset 0, [PAGE_SIZE] bytes. *)
Definition page_seg (data : list Byte.byte) : bio_vec := mkbvec data 0 PAGE_SIZE.

Definition whole_page (bv : bio_vec) : Prop :=
  Z.of_nat (length (bv_page bv)) = PAGE_SIZE /\
  bv_offset bv = 0 /\ bv_len bv = PAGE_SIZE.

(** Largest store the position arithmetic can address: [pos] is a
    [uint32_t] in [ramjam_queue_rq], so byte positions wrap at 4 GiB, that
    is 2^20 pages; in [blk_bio.c] the page index is a [uint32_t]. *)
Definition max_pages (d : driver) : Z :=
  match d with
  | modern => 2 ^ 20
  | bio_based => 2 ^ 32
  end.

(** The loop cursor at the start of page [p]: byte [p * PAGE_SIZE] in
    [blk_modern.c], sector [8 * p] in [blk_bio.c]. *)
Definition page_cursor (d : driver) (p : Z) : Z :=
  match d with
  | modern => u32 (PAGE_SIZE * p)
  | bio_based => u64 (8 * p)
  end.

(** Net effect of a one-page write to page [p]: the entry gets a frame if
    it has none, then the frame gets the bytes. *)
Definition ensure_frame (p : nat) (s : machine) : machine :=
  match pages s !! p with
  | Some None =>
      mkmachine (ramjam_pages s) (<[p := Some (length (physmem s))]> (pages s))
                (physmem s ++ [fresh_page]) (tail (alloc_plan s))
  | _ => s
  end.

Definition put_bytes (pfn : nat) (data : list Byte.byte) (s : machine) : machine :=
  match physmem s !! pfn with
  | Some pg =>
      set_physmem (<[pfn := mkpage (blit (page_bytes pg) 0 data) (page_count pg)]>
                     (physmem s)) s
  | None => s
  end.

Definition store_page (p : nat) (data : list Byte.byte) (s : machine) : machine :=
  let s1 := ensure_frame p s in
  match pages s1 !! p with
  | Some (Some pfn) => put_bytes pfn data s1
  | _ => s1
  end.

Fixpoint store_pages (p : nat) (datas : list (list Byte.byte)) (s : machine) : machine :=
  match datas with
  | [] => s
  | data :: rest => store_pages (S p) rest (store_page p data s)
  end.

(** What a read transfer returns: the bytes of its segments, in order. *)
Definition read_bytes (d : driver) (sector : Z) (segs : list bio_vec) (s : machine)
  : option (list Byte.byte) :=
  match submit d READ sector segs s with
  | Done (_, out) _ => Some (payloads out)
  | Undef _ => None
  end.

(** ** Segments used in the examples *)

(** A buffer page holding [b] everywhere, the segment being all of it. *)
Definition full_seg (b : Byte.byte) : bio_vec :=
  mkbvec (replicate (Z.to_nat PAGE_SIZE) b) 0 PAGE_SIZE.

(** A buffer page holding [b] everywhere, the segment being the 2048
    bytes at [off] in it. *)
Definition half_seg (b : Byte.byte) (off : Z) : bio_vec :=
  mkbvec (replicate (Z.to_nat PAGE_SIZE) b) off 2048.


(** ** References on frames *)

(** [__free_page(page)] and [put_page(page)]: one reference less on the
    frame; with the last one the frame is back with the allocator (count
    0).  Dropping a reference that nobody holds is a kernel BUG, and the
    embedding stops. *)
Definition __free_page (pfn : nat) : M unit := fun s =>
  match physmem s !! pfn with
  | Some pg =>
      match page_count pg with
      | S c => Done tt (set_physmem
                          (<[pfn := mkpage (page_bytes pg) c]> (physmem s)) s)
      | O => Undef BadCopy
      end
  | None => Undef BadCopy
  end.

Definition put_page (pfn : nat) : M unit := __free_page pfn.

(** Number of references on frame [pfn] (0 for a frame that is free). *)
Definition refs_in (mem : list page) (pfn : nat) : nat :=
  from_option page_count 0%nat (mem !! pfn).

Definition page_refs (s : machine) (pfn : nat) : nat := refs_in (physmem s) pfn.

(** The bytes of frame [pfn]. *)
Definition frame_bytes (s : machine) (pfn : nat) : option (list Byte.byte) :=
  page_bytes <$> physmem s !! pfn.

(** Every frame is accounted for: the table holds a reference on each
    frame it points to, and every frame ever allocated is in the table. *)
Definition frames_accounted (s : machine) : Prop :=
  (forall (i pfn : nat),
      pages s !! i = Some (Some pfn) -> (1 <= page_refs s pfn)%nat) /\
  (forall pfn : nat,
      (pfn < length (physmem s))%nat -> exists i : nat, pages s !! i = Some (Some pfn)).

(** After [alloc_page] gave [v] and before the table takes it: as
    [frames_accounted], but for the new frame, which has its first
    reference and no entry yet. *)
Definition frames_pending (v : option nat) (s : machine) : Prop :=
  (forall (i pfn : nat),
      pages s !! i = Some (Some pfn) -> (1 <= page_refs s pfn)%nat) /\
  (forall pfn : nat,
      (pfn < length (physmem s))%nat -> v <> Some pfn ->
      exists i : nat, pages s !! i = Some (Some pfn)) /\
  (forall f : nat, v = Some f -> (1 <= page_refs s f)%nat).

(** ** Unloading: the loop over the table *)

(** A C [int] after an arithmetic step, two's complement. *)
Definition s32 (x : Z) : Z := (x + 2 ^ 31) mod 2 ^ 32 - 2 ^ 31.
Arguments s32 : simpl never.

(** [for (i = 0; i < ramjam_pages; i++)
       if (ramjam_dev.pages[i]) __free_page(ramjam_dev.pages[i]);]
    with [int i]; [k] is the number of iterations still to run.  On a
    table of more than 2^31 slots the counter overflows, and the next
    access is outside the array. *)
Fixpoint free_pages_loop (k : nat) (i : Z) : M unit :=
  match k with
  | O => ret tt
  | S k' =>
      let* e := pages_load i in
      let* _ := (match e with
                 | Some pfn => __free_page pfn
                 | None => ret tt
                 end) in
      free_pages_loop k' (s32 (i + 1))
  end.

Definition free_all_pages : M unit :=
  let* n := read_ramjam_pages in
  free_pages_loop (Z.to_nat n) 0.

(** [vfree(ramjam_dev.pages)]: the array is gone. *)
Definition vfree_pages : M unit := fun s => Done tt (set_pages [] s).

(** What the loop amounts to: one reference less on every frame in
    [pfns]. *)
Definition drop_ref (pfn : nat) (mem : list page) : list page :=
  match mem !! pfn with
  | Some pg => <[pfn := mkpage (page_bytes pg) (Nat.pred (page_count pg))]> mem
  | None => mem
  end.

Definition drop_refs (pfns : list nat) (mem : list page) : list page :=
  foldl (fun m pfn => drop_ref pfn m) mem pfns.

(** ** Loading and unloading the module

    The registrations of [ramjam_init] are modelled at the kernel
    interface: a call either fails with an errno or makes one resource
    live; the matching release call ends it (and does nothing to a
    resource that is not live).  The steps that cannot fail and acquire
    nothing ([mutex_init], [cdev_init], filling in the tag set and the
    disk) are left out, but for [set_capacity]. *)

Inductive resource :=
| R_pages            (* vcalloc: the page table *)
| R_chrdev_region    (* alloc_chrdev_region *)
| R_class            (* class_create *)
| R_device           (* device_create: /dev/rramjam *)
| R_cdev             (* cdev_add *)
| R_blkdev           (* register_blkdev *)
| R_tag_set          (* blk_mq_alloc_tag_set *)
| R_disk             (* blk_mq_alloc_disk: the gendisk *)
| R_gendisk.         (* add_disk: the disk is visible *)

Definition resource_code (r : resource) : nat :=
  match r with
  | R_pages => 0 | R_chrdev_region => 1 | R_class => 2 | R_device => 3
  | R_cdev => 4 | R_blkdev => 5 | R_tag_set => 6 | R_disk => 7 | R_gendisk => 8
  end%nat.

Definition resource_eqb (a b : resource) : bool :=
  Nat.eqb (resource_code a) (resource_code b).

Definition release (r : resource) (l : list resource) : list resource :=
  List.filter (fun x => negb (resource_eqb x r)) l.

(** The calls of [ramjam_init] that can fail. *)
Inductive kcall :=
| K_vcalloc | K_alloc_chrdev_region | K_class_create | K_device_create
| K_cdev_add | K_register_blkdev | K_blk_mq_alloc_tag_set
| K_blk_mq_alloc_disk | K_add_disk.

(** The kernel the module is loaded into: for each call, the errno it
    fails with, if it fails. *)
Definition kernel := kcall -> option Z.

Record kstate := mkkstate {
  live : list resource;       (* most recent first *)
  disk_capacity : Z           (* set_capacity, in 512-byte sectors *)
}.

Definition ENOMEM : Z := 12.

(** [set_capacity(disk, (sector_t)ramjam_pages * (PAGE_SIZE / 512))] *)
Definition capacity_sectors (n : Z) : Z := u64 (u64 n * (PAGE_SIZE / 512)).

(** *** [blk_bio.c] *)

Module BioModule.

(** The labels of the error path, each falling through to the next. *)
Definition out_free_pages (l : list resource) := release R_pages l.
Definition out_unregister_chr (l : list resource) :=
  out_free_pages (release R_chrdev_region l).
Definition out_destroy_class (l : list resource) :=
  out_unregister_chr (release R_class l).
Definition out_cdev_del (l : list resource) :=
  out_destroy_class (release R_cdev l).
Definition out_destroy_device (l : list resource) :=
  out_cdev_del (release R_device l).
Definition out_unregister_blk (l : list resource) :=
  out_destroy_device (release R_blkdev l).
Definition out_free_tags (l : list resource) :=
  out_unregister_blk (release R_tag_set l).
Definition out_put_disk (l : list resource) :=
  out_free_tags (release R_disk l).

(** [ramjam_init] with [ramjam_pages = n]: the return value and what is
    live afterwards.  The table itself is [ramjam_init n plan] above. *)
Definition ramjam_init (k : kernel) (n : Z) : Z * kstate :=
  match k K_vcalloc with
  | Some _ => (- ENOMEM, mkkstate [] 0)
  | None =>
  let l := [R_pages] in
  match k K_alloc_chrdev_region with
  | Some e => (- e, mkkstate (out_free_pages l) 0)
  | None =>
  let l := R_chrdev_region :: l in
  match k K_class_create with
  | Some e => (- e, mkkstate (out_unregister_chr l) 0)
  | None =>
  let l := R_class :: l in
  match k K_cdev_add with
  | Some e => (- e, mkkstate (out_destroy_class l) 0)
  | None =>
  let l := R_cdev :: l in
  match k K_device_create with
  | Some e => (- e, mkkstate (out_cdev_del l) 0)
  | None =>
  let l := R_device :: l in
  match k K_register_blkdev with
  | Some e => (- e, mkkstate (out_destroy_device l) 0)
  | None =>
  let l := R_blkdev :: l in
  match k K_blk_mq_alloc_tag_set with
  | Some e => (- e, mkkstate (out_unregister_blk l) 0)
  | None =>
  let l := R_tag_set :: l in
  match k K_blk_mq_alloc_disk with
  | Some e => (- e, mkkstate (out_free_tags l) 0)
  | None =>
  let l := R_disk :: l in
  match k K_add_disk with
  | Some e => (- e, mkkstate (out_put_disk l) 0)
  | None => (0, mkkstate (R_gendisk :: l) (capacity_sectors n))
  end end end end end end end end end.

Definition ramjam_exit (ks : kstate) : M kstate :=
  let l := release R_gendisk (live ks) in       (* del_gendisk *)
  let l := release R_disk l in                  (* put_disk *)
  let l := release R_tag_set l in               (* blk_mq_free_tag_set *)
  let l := release R_blkdev l in                (* unregister_blkdev *)
  let l := release R_device l in                (* device_destroy *)
  let l := release R_cdev l in                  (* cdev_del *)
  let l := release R_class l in                 (* class_destroy *)
  let l := release R_chrdev_region l in         (* unregister_chrdev_region *)
  let* _ := free_all_pages in
  let* _ := vfree_pages in
  ret (mkkstate (release R_pages l) 0).

End BioModule.

(** *** [blk_modern.c] *)

Module ModernModule.

Definition err_pages (l : list resource) := release R_pages l.
Definition err_chr_region (l : list resource) :=
  err_pages (release R_chrdev_region l).
Definition err_class (l : list resource) :=
  err_chr_region (release R_class l).
Definition err_blkdev (l : list resource) :=
  err_class (release R_blkdev l).
Definition err_tag (l : list resource) :=
  err_blkdev (release R_tag_set l).
Definition err_disk (l : list resource) :=
  err_tag (release R_disk l).

(** The results of [device_create] and [cdev_add] are not looked at. *)
Definition ramjam_init (k : kernel) (n : Z) : Z * kstate :=
  match k K_vcalloc with
  | Some _ => (- ENOMEM, mkkstate [] 0)
  | None =>
  let l := [R_pages] in
  match k K_alloc_chrdev_region with
  | Some e => (- e, mkkstate (err_pages l) 0)
  | None =>
  let l := R_chrdev_region :: l in
  match k K_class_create with
  | Some e => (- e, mkkstate (err_chr_region l) 0)
  | None =>
  let l := R_class :: l in
  let l := match k K_device_create with Some _ => l | None => R_device :: l end in
  let l := match k K_cdev_add with Some _ => l | None => R_cdev :: l end in
  match k K_register_blkdev with
  | Some e => (- e, mkkstate (err_class l) 0)
  | None =>
  let l := R_blkdev :: l in
  match k K_blk_mq_alloc_tag_set with
  | Some e => (- e, mkkstate (err_blkdev l) 0)
  | None =>
  let l := R_tag_set :: l in
  match k K_blk_mq_alloc_disk with
  | Some e => (- e, mkkstate (err_tag l) 0)
  | None =>
  let l := R_disk :: l in
  match k K_add_disk with
  | Some e => (- e, mkkstate (err_disk l) 0)
  | None => (0, mkkstate (R_gendisk :: l) (capacity_sectors n))
  end end end end end end end.

Definition ramjam_exit (ks : kstate) : M kstate :=
  let l := release R_gendisk (live ks) in       (* del_gendisk *)
  let l := release R_disk l in                  (* put_disk *)
  let l := release R_tag_set l in               (* blk_mq_free_tag_set *)
  let l := release R_blkdev l in                (* unregister_blkdev *)
  let l := release R_device l in                (* device_destroy *)
  let l := release R_class l in                 (* class_destroy *)
  let l := release R_cdev l in                  (* cdev_del *)
  let l := release R_chrdev_region l in         (* unregister_chrdev_region *)
  let* _ := free_all_pages in
  let* _ := vfree_pages in
  ret (mkkstate (release R_pages l) 0).

End ModernModule.

Definition module_init (d : driver) (k : kernel) (n : Z) : Z * kstate :=
  match d with
  | modern => ModernModule.ramjam_init k n
  | bio_based => BioModule.ramjam_init k n
  end.

Definition module_exit (d : driver) (ks : kstate) : M kstate :=
  match d with
  | modern => ModernModule.ramjam_exit ks
  | bio_based => BioModule.ramjam_exit ks
  end.

(** The order in which [ramjam_init] of [blk_bio.c] makes its calls. *)
Definition bio_init_calls : list kcall :=
  [K_vcalloc; K_alloc_chrdev_region; K_class_create; K_cdev_add;
   K_device_create; K_register_blkdev; K_blk_mq_alloc_tag_set;
   K_blk_mq_alloc_disk; K_add_disk].

(** The calls whose result [ramjam_init] of [blk_modern.c] checks. *)
Definition modern_checked_calls : list kcall :=
  [K_vcalloc; K_alloc_chrdev_region; K_class_create; K_register_blkdev;
   K_blk_mq_alloc_tag_set; K_blk_mq_alloc_disk; K_add_disk].

Definition all_resources : list resource :=
  [R_gendisk; R_disk; R_tag_set; R_blkdev; R_device; R_cdev; R_class;
   R_chrdev_region; R_pages].

(** The length of a bio in sectors, as [bio_for_each_segment] advances
    the sector. *)
Definition bio_sectors (segs : list bio_vec) : Z :=
  foldr (fun bv acc => Z.shiftr (bv_len bv) SECTOR_SHIFT + acc) 0 segs.

(** ** Where a segment goes

    The offset in the store page at which the loop body copies a segment
    met at cursor [cur], and, with the page index it resolves, the byte of
    the device where the segment therefore lands. *)
Definition seg_offset (d : driver) (cur : Z) (bvec : bio_vec) : Z :=
  match d with
  | modern => cur mod PAGE_SIZE
  | bio_based => bv_offset bvec mod PAGE_SIZE
  end.

Definition seg_lands (d : driver) (cur : Z) (bvec : bio_vec) : Z :=
  seg_index d cur bvec * PAGE_SIZE + seg_offset d cur bvec.

(** The byte position on the device that the cursor stands for. *)
Definition cursor_pos (d : driver) (cur : Z) : Z :=
  match d with
  | modern => cur
  | bio_based => cur * 512
  end.

(** [lines_up d cur bvec]: the segment's place in its buffer page agrees
    with its place on the device well enough for the loop body to find
    the right page and the right offset.  In [blk_modern.c] the buffer
    offset added to the position must not carry into the next page, and
    the segment must end within the store page; in [blk_bio.c] the buffer
    offset must be the position modulo the page size, and the length a
    whole number of sectors, as the cursor advances by sectors. *)
Definition lines_up (d : driver) (cur : Z) (bvec : bio_vec) : Prop :=
  match d with
  | modern =>
      cur mod PAGE_SIZE + bv_offset bvec < PAGE_SIZE /\
      cur mod PAGE_SIZE + bv_len bvec <= PAGE_SIZE
  | bio_based =>
      bv_offset bvec mod PAGE_SIZE = (cur * 512) mod PAGE_SIZE /\
      bv_len bvec mod 512 = 0
  end.

(** The same for every segment of a request, the cursor advancing as the
    loop does. *)
Fixpoint request_lines_up (d : driver) (cur : Z) (segs : list bio_vec) : Prop :=
  match segs with
  | [] => True
  | bvec :: rest =>
      lines_up d cur bvec /\ request_lines_up d (next_cursor d cur bvec) rest
  end.

(** Number of bytes of a request. *)
Definition request_len (segs : list bio_vec) : Z :=
  foldr (fun bv acc => bv_len bv + acc) 0 segs.

(** ** The way of a request to the handler

    The handlers have no range check of their own.  What keeps a request
    that runs past the end of the device away from them is the capacity
    that [ramjam_init] gives to [set_capacity]: the block layer checks
    every bio against it before the driver sees the bio ([bio_check_eod]
    in [submit_bio_noacct]) and completes a bio that fails the check with
    [BLK_STS_IOERR].  The check is code of the kernel, not of the module;
    like [alloc_page] it is modelled at the module's interface, as the
    kernel has it:

      if (nr_sectors && (nr_sectors > maxsector ||
                         bio->bi_iter.bi_sector > maxsector - nr_sectors))
              return -EIO;

    with [maxsector] the capacity of the disk and [nr_sectors] the size of
    the bio, both in sectors of 512 bytes. *)
Definition bio_check_eod (maxsector sector nr_sectors : Z) : bool :=
  negb (nr_sectors =? 0) &&
  ((maxsector <? nr_sectors) || (maxsector - nr_sectors <? sector)).

(** A request on its way to the driver loaded as [ks]. *)
Definition submit_bio_noacct (ks : kstate) (d : driver) (dr : dir) (sector : Z)
    (segs : list bio_vec) : M (blk_status_t * list bio_vec) :=
  if bio_check_eod (disk_capacity ks) sector
                   (Z.shiftr (request_len segs) SECTOR_SHIFT)
  then ret (BLK_STS_IOERR, segs)
  else submit d dr sector segs.

(** ** The store as an array of bytes

    Byte [a] of the device as its consumers see it: a page that was never
    touched reads as zero. *)
Definition byte_at (s : machine) (a : Z) : Byte.byte :=
  match content s (Z.to_nat (Z.shiftr a PAGE_SHIFT)) with
  | Some bytes => default Byte.x00 (bytes !! Z.to_nat (a mod PAGE_SIZE))
  | None => Byte.x00
  end.

(** Bytes [a, a + n). *)
Definition bytes_at (s : machine) (a : Z) (n : nat) : list Byte.byte :=
  map (fun k => byte_at s (a + Z.of_nat k)) (seq 0 n).

(** ** A process that maps the character device

    The kernel's part of a user access is modelled at the interface of
    the driver: an access outside the area is a SIGSEGV; an access to a
    page without a page-table entry calls the fault handler with the
    page's index in the file and, when the handler gives a page, enters
    it in the process's page table [ptes]; later accesses to the page go
    to that frame directly. *)

Inductive signal := SIGSEGV | SIGBUS | SIGKILL.

Inductive access (A : Type) :=
| Ok (a : A)
| Sig (sg : signal).
Arguments Ok {A} a.
Arguments Sig {A} sg.

Abbreviation ptes_t := (gmap Z nat).

(** The frame behind byte [off] of the area, after the fault if one is
    needed. *)
Definition touch (d : driver) (vma : vm_area_struct) (ptes : ptes_t) (off : Z)
  : M (access nat * ptes_t) :=
  if (0 <=? off) && (off <? vm_end vma - vm_start vma) then
    let pgoff := u64 (vm_pgoff vma + Z.shiftr off PAGE_SHIFT) in
    match ptes !! pgoff with
    | Some pfn => ret (Ok pfn, ptes)
    | None =>
        if vm_ops vma then
          let* r := fault d pgoff in
          match r with
          | (VM_FAULT_NONE, Some pfn) => ret (Ok pfn, <[pgoff := pfn]> ptes)
          | (VM_FAULT_OOM, _) => ret (Sig SIGKILL, ptes)
          | _ => ret (Sig SIGBUS, ptes)
          end
        else ret (Sig SIGBUS, ptes)   (* no fault handler was attached *)
    end
  else ret (Sig SIGSEGV, ptes).

(** [memcpy(map + off, src, n)], [n] being the length of [src].  The
    order in which [memcpy] touches the bytes is the C library's choice,
    and it shows when a signal stops the copy.  [order] lists the
    offsets, counted from the start of the copy, in the order in which
    they are touched; an offset may come more than once, and one that is
    no byte of the copy is passed over. *)
Fixpoint memcpy_to_map (d : driver) (vma : vm_area_struct) (ptes : ptes_t)
    (off : Z) (src : list Byte.byte) (order : list nat)
  : M (access unit * ptes_t) :=
  match order with
  | [] => ret (Ok tt, ptes)
  | k :: rest =>
      match src !! k with
      | Some b =>
          let* r := touch d vma ptes (off + Z.of_nat k) in
          match r with
          | (Ok pfn, ptes') =>
              let* _ := user_store pfn ((off + Z.of_nat k) mod PAGE_SIZE) b in
              memcpy_to_map d vma ptes' off src rest
          | (Sig sg, ptes') => ret (Sig sg, ptes')
          end
      | None => memcpy_to_map d vma ptes off src rest
      end
  end.

(** How a copy into a buffer of the process ends. *)
Inductive copied :=
| Copied (dst : list Byte.byte)   (* the buffer after the copy *)
| Stopped (sg : signal)
| PastEnd.                        (* a byte was to go past the end of the
                                     buffer: undefined in C *)

(** [memcpy(dst, map + off, n)] into the buffer [dst], in the order
    [order] as above: each byte is loaded from the mapping, which may
    fault, and stored in the buffer. *)
Fixpoint memcpy_from_map (d : driver) (vma : vm_area_struct) (ptes : ptes_t)
    (off : Z) (dst : list Byte.byte) (n : nat) (order : list nat)
  : M (copied * ptes_t) :=
  match order with
  | [] => ret (Copied dst, ptes)
  | k :: rest =>
      if (k <? n)%nat then
        let* r := touch d vma ptes (off + Z.of_nat k) in
        match r with
        | (Ok pfn, ptes') =>
            let* b := user_load pfn ((off + Z.of_nat k) mod PAGE_SIZE) in
            if (k <? length dst)%nat
            then memcpy_from_map d vma ptes' off (blit dst (Z.of_nat k) b) n rest
            else ret (PastEnd, ptes')
        | (Sig sg, ptes') => ret (Stopped sg, ptes')
        end
      else memcpy_from_map d vma ptes off dst n rest
  end.

(** [order] touches every byte of a copy of [n] bytes. *)
Definition covers (order : list nat) (n : nat) : Prop :=
  forall k : nat, (k < n)%nat -> k ∈ order.

(** The end of the mapping ([munmap], or the end of the process): the
    kernel drops the reference of every page-table entry. *)
Fixpoint put_pages (pfns : list nat) : M unit :=
  match pfns with
  | [] => ret tt
  | pfn :: rest => let* _ := put_page pfn in put_pages rest
  end.

(** The frames a process has in its page table. *)
Definition mapped_frames (ptes : ptes_t) : list nat := snd <$> map_to_list ptes.

Definition unmap (ptes : ptes_t) : M unit :=
  put_pages (mapped_frames ptes).

(** The page-table entries of a process agree with the store: each one
    is the frame the table holds for that page, with the mapping's
    reference on it besides the table's. *)
Definition ptes_ok (ptes : ptes_t) (s : machine) : Prop :=
  forall (pg : Z) (pfn : nat),
    ptes !! pg = Some pfn ->
    0 <= pg /\ pages s !! Z.to_nat pg = Some (Some pfn) /\
    (2 <= page_refs s pfn)%nat.

(** The page index a fault handler looks up: [vmf->pgoff], which
    [blk_bio.c] keeps in a [uint32_t]. *)
Definition fault_index (d : driver) (pgoff : Z) : Z :=
  match d with
  | modern => pgoff
  | bio_based => u32 pgoff
  end.

(** [refs_balanced ptes s0 s]: since [s0], the only references added are
    those of the page table [ptes]: a frame of [s0] has the references it
    had in [s0], a frame allocated since has the table's, and each has one
    more if the process maps it. *)
Definition refs_balanced (ptes : ptes_t) (s0 s : machine) : Prop :=
  (length (physmem s0) <= length (physmem s))%nat /\
  forall f : nat,
    page_refs s f =
    ((if decide (f < length (physmem s0))%nat then page_refs s0 f
      else if decide (f < length (physmem s))%nat then 1 else 0)
     + (if decide (f ∈ mapped_frames ptes) then 1 else 0))%nat.

(** A store in good order, on which allocation succeeds, of a size that
    fits [unsigned int ramjam_pages]. *)
Definition store_ok (s : machine) : Prop :=
  wf_store s /\ frames_accounted s /\ alloc_succeeds s /\ ramjam_pages s < 2 ^ 32.

Definition map_ok (ptes : ptes_t) (s : machine) : Prop :=
  store_ok s /\ ptes_ok ptes s.

(** The byte of the device behind byte [off] of the area. *)
Definition file_addr (vma : vm_area_struct) (off : Z) : Z :=
  vm_pgoff vma * PAGE_SIZE + off.

(** ** [test.c] *)

Definition OP_WRITE : Z := 1.
Definition OP_READ : Z := 2.
Definition MAP_LEN : Z := 512 * 1024 * 1024.
Definition BUF_LEN : Z := 8192.
Definition EXIT_FAILURE : Z := 1.

Inductive proc_result :=
| Exited (status : Z) (out : list Byte.byte)   (* exit status, what went to stdout *)
| Killed (sg : signal)
| Overrun.                                     (* a copy past the end of [buf2] *)

(** [main], with the driver [d] behind [/dev/rramjam].  [args] are the
    numbers [atoi] finds in [argv[1..]]; [input] is what [read(0, ...)]
    finds on standard input; [base] is the address the kernel picks for
    the mapping; [order_w] and [order_r] are the orders in which the two
    calls of [memcpy] touch their bytes.  [open], [read], [write],
    [munmap] and [close] succeed.  [buf2] is not initialised; the model
    starts it as zeros, all of which a copy that touches each of its
    bytes overwrites before they are written out.  A count that does not
    fit [buf2] makes the second copy run past its end: the program has no
    defined behaviour from the first byte stored there, and the model
    ends the process at that point.  The mapping goes away with
    [munmap], or with the process. *)
Definition test_main (d : driver) (base : Z) (args : list Z)
    (input : list Byte.byte) (order_w order_r : list nat) : M proc_result :=
  let operation := default (Z.lor OP_READ OP_WRITE) (args !! 0%nat) in
  let offset := default 0 (args !! 1%nat) in
  let cnt := default BUF_LEN (args !! 2%nat) in
  let* r := mmap d (mkvma base (base + MAP_LEN) 0 false) in
  let '(err, vma) := r in
  if negb (err =? 0) then ret (Exited EXIT_FAILURE [])
  else
    let buf := take (Z.to_nat BUF_LEN) input in
    let writes := negb (Z.land operation OP_WRITE =? 0) in
    let reads := negb (Z.land operation OP_READ =? 0) in
    let cnt := if writes then Z.of_nat (length buf) else cnt in
    let* w := (if writes then memcpy_to_map d vma ∅ offset buf order_w
               else ret (Ok tt, ∅)) in
    match w with
    | (Sig sg, ptes) => let* _ := unmap ptes in ret (Killed sg)
    | (Ok _, ptes) =>
        if reads then
          let* r := memcpy_from_map d vma ptes offset
                      (replicate (Z.to_nat BUF_LEN) Byte.x00)
                      (Z.to_nat (u64 cnt)) order_r in
          match r with
          | (Copied buf2, ptes') =>
              let* _ := unmap ptes' in ret (Exited 0 (take (Z.to_nat cnt) buf2))
          | (Stopped sg, ptes') => let* _ := unmap ptes' in ret (Killed sg)
          | (PastEnd, ptes') => let* _ := unmap ptes' in ret Overrun
          end
        else
          let* _ := unmap ptes in ret (Exited 0 [])
    end.
(** * Properties *)

Lemma bind_Done {A B} (m : M A) (k : A -> M B) s b s' :
  bind m k s = Done b s' ->
  exists a s1, m s = Done a s1 /\ k a s1 = Done b s'.
Proof.
  unfold bind. destruct (m s) as [a s1|u]; [eauto | discriminate].
Qed.

Lemma triple_ret {A} U (P : machine -> Prop) (a : A) (Q : A -> machine -> Prop) :
  (forall s, P s -> Q a s) -> triple U P (ret a) Q.
Proof. intros H s Hs. cbn. auto. Qed.

Lemma triple_bind {A B} U P (m : M A) (k : A -> M B) Q R :
  triple U P m Q ->
  (forall a, triple U (Q a) (k a) R) ->
  triple U P (bind m k) R.
Proof.
  intros Hm Hk s Hs. unfold bind. specialize (Hm s Hs).
  destruct (m s) as [a s1|u]; [apply (Hk a s1 Hm) | exact Hm].
Qed.

Lemma triple_conseq {A} U (P P' : machine -> Prop) (m : M A)
    (Q Q' : A -> machine -> Prop) :
  triple U P' m Q' ->
  (forall s, P s -> P' s) ->
  (forall a s, Q' a s -> Q a s) ->
  triple U P m Q.
Proof.
  intros Hm HP HQ s Hs. specialize (Hm s (HP s Hs)).
  destruct (m s); auto.
Qed.

(** State-preserving primitives keep any assertion. *)
Lemma triple_frame_pure {A} U (P : machine -> Prop) (m : M A) :
  (forall s, match m s with Done _ s' => s' = s | Undef u => U u end) ->
  triple U P m (fun _ s => P s).
Proof.
  intros H s Hs. specialize (H s). destruct (m s); [subst; auto | auto].
Qed.

Lemma page_read_pure U pfn off len :
  U BadCopy ->
  forall s, match page_read pfn off len s with
            | Done _ s' => s' = s | Undef u => U u end.
Proof.
  intros HU s. unfold page_read.
  destruct (physmem s !! pfn); [destruct (in_bounds _ _ _)|]; auto.
Qed.

Lemma bvec_load_pure U bv :
  U BadCopy ->
  forall s, match bvec_load bv s with
            | Done _ s' => s' = s | Undef u => U u end.
Proof. intros HU s. unfold bvec_load. destruct (in_bounds _ _ _); auto. Qed.

Lemma bvec_store_pure U bv data :
  U BadCopy ->
  forall s, match bvec_store bv data s with
            | Done _ s' => s' = s | Undef u => U u end.
Proof. intros HU s. unfold bvec_store. destruct (in_bounds _ _ _); auto. Qed.

Lemma memzero_page_pure U bv :
  U BadCopy ->
  forall s, match memzero_page bv s with
            | Done _ s' => s' = s | Undef u => U u end.
Proof. intros HU. apply bvec_store_pure, HU. Qed.

(** Primitives that change frames or the allocator never touch the table. *)
Lemma page_write_same_table U pfn off src :
  U BadCopy ->
  forall s, match page_write pfn off src s with
            | Done _ s' => same_table s s' | Undef u => U u end.
Proof.
  intros HU s. unfold page_write.
  destruct (physmem s !! pfn); [destruct (in_bounds _ _ _)|]; auto.
  split; reflexivity.
Qed.

Lemma get_page_same_table U pfn :
  U BadCopy ->
  forall s, match get_page pfn s with
            | Done _ s' => same_table s s' | Undef u => U u end.
Proof.
  intros HU s. unfold get_page.
  destruct (physmem s !! pfn); auto. split; reflexivity.
Qed.

Lemma alloc_page_same_table s :
  match alloc_page s with
  | Done _ s' => same_table s s' | Undef _ => False end.
Proof.
  unfold alloc_page. destruct (alloc_plan s) as [|[] ?]; split; reflexivity.
Qed.

#[export] Instance grows_preorder : PreOrder grows.
Proof.
  split.
  - intros s. repeat split; auto.
  - intros s1 s2 s3 (Hn & Hl & He) (Hn' & Hl' & He').
    repeat split; [congruence | congruence | auto].
Qed.

Lemma same_table_grows s s' : same_table s s' -> grows s s'.
Proof. intros [Hn Hp]. unfold grows. rewrite Hn, Hp. auto. Qed.

Lemma grows_table_ok s s' : grows s s' -> table_ok s -> table_ok s'.
Proof. intros (Hn & Hl & _) [H0 Hlen]. unfold table_ok. rewrite Hn, Hl. auto. Qed.

(** Filling an empty slot is the one table update that [grows] allows. *)
Lemma fill_slot_grows s (i : nat) v :
  pages s !! i = Some None ->
  grows s (set_pages (<[i := v]> (pages s)) s).
Proof.
  intros Hi. repeat split; cbn.
  - apply length_insert.
  - intros j pfn Hj. destruct (decide (i = j)) as [->|Hne].
    + congruence.
    + rewrite list_lookup_insert_ne; auto.
Qed.

(** ** The table invariant along any execution

    [s0] is a state whose table is the array of [ramjam_pages s0] slots;
    [J s] says [s] was reached from it by filling empty slots only.  Every
    handler keeps [J] and, from a [J] state, never indexes outside the
    array: the only undefined behaviour left is a copy past a page end. *)
Section Invariant.

Variable s0 : machine.
Hypothesis s0_ok : table_ok s0.

Local Abbreviation J := (reached_from s0).

Lemma J_slot s i :
  J s -> 0 <= i < ramjam_pages s0 -> is_Some (pages s !! Z.to_nat i).
Proof.
  intros (_ & Hl & _) Hi. apply lookup_lt_is_Some.
  destruct s0_ok as [_ Hlen]. rewrite Hl, Hlen. lia.
Qed.

Lemma read_capacity_J {B} (k : Z -> M B) (Q : B -> machine -> Prop) U :
  triple U J (k (ramjam_pages s0)) Q ->
  triple U J (bind read_ramjam_pages k) Q.
Proof.
  intros H s Hs. unfold bind, read_ramjam_pages.
  rewrite (proj1 Hs). apply H, Hs.
Qed.

Lemma triple_J_same_table {A} U (m : M A) :
  (forall s, match m s with
             | Done _ s' => same_table s s' | Undef u => U u end) ->
  triple U J m (fun _ s => J s).
Proof.
  intros H s Hs. specialize (H s). destruct (m s); auto.
  unfold J. etransitivity; [exact Hs | apply same_table_grows, H].
Qed.

Lemma triple_J_pure {A} U (m : M A) :
  (forall s, match m s with Done _ s' => s' = s | Undef u => U u end) ->
  triple U J m (fun _ s => J s).
Proof. apply triple_frame_pure. Qed.

Lemma pages_load_J i :
  0 <= i < ramjam_pages s0 ->
  triple copy_undef J (pages_load i)
         (fun v s => J s /\ pages s !! Z.to_nat i = Some v).
Proof.
  intros Hi s Hs. unfold pages_load.
  destruct (Z.ltb_spec i 0); [lia|].
  destruct (J_slot s i Hs Hi) as [v Hv]. rewrite Hv. auto.
Qed.

Lemma pages_store_J i v :
  0 <= i ->
  triple copy_undef (fun s => J s /\ pages s !! Z.to_nat i = Some None)
         (pages_store i v) (fun _ s => J s).
Proof.
  intros Hi s [Hs Hslot]. unfold pages_store.
  destruct (Z.ltb_spec i 0); [lia|]. rewrite Hslot.
  unfold J. etransitivity; [exact Hs | apply fill_slot_grows, Hslot].
Qed.

Lemma alloc_page_J (k : nat) v :
  triple copy_undef (fun s => J s /\ pages s !! k = Some v) alloc_page
         (fun _ s => J s /\ pages s !! k = Some v).
Proof.
  intros s [Hs Hslot]. pose proof (alloc_page_same_table s) as H.
  destruct (alloc_page s) as [p s'|]; [|contradiction].
  split.
  - unfold J. etransitivity; [exact Hs | apply same_table_grows, H].
  - destruct H as [_ ->]. exact Hslot.
Qed.

Lemma copy_undef_BadCopy : copy_undef BadCopy.
Proof. reflexivity. Qed.

#[local] Hint Resolve copy_undef_BadCopy : core.

(** *** blk_modern.c *)

Lemma get_page_J pgoff allocate :
  0 <= pgoff ->
  triple copy_undef J (Modern.ramjam_get_page pgoff allocate) (fun _ s => J s).
Proof.
  intros Hpg. unfold Modern.ramjam_get_page.
  apply read_capacity_J.
  destruct (Z.geb_spec pgoff (ramjam_pages s0)) as [Hge|Hlt].
  { apply triple_ret. auto. }
  eapply triple_bind; [apply pages_load_J; lia|]. intros cur.
  eapply triple_bind with (Q := fun _ s => J s).
  - destruct cur as [pfn|]; cbn.
    + apply triple_ret. tauto.
    + destruct allocate; cbn; [|apply triple_ret; tauto].
      eapply triple_bind; [apply alloc_page_J|]. intros p.
      apply pages_store_J. lia.
  - intros ?. eapply triple_conseq; [apply pages_load_J; lia | auto | ].
    cbn. tauto.
Qed.

Lemma u32_nonneg x : 0 <= u32 x.
Proof. unfold u32. apply Z.mod_pos_bound. lia. Qed.

Lemma u64_nonneg x : 0 <= u64 x.
Proof. unfold u64. apply Z.mod_pos_bound. lia. Qed.

Lemma seg_pgoff_nonneg pos bvec : 0 <= Modern.seg_pgoff pos bvec.
Proof. unfold Modern.seg_pgoff. apply Z.shiftr_nonneg, u32_nonneg. Qed.

(** The copy that follows the lookup touches frames and buffers only. *)
Lemma copy_J d (page : option nat) off bvec :
  triple copy_undef J
    (match page with
     | Some pfn =>
         if is_write d then
           let* src := bvec_load bvec in
           let* _ := page_write pfn off src in
           ret bvec
         else
           let* data := page_read pfn off (bv_len bvec) in
           bvec_store bvec data
     | None =>
         match d with
         | READ => memzero_page bvec
         | WRITE => ret bvec
         end
     end) (fun _ s => J s).
Proof.
  destruct page as [pfn|].
  - destruct d; cbn.
    + eapply triple_bind; [apply triple_J_pure, page_read_pure; auto|].
      intros data. apply triple_J_pure, bvec_store_pure; auto.
    + eapply triple_bind; [apply triple_J_pure, bvec_load_pure; auto|].
      intros src.
      eapply triple_bind; [apply triple_J_same_table, page_write_same_table; auto|].
      intros ?. apply triple_ret; auto.
  - destruct d.
    + apply triple_J_pure, memzero_page_pure; auto.
    + apply triple_ret; auto.
Qed.

Lemma rq_segment_J d pos bvec :
  triple copy_undef J (Modern.rq_segment d pos bvec) (fun _ s => J s).
Proof.
  unfold Modern.rq_segment.
  eapply triple_bind; [apply get_page_J, seg_pgoff_nonneg|].
  intros page. apply copy_J.
Qed.

Lemma rq_for_each_segment_J d segs :
  forall pos,
    triple copy_undef J (Modern.rq_for_each_segment d pos segs) (fun _ s => J s).
Proof.
  induction segs as [|bvec rest IH]; intros pos; cbn.
  - apply triple_ret; auto.
  - eapply triple_bind; [apply rq_segment_J|]. intros b.
    eapply triple_bind; [apply IH|]. intros bs. apply triple_ret; auto.
Qed.

Lemma ramjam_queue_rq_J rq :
  triple copy_undef J (Modern.ramjam_queue_rq rq) (fun _ s => J s).
Proof.
  unfold Modern.ramjam_queue_rq.
  eapply triple_bind; [apply rq_for_each_segment_J|].
  intros bufs. apply triple_ret; auto.
Qed.

Lemma ramjam_vma_fault_J pgoff :
  0 <= pgoff ->
  triple copy_undef J (Modern.ramjam_vma_fault pgoff) (fun _ s => J s).
Proof.
  intros Hpg. unfold Modern.ramjam_vma_fault.
  eapply triple_bind; [apply get_page_J, Hpg|]. intros [pfn|].
  - eapply triple_bind; [apply triple_J_same_table, get_page_same_table; auto|].
    intros ?. apply triple_ret; auto.
  - apply triple_ret; auto.
Qed.

(** *** blk_bio.c *)

Lemma seg_pg_idx_nonneg sector : 0 <= Bio.seg_pg_idx sector.
Proof. apply u32_nonneg. Qed.

Lemma bio_segment_J d sector bvec :
  triple copy_undef J (Bio.bio_segment d sector bvec) (fun _ s => J s).
Proof.
  unfold Bio.bio_segment.
  pose proof (seg_pg_idx_nonneg sector) as Hidx.
  set (pg_idx := Bio.seg_pg_idx sector) in *.
  apply read_capacity_J.
  destruct (Z.ltb_spec pg_idx (ramjam_pages s0)) as [Hlt|Hge].
  - eapply triple_bind; [apply pages_load_J; lia|]. intros found.
    eapply triple_bind with (Q := fun _ s => J s); [|intros page; apply copy_J].
    destruct found as [pfn|]; cbn.
    + apply triple_ret. tauto.
    + destruct d; cbn; [apply triple_ret; tauto|].
      eapply triple_bind; [apply alloc_page_J|]. intros p.
      eapply triple_bind; [apply pages_store_J; lia|]. intros ?.
      apply triple_ret; auto.
  - eapply triple_bind with (Q := fun _ s => J s); [apply triple_ret; auto|].
    intros found. rewrite andb_false_r.
    eapply triple_bind with (Q := fun _ s => J s); [apply triple_ret; auto|].
    intros page. apply copy_J.
Qed.

Lemma bio_for_each_segment_J d segs :
  forall sector,
    triple copy_undef J (Bio.bio_for_each_segment d sector segs) (fun _ s => J s).
Proof.
  induction segs as [|bvec rest IH]; intros sector; cbn.
  - apply triple_ret; auto.
  - eapply triple_bind; [apply bio_segment_J|]. intros b.
    eapply triple_bind; [apply IH|]. intros bs. apply triple_ret; auto.
Qed.

Lemma ramjam_submit_bio_J b :
  triple copy_undef J (Bio.ramjam_submit_bio b) (fun _ s => J s).
Proof.
  unfold Bio.ramjam_submit_bio.
  eapply triple_bind; [apply bio_for_each_segment_J|].
  intros bufs. apply triple_ret; auto.
Qed.

Lemma ramjam_vm_fault_J pgoff :
  triple copy_undef J (Bio.ramjam_vm_fault pgoff) (fun _ s => J s).
Proof.
  unfold Bio.ramjam_vm_fault. pose proof (u32_nonneg pgoff) as Hidx.
  apply read_capacity_J.
  destruct (Z.geb_spec (u32 pgoff) (ramjam_pages s0)) as [Hge|Hlt].
  { apply triple_ret; auto. }
  eapply triple_bind; [apply pages_load_J; lia|]. intros [pfn|].
  - eapply triple_bind with (Q := fun _ s => J s).
    + eapply triple_conseq;
        [apply triple_J_same_table, get_page_same_table; auto | tauto | auto].
    + intros ?. apply triple_ret; auto.
  - eapply triple_bind; [apply alloc_page_J|]. intros [pfn|].
    + eapply triple_bind; [apply pages_store_J; lia|]. intros ?.
      eapply triple_bind; [apply triple_J_same_table, get_page_same_table; auto|].
      intros ?. apply triple_ret; auto.
    + apply triple_ret. tauto.
Qed.

Lemma rramjam_mmap_J vma :
  triple copy_undef J (Bio.rramjam_mmap vma) (fun _ s => J s).
Proof.
  unfold Bio.rramjam_mmap. apply read_capacity_J.
  destruct (_ >? _); apply triple_ret; auto.
Qed.

(** *** Any operation, any sequence, either variant *)

Lemma exec_J d o : triple copy_undef J (exec d o) (fun _ s => J s).
Proof.
  destruct o as [dr sector segs|pgoff|vma|pfn off b]; cbn.
  - eapply triple_bind with (Q := fun _ s => J s);
      [|intros r; apply triple_ret; auto].
    destruct d; [apply ramjam_queue_rq_J | apply ramjam_submit_bio_J].
  - eapply triple_bind with (Q := fun _ s => J s);
      [|intros r; apply triple_ret; auto].
    destruct d; [apply ramjam_vma_fault_J, u64_nonneg | apply ramjam_vm_fault_J].
  - eapply triple_bind with (Q := fun _ s => J s);
      [|intros r; apply triple_ret; auto].
    destruct d; [apply triple_ret; auto | apply rramjam_mmap_J].
  - apply triple_J_same_table, page_write_same_table; auto.
Qed.

Lemma exec_all_J d os : triple copy_undef J (exec_all d os) (fun _ s => J s).
Proof.
  induction os as [|o rest IH]; cbn.
  - apply triple_ret; auto.
  - eapply triple_bind; [apply exec_J|]. intros ?. exact IH.
Qed.

End Invariant.

(** ** Counting allocated entries *)

Lemma omap_id_length_le (l : list (option nat)) :
  (length (omap id l) <= length l)%nat.
Proof.
  induction l as [|[pfn|] l IH]; csimpl; lia.
Qed.

Lemma omap_id_length_mono (l l' : list (option nat)) :
  length l' = length l ->
  (forall (i : nat) (pfn : nat),
      l !! i = Some (Some pfn) -> l' !! i = Some (Some pfn)) ->
  (length (omap id l) <= length (omap id l'))%nat.
Proof.
  revert l'. induction l as [|e l IH]; intros [|e' l'] Hlen Hkeep;
    csimpl in *; try lia.
  assert (Hrest : (length (omap id l) <= length (omap id l'))%nat).
  { apply IH; [lia|]. intros i pfn Hi. apply (Hkeep (S i) pfn Hi). }
  destruct e as [pfn|]; csimpl.
  - specialize (Hkeep 0%nat pfn eq_refl). csimpl in Hkeep.
    injection Hkeep as ->. csimpl. lia.
  - destruct e'; csimpl; lia.
Qed.

Lemma grows_allocated s s' : grows s s' -> (allocated s <= allocated s')%nat.
Proof.
  intros (_ & Hl & Hkeep). apply omap_id_length_mono; assumption.
Qed.

Lemma allocated_le_capacity s :
  table_ok s -> Z.of_nat (allocated s) <= ramjam_pages s.
Proof.
  intros [H0 Hlen]. unfold allocated, table_frames.
  pose proof (omap_id_length_le (pages s)). lia.
Qed.

Lemma exec_all_grows d os s s' :
  table_ok s -> exec_all d os s = Done tt s' -> grows s s'.
Proof.
  intros Hok Hrun.
  pose proof (exec_all_J s Hok d os s (reflexivity s)) as H.
  rewrite Hrun in H. exact H.
Qed.

(** ** Computations that leave the machine as it was *)

Lemma pure_ret {A} (a : A) : pure_m (ret a).
Proof. intros s. reflexivity. Qed.

Lemma pure_bind {A B} (m : M A) (k : A -> M B) :
  pure_m m -> (forall a, pure_m (k a)) -> pure_m (bind m k).
Proof.
  intros Hm Hk s. unfold bind. specialize (Hm s).
  destruct (m s) as [a s1|]; [subst s1; apply Hk | exact I].
Qed.

Lemma pure_pages_load i : pure_m (pages_load i).
Proof.
  intros s. unfold pages_load.
  destruct (i <? 0); [exact I|]. destruct (pages s !! Z.to_nat i); auto.
Qed.

Lemma pure_page_read pfn off len : pure_m (page_read pfn off len).
Proof. intros s. apply (page_read_pure any_undef). exact I. Qed.

Lemma pure_bvec_store bv data : pure_m (bvec_store bv data).
Proof. intros s. apply (bvec_store_pure any_undef). exact I. Qed.

Lemma pure_read_ramjam_pages : pure_m read_ramjam_pages.
Proof. intros s. reflexivity. Qed.

(** [ramjam_get_page(pgoff, false)] is a lookup. *)
Lemma pure_get_page_noalloc pgoff : pure_m (Modern.ramjam_get_page pgoff false).
Proof.
  unfold Modern.ramjam_get_page.
  apply pure_bind; [apply pure_read_ramjam_pages|]. intros n.
  destruct (pgoff >=? n); [apply pure_ret|].
  apply pure_bind; [apply pure_pages_load|]. intros cur.
  rewrite andb_false_r.
  apply pure_bind; [apply pure_ret | intros ?; apply pure_pages_load].
Qed.

Lemma pure_read_copy (page : option nat) off bvec :
  pure_m (match page with
          | Some pfn =>
              let* data := page_read pfn off (bv_len bvec) in
              bvec_store bvec data
          | None => memzero_page bvec
          end).
Proof.
  destruct page as [pfn|]; [|apply pure_bvec_store].
  apply pure_bind; [apply pure_page_read | intros data; apply pure_bvec_store].
Qed.

Lemma pure_rq_segment_read pos bvec : pure_m (Modern.rq_segment READ pos bvec).
Proof.
  unfold Modern.rq_segment. cbn.
  apply pure_bind; [apply pure_get_page_noalloc|].
  intros page. apply pure_read_copy.
Qed.

Lemma pure_rq_for_each_segment_read segs :
  forall pos, pure_m (Modern.rq_for_each_segment READ pos segs).
Proof.
  induction segs as [|bvec rest IH]; intros pos; cbn; [apply pure_ret|].
  apply pure_bind; [apply pure_rq_segment_read|]. intros b.
  apply pure_bind; [apply IH | intros bs; apply pure_ret].
Qed.

Lemma pure_bio_segment_read sector bvec : pure_m (Bio.bio_segment READ sector bvec).
Proof.
  unfold Bio.bio_segment. cbn.
  apply pure_bind; [apply pure_read_ramjam_pages|]. intros n.
  apply pure_bind.
  { destruct (_ <? _); [apply pure_pages_load | apply pure_ret]. }
  intros found. rewrite andb_false_r. cbn.
  apply pure_bind; [apply pure_ret|]. intros page. apply pure_read_copy.
Qed.

Lemma pure_bio_for_each_segment_read segs :
  forall sector, pure_m (Bio.bio_for_each_segment READ sector segs).
Proof.
  induction segs as [|bvec rest IH]; intros sector; cbn; [apply pure_ret|].
  apply pure_bind; [apply pure_bio_segment_read|]. intros b.
  apply pure_bind; [apply IH | intros bs; apply pure_ret].
Qed.

Lemma pure_submit_read d sector segs : pure_m (submit d READ sector segs).
Proof.
  destruct d; cbn.
  - unfold Modern.ramjam_queue_rq. cbn.
    apply pure_bind; [apply pure_rq_for_each_segment_read|].
    intros bufs. apply pure_ret.
  - unfold Bio.ramjam_submit_bio. cbn.
    apply pure_bind; [apply pure_bio_for_each_segment_read|].
    intros bufs. apply pure_ret.
Qed.

(** ** The segment loop, uniformly *)

Lemma submit_unfold d dr sector segs :
  submit d dr sector segs =
  (let* bufs := for_each_segment d dr (start_cursor d sector) segs in
   ret (BLK_STS_OK, bufs)).
Proof. destruct d; reflexivity. Qed.

Lemma for_each_segment_cons d dr cur bvec rest :
  for_each_segment d dr cur (bvec :: rest) =
  (let* b := segment d dr cur bvec in
   let* bs := for_each_segment d dr (next_cursor d cur bvec) rest in
   ret (b :: bs)).
Proof. destruct d; reflexivity. Qed.

Lemma for_each_segment_nil d dr cur s : for_each_segment d dr cur [] s = Done [] s.
Proof. destruct d; reflexivity. Qed.

Lemma seg_index_nonneg d cur bvec : 0 <= seg_index d cur bvec.
Proof. destruct d; [apply seg_pgoff_nonneg | apply seg_pg_idx_nonneg]. Qed.

(** The handlers have no failure path: a completed transfer reports
    [BLK_STS_OK]. *)
Lemma submit_status d dr sector segs s r s' :
  submit d dr sector segs s = Done r s' -> fst r = BLK_STS_OK.
Proof.
  rewrite submit_unfold. intros H.
  apply bind_Done in H as (bufs & s1 & _ & H).
  injection H as <- _. reflexivity.
Qed.

Lemma length_zero_bytes n : length (zero_bytes n) = Z.to_nat n.
Proof. apply length_replicate. Qed.

Lemma slice_blit dst off src :
  0 <= off -> off <= Z.of_nat (length dst) ->
  slice (blit dst off src) off (Z.of_nat (length src)) = src.
Proof.
  intros H0 Hle. unfold slice, blit.
  rewrite drop_app_length'. 2:{ rewrite length_take. lia. }
  rewrite Nat2Z.id. apply take_app_length.
Qed.

Lemma memzero_page_wf bv s :
  wf_bvec bv -> memzero_page bv s = Done (zero_filled bv) s.
Proof.
  intros (Hlen & Hoff & Hl & Hsum).
  unfold memzero_page, bvec_store, in_bounds.
  rewrite length_zero_bytes, Z2Nat.id by lia.
  destruct (Z.leb_spec 0 (bv_offset bv)); [|lia].
  destruct (Z.leb_spec 0 (bv_len bv)); [|lia].
  destruct (Z.leb_spec (bv_offset bv + bv_len bv) (Z.of_nat (length (bv_page bv))));
    [reflexivity | lia].
Qed.

Lemma payload_zero_filled bv :
  wf_bvec bv -> payload (zero_filled bv) = zero_bytes (bv_len bv).
Proof.
  intros (Hlen & Hoff & Hl & Hsum). unfold payload, zero_filled. cbn.
  rewrite <- (Z2Nat.id (bv_len bv)) at 2 by lia.
  rewrite <- (length_zero_bytes (bv_len bv)).
  apply slice_blit; lia.
Qed.

(** A segment whose page index is at or beyond [ramjam_pages] is skipped:
    a write is dropped, a read is zero-filled, the machine is untouched. *)
Lemma segment_out_of_range d dr cur bvec s :
  wf_bvec bvec ->
  ramjam_pages s <= seg_index d cur bvec ->
  segment d dr cur bvec s =
  Done (match dr with READ => zero_filled bvec | WRITE => bvec end) s.
Proof.
  intros Hwf Hge. destruct d; cbn in *.
  - unfold Modern.rq_segment, Modern.ramjam_get_page, bind, read_ramjam_pages.
    destruct (Z.geb_spec (Modern.seg_pgoff cur bvec) (ramjam_pages s)); [|lia].
    destruct dr; [apply memzero_page_wf, Hwf | reflexivity].
  - unfold Bio.bio_segment, bind, read_ramjam_pages.
    destruct (Z.ltb_spec (Bio.seg_pg_idx cur) (ramjam_pages s)); [lia|].
    cbn. rewrite andb_false_r. cbn.
    destruct dr; [apply memzero_page_wf, Hwf | reflexivity].
Qed.

Lemma for_each_segment_out_of_range d dr segs s :
  forall cur,
    Forall wf_bvec segs ->
    Forall (fun i => ramjam_pages s <= i) (seg_indices d cur segs) ->
    for_each_segment d dr cur segs s =
    Done (match dr with READ => map zero_filled segs | WRITE => segs end) s.
Proof.
  induction segs as [|bvec rest IH]; intros cur Hwf Hidx.
  - destruct d, dr; reflexivity.
  - rewrite for_each_segment_cons. cbn in Hidx.
    apply Forall_cons in Hwf as [Hwf1 Hwf]. apply Forall_cons in Hidx as [Hi1 Hidx].
    unfold bind. rewrite (segment_out_of_range d dr cur bvec s Hwf1 Hi1).
    rewrite (IH _ Hwf Hidx). destruct dr; reflexivity.
Qed.

(** A read segment whose entry is unallocated is zero-filled. *)
Lemma segment_read_unallocated d cur bvec s :
  wf_bvec bvec ->
  pages s !! Z.to_nat (seg_index d cur bvec) = Some None ->
  segment d READ cur bvec s = Done (zero_filled bvec) s.
Proof.
  intros Hwf Hslot. pose proof (seg_index_nonneg d cur bvec) as Hnn.
  destruct d; cbn in *.
  - unfold Modern.rq_segment, Modern.ramjam_get_page, bind,
      read_ramjam_pages, pages_load. cbn.
    destruct (Z.geb_spec (Modern.seg_pgoff cur bvec) (ramjam_pages s));
      [apply memzero_page_wf, Hwf|].
    destruct (Z.ltb_spec (Modern.seg_pgoff cur bvec) 0); [lia|].
    rewrite Hslot. cbn. rewrite Hslot. apply memzero_page_wf, Hwf.
  - unfold Bio.bio_segment, bind, read_ramjam_pages, pages_load. cbn.
    destruct (Z.ltb_spec (Bio.seg_pg_idx cur) (ramjam_pages s));
      [|apply memzero_page_wf, Hwf].
    destruct (Z.ltb_spec (Bio.seg_pg_idx cur) 0); [lia|].
    rewrite Hslot. cbn. apply memzero_page_wf, Hwf.
Qed.

(** A write segment whose entry is unallocated and whose allocation fails
    is skipped: only the allocator has moved on. *)
Lemma segment_write_alloc_fails d cur bvec s plan :
  seg_index d cur bvec < ramjam_pages s ->
  pages s !! Z.to_nat (seg_index d cur bvec) = Some None ->
  alloc_plan s = false :: plan ->
  segment d WRITE cur bvec s = Done bvec (set_alloc_plan plan s).
Proof.
  intros Hlt Hslot Hplan. pose proof (seg_index_nonneg d cur bvec) as Hnn.
  destruct d; cbn in *.
  - unfold Modern.rq_segment, Modern.ramjam_get_page, bind,
      read_ramjam_pages, pages_load, pages_store, alloc_page. cbn.
    destruct (Z.geb_spec (Modern.seg_pgoff cur bvec) (ramjam_pages s)); [lia|].
    destruct (Z.ltb_spec (Modern.seg_pgoff cur bvec) 0); [lia|].
    rewrite Hslot. cbn. rewrite Hplan. cbn. rewrite Hslot.
    unfold set_pages. cbn. rewrite (list_insert_id _ _ _ Hslot).
    rewrite Hslot. reflexivity.
  - unfold Bio.bio_segment, bind, read_ramjam_pages, pages_load,
      pages_store, alloc_page. cbn.
    destruct (Z.ltb_spec (Bio.seg_pg_idx cur) (ramjam_pages s)); [|lia].
    destruct (Z.ltb_spec (Bio.seg_pg_idx cur) 0); [lia|].
    rewrite Hslot. cbn. rewrite Hplan. cbn. rewrite Hslot.
    unfold set_pages. cbn. rewrite (list_insert_id _ _ _ Hslot).
    reflexivity.
Qed.

Lemma wf_full_seg b : wf_bvec (full_seg b).
Proof. unfold wf_bvec, full_seg. cbn. vm_compute. repeat split; discriminate. Qed.

(** ** Whole-page transfers at page-aligned positions

    This is the traffic the queue limits of [ramjam_init] aim at
    ([logical_block_size = PAGE_SIZE]) and the page cache produces: every
    segment is a whole buffer page.  On it both handlers implement a
    store of pages. *)

Lemma page_size_val : PAGE_SIZE = 4096.
Proof. reflexivity. Qed.

Lemma slice_full l n :
  Z.of_nat (length l) = n -> slice l 0 n = l.
Proof.
  intros <-. unfold slice. rewrite Nat2Z.id. change (Z.to_nat 0) with 0%nat.
  rewrite drop_0. apply firstn_all.
Qed.

Lemma blit_full dst src :
  length dst = length src -> blit dst 0 src = src.
Proof.
  intros Hlen. unfold blit. change (Z.to_nat 0) with 0%nat.
  rewrite take_0, Nat.add_0_l, <- Hlen, drop_all. apply app_nil_r.
Qed.

Lemma in_bounds_full l n :
  Z.of_nat (length l) = n -> in_bounds l 0 n = true.
Proof.
  intros <-. unfold in_bounds.
  destruct (Z.leb_spec 0 (Z.of_nat (length l))); [|lia].
  destruct (Z.leb_spec (0 + Z.of_nat (length l)) (Z.of_nat (length l))); [|lia].
  reflexivity.
Qed.

Lemma alloc_page_succeeds s :
  alloc_succeeds s ->
  alloc_page s =
  Done (Some (length (physmem s)))
       (mkmachine (ramjam_pages s) (pages s)
                  (physmem s ++ [fresh_page]) (tail (alloc_plan s))).
Proof.
  unfold alloc_succeeds, alloc_page. intros H.
  destruct (alloc_plan s) as [|[] plan]; [reflexivity | reflexivity |].
  apply Forall_cons in H as [H _]. discriminate H.
Qed.

(** *** Cursor arithmetic *)

Lemma modern_cursor_small p :
  0 <= p < 2 ^ 20 -> page_cursor modern p = PAGE_SIZE * p.
Proof.
  intros Hp. unfold page_cursor, u32. rewrite page_size_val.
  apply Z.mod_small. lia.
Qed.

Lemma page_cursor_index d p data :
  0 <= p < max_pages d ->
  seg_index d (page_cursor d p) (page_seg data) = p.
Proof.
  intros Hp. destruct d; cbn [seg_index max_pages] in *.
  - unfold Modern.seg_pgoff. cbn [bv_offset page_seg].
    rewrite Z.add_0_r, modern_cursor_small by exact Hp.
    unfold u32, PAGE_SHIFT. rewrite page_size_val.
    rewrite Z.mod_small by lia.
    rewrite Z.shiftr_div_pow2 by lia.
    change (2 ^ 12) with 4096. rewrite Z.mul_comm. apply Z.div_mul. lia.
  - unfold Bio.seg_pg_idx, page_cursor, u32, u64, SECTOR_SHIFT, PAGE_SHIFT.
    rewrite (Z.mod_small (8 * p)) by lia.
    rewrite Z.shiftl_mul_pow2 by lia.
    rewrite (Z.mod_small (8 * p * 2 ^ 9)) by lia.
    rewrite Z.shiftr_div_pow2 by lia.
    replace (8 * p * 2 ^ 9) with (p * 2 ^ 12) by lia.
    rewrite Z.div_mul by lia. apply Z.mod_small. lia.
Qed.

Lemma page_cursor_next d p bvec :
  0 <= p -> bv_len bvec = PAGE_SIZE ->
  next_cursor d (page_cursor d p) bvec = page_cursor d (p + 1).
Proof.
  intros Hp Hlen. destruct d; cbn [next_cursor page_cursor]; rewrite Hlen.
  - unfold u32. rewrite Zplus_mod_idemp_l. f_equal. lia.
  - unfold u64, SECTOR_SHIFT. rewrite page_size_val.
    change (Z.shiftr 4096 9) with 8.
    rewrite Zplus_mod_idemp_l. f_equal. lia.
Qed.

Lemma page_cursor_start d p :
  0 <= p < max_pages d -> start_cursor d (8 * p) = page_cursor d p.
Proof.
  intros Hp. destruct d; cbn [start_cursor page_cursor max_pages] in *.
  - unfold u32, u64, SECTOR_SHIFT. rewrite page_size_val.
    rewrite Z.shiftl_mul_pow2 by lia.
    rewrite (Z.mod_small (8 * p * 2 ^ 9)) by lia. f_equal. lia.
  - unfold u64. symmetry. apply Z.mod_small. lia.
Qed.

Lemma modern_cursor_intra p :
  0 <= p < 2 ^ 20 -> page_cursor modern p mod PAGE_SIZE = 0.
Proof.
  intros Hp. rewrite modern_cursor_small by exact Hp.
  rewrite Z.mul_comm. apply Z.mod_mul. rewrite page_size_val. lia.
Qed.

(** *** The abstract page store *)

Ltac simpl_machine :=
  cbn [pages physmem ramjam_pages alloc_plan page_bytes page_count
       set_pages set_physmem set_alloc_plan fmap option_fmap option_map] in *.


Lemma length_fresh_page : Z.of_nat (length (page_bytes fresh_page)) = PAGE_SIZE.
Proof.
  cbn [fresh_page page_bytes]. rewrite length_zero_bytes.
  apply Z2Nat.id. rewrite page_size_val. lia.
Qed.

Lemma ensure_frame_wf s p : wf_store s -> wf_store (ensure_frame p s).
Proof.
  intros (Hok & Hfr & Hinj). unfold ensure_frame.
  destruct (pages s !! p) as [[pfn|]|] eqn:Hp;
    try (split; [assumption | split; assumption]).
  assert (Hlt : (p < length (pages s))%nat) by eauto using lookup_lt_Some.
  split; [|split]; simpl_machine.
  - destruct Hok as [H0 Hlen]. split; simpl_machine; [assumption|].
    rewrite length_insert. assumption.
  - intros i pfn Hi. destruct (decide (p = i)) as [<-|Hne].
    + rewrite list_lookup_insert_eq in Hi by exact Hlt. injection Hi as <-.
      exists fresh_page. split; [|apply length_fresh_page].
      apply list_lookup_middle. reflexivity.
    + rewrite list_lookup_insert_ne in Hi by exact Hne.
      destruct (Hfr i pfn Hi) as (pg & Hpg & Hlen).
      exists pg. split; [apply lookup_app_l_Some, Hpg | exact Hlen].
  - intros i j pfn Hi Hj.
    destruct (decide (p = i)) as [<-|Hni], (decide (p = j)) as [<-|Hnj];
      try reflexivity.
    + rewrite list_lookup_insert_eq in Hi by exact Hlt. injection Hi as <-.
      rewrite list_lookup_insert_ne in Hj by exact Hnj.
      destruct (Hfr j _ Hj) as (pg & Hpg & _). apply lookup_lt_Some in Hpg. lia.
    + rewrite list_lookup_insert_eq in Hj by exact Hlt. injection Hj as <-.
      rewrite list_lookup_insert_ne in Hi by exact Hni.
      destruct (Hfr i _ Hi) as (pg & Hpg & _). apply lookup_lt_Some in Hpg. lia.
    + rewrite list_lookup_insert_ne in Hi by exact Hni.
      rewrite list_lookup_insert_ne in Hj by exact Hnj.
      apply (Hinj i j pfn Hi Hj).
Qed.

Lemma ensure_frame_slot s p :
  wf_store s -> alloc_succeeds s -> (p < length (pages s))%nat ->
  exists pfn pg,
    pages (ensure_frame p s) !! p = Some (Some pfn) /\
    physmem (ensure_frame p s) !! pfn = Some pg /\
    Z.of_nat (length (page_bytes pg)) = PAGE_SIZE.
Proof.
  intros Hwf Hplan Hlt.
  pose proof (ensure_frame_wf s p Hwf) as (_ & Hfr & _).
  assert (exists pfn, pages (ensure_frame p s) !! p = Some (Some pfn)) as [pfn Hpfn].
  { unfold ensure_frame.
    destruct (lookup_lt_is_Some_2 _ _ Hlt) as [[pfn|] Hp]; rewrite Hp.
    - exists pfn. exact Hp.
    - exists (length (physmem s)). simpl_machine. apply list_lookup_insert_eq, Hlt. }
  destruct (Hfr p pfn Hpfn) as (pg & Hpg & Hlen). eauto.
Qed.

Lemma ensure_frame_plan s p : alloc_succeeds s -> alloc_succeeds (ensure_frame p s).
Proof.
  unfold alloc_succeeds, ensure_frame. intros H.
  destruct (pages s !! p) as [[pfn|]|]; try exact H. simpl_machine.
  destruct (alloc_plan s) as [|b plan]; [exact H|].
  apply Forall_cons in H as [_ H]. exact H.
Qed.

Lemma ensure_frame_capacity s p : ramjam_pages (ensure_frame p s) = ramjam_pages s.
Proof. unfold ensure_frame. destruct (pages s !! p) as [[pfn|]|]; reflexivity. Qed.

Lemma content_ensure_frame_other s p q :
  wf_store s -> q <> p -> content (ensure_frame p s) q = content s q.
Proof.
  intros (_ & Hfr & _) Hne. unfold ensure_frame.
  destruct (pages s !! p) as [[pfn|]|] eqn:Hp; try reflexivity.
  unfold content. simpl_machine. rewrite list_lookup_insert_ne by auto.
  destruct (pages s !! q) as [[pfn|]|] eqn:Hq; try reflexivity.
  destruct (Hfr q pfn Hq) as (pg & Hpg & _).
  rewrite Hpg, (lookup_app_l_Some _ _ _ _ Hpg). reflexivity.
Qed.

Lemma put_bytes_wf s pfn data :
  wf_store s -> Z.of_nat (length data) = PAGE_SIZE -> wf_store (put_bytes pfn data s).
Proof.
  intros (Hok & Hfr & Hinj) Hdata. unfold put_bytes.
  destruct (physmem s !! pfn) as [pg|] eqn:Hpg;
    [|split; [assumption | split; assumption]].
  split; [exact Hok|]. split; [|exact Hinj]. simpl_machine.
  intros i f Hi. destruct (Hfr i f Hi) as (pg' & Hpg' & Hlen').
  destruct (decide (pfn = f)) as [<-|Hne].
  - eexists. split.
    + apply list_lookup_insert_eq. eauto using lookup_lt_Some.
    + simpl_machine. rewrite blit_full; [exact Hdata|].
      assert (pg' = pg) as -> by congruence. lia.
  - exists pg'. split; [|exact Hlen'].
    rewrite list_lookup_insert_ne by exact Hne. exact Hpg'.
Qed.

Lemma content_put_bytes s pfn data q :
  wf_store s -> Z.of_nat (length data) = PAGE_SIZE ->
  content (put_bytes pfn data s) q =
  if decide (pages s !! q = Some (Some pfn)) then Some data else content s q.
Proof.
  intros (_ & Hfr & _) Hdata. unfold put_bytes, content.
  destruct (physmem s !! pfn) as [pg|] eqn:Hpg.
  - simpl_machine. destruct (pages s !! q) as [[f|]|] eqn:Hq.
    + destruct (decide (Some (Some f) = Some (Some pfn))) as [E|Hne].
      * injection E as ->.
        rewrite list_lookup_insert_eq by eauto using lookup_lt_Some. simpl_machine.
        destruct (Hfr q pfn Hq) as (pg' & Hpg' & Hlen').
        assert (pg' = pg) as -> by congruence.
        rewrite blit_full; [reflexivity | lia].
      * rewrite list_lookup_insert_ne; [reflexivity | congruence].
    + destruct (decide _) as [E|_]; [discriminate E | reflexivity].
    + destruct (decide _) as [E|_]; [discriminate E | reflexivity].
  - destruct (decide _) as [E|_]; [|reflexivity].
    rewrite E. destruct (Hfr q pfn E) as (pg & Hpg' & _). congruence.
Qed.

Lemma store_page_wf s p data :
  wf_store s -> Z.of_nat (length data) = PAGE_SIZE -> wf_store (store_page p data s).
Proof.
  intros Hwf Hdata. unfold store_page.
  pose proof (ensure_frame_wf s p Hwf) as Hwf1.
  destruct (pages (ensure_frame p s) !! p) as [[pfn|]|]; try exact Hwf1.
  apply put_bytes_wf; assumption.
Qed.

Lemma put_bytes_plan s pfn data : alloc_plan (put_bytes pfn data s) = alloc_plan s.
Proof. unfold put_bytes. destruct (physmem s !! pfn); reflexivity. Qed.

Lemma put_bytes_table s pfn data :
  ramjam_pages (put_bytes pfn data s) = ramjam_pages s /\
  pages (put_bytes pfn data s) = pages s.
Proof. unfold put_bytes. destruct (physmem s !! pfn); split; reflexivity. Qed.

Lemma store_page_plan s p data : alloc_succeeds s -> alloc_succeeds (store_page p data s).
Proof.
  intros H. apply (ensure_frame_plan s p) in H. unfold store_page.
  destruct (pages (ensure_frame p s) !! p) as [[pfn|]|]; try exact H.
  unfold alloc_succeeds. rewrite put_bytes_plan. exact H.
Qed.

Lemma store_page_capacity s p data :
  ramjam_pages (store_page p data s) = ramjam_pages s.
Proof.
  unfold store_page.
  destruct (pages (ensure_frame p s) !! p) as [[pfn|]|];
    rewrite ?(proj1 (put_bytes_table _ _ _)); apply ensure_frame_capacity.
Qed.

Lemma content_store_page_same s p data :
  wf_store s -> alloc_succeeds s -> (p < length (pages s))%nat ->
  Z.of_nat (length data) = PAGE_SIZE ->
  content (store_page p data s) p = Some data.
Proof.
  intros Hwf Hplan Hlt Hdata. unfold store_page.
  destruct (ensure_frame_slot s p Hwf Hplan Hlt) as (pfn & pg & Hslot & _).
  rewrite Hslot, content_put_bytes by auto using ensure_frame_wf.
  rewrite decide_True; auto.
Qed.

Lemma content_store_page_other s p q data :
  wf_store s -> Z.of_nat (length data) = PAGE_SIZE -> q <> p ->
  content (store_page p data s) q = content s q.
Proof.
  intros Hwf Hdata Hne. unfold store_page.
  pose proof (ensure_frame_wf s p Hwf) as Hwf1.
  destruct (pages (ensure_frame p s) !! p) as [[pfn|]|] eqn:Hslot;
    try (apply content_ensure_frame_other; assumption).
  rewrite content_put_bytes by assumption.
  rewrite decide_False; [apply content_ensure_frame_other; assumption|].
  intros Hq. destruct Hwf1 as (_ & _ & Hinj). apply Hne, (Hinj q p pfn Hq Hslot).
Qed.

(** *** The handlers implement the page store *)

Lemma page_write_put s pfn pg data :
  physmem s !! pfn = Some pg ->
  Z.of_nat (length (page_bytes pg)) = PAGE_SIZE ->
  Z.of_nat (length data) = PAGE_SIZE ->
  page_write pfn 0 data s = Done tt (put_bytes pfn data s).
Proof.
  intros Hpg Hlen Hdata. unfold page_write, put_bytes. rewrite Hpg.
  rewrite in_bounds_full by lia. reflexivity.
Qed.

Lemma bvec_load_page_seg data s :
  Z.of_nat (length data) = PAGE_SIZE ->
  bvec_load (page_seg data) s = Done data s.
Proof.
  intros Hdata. unfold bvec_load, payload. cbn [page_seg bv_page bv_offset bv_len].
  rewrite in_bounds_full, slice_full by exact Hdata. reflexivity.
Qed.

Lemma table_slot s p :
  table_ok s -> Z.of_nat p < ramjam_pages s -> is_Some (pages s !! p).
Proof.
  intros [H0 Hlen] Hlt. apply lookup_lt_is_Some. lia.
Qed.

Lemma get_page_ensure s p pfn :
  wf_store s -> alloc_succeeds s -> Z.of_nat p < ramjam_pages s ->
  pages (ensure_frame p s) !! p = Some (Some pfn) ->
  Modern.ramjam_get_page (Z.of_nat p) true s = Done (Some pfn) (ensure_frame p s).
Proof.
  intros Hwf Hplan Hlt Hslot.
  destruct (table_slot s p (proj1 Hwf) Hlt) as [slot Hp].
  unfold Modern.ramjam_get_page, bind, read_ramjam_pages, pages_load.
  destruct (Z.geb_spec (Z.of_nat p) (ramjam_pages s)); [lia|].
  destruct (Z.ltb_spec (Z.of_nat p) 0); [lia|].
  rewrite Nat2Z.id, Hp. unfold ensure_frame in *. rewrite Hp in *.
  destruct slot as [f|]; cbn [is_null andb ret].
  - rewrite Hp. congruence.
  - rewrite (alloc_page_succeeds s Hplan). unfold pages_store.
    destruct (Z.ltb_spec (Z.of_nat p) 0); [lia|].
    rewrite Nat2Z.id. simpl_machine. rewrite Hp.
    unfold set_pages. simpl_machine. rewrite Hslot. reflexivity.
Qed.

(** An aligned one-page write segment stores the page. *)
Lemma segment_write_page d p data s :
  wf_store s -> alloc_succeeds s ->
  Z.of_nat p < ramjam_pages s -> Z.of_nat p < max_pages d ->
  Z.of_nat (length data) = PAGE_SIZE ->
  segment d WRITE (page_cursor d (Z.of_nat p)) (page_seg data) s
  = Done (page_seg data) (store_page p data s).
Proof.
  intros Hwf Hplan Hlt Hcap Hdata.
  assert (Hp20 : 0 <= Z.of_nat p < max_pages d) by lia.
  pose proof (page_cursor_index d (Z.of_nat p) data Hp20) as Hidx.
  assert (Hlen : (p < length (pages s))%nat).
  { apply lookup_lt_is_Some, table_slot; [apply Hwf | exact Hlt]. }
  destruct (ensure_frame_slot s p Hwf Hplan Hlen) as (pfn & pg & Hslot & Hpg & Hpglen).
  unfold store_page. rewrite Hslot.
  destruct d; cbn [segment seg_index max_pages] in *.
  - unfold Modern.rq_segment. rewrite Hidx. cbn [is_write]. unfold bind.
    rewrite (get_page_ensure s p pfn Hwf Hplan Hlt Hslot).
    rewrite bvec_load_page_seg by exact Hdata.
    rewrite (modern_cursor_intra _ Hp20).
    rewrite (page_write_put _ pfn pg data Hpg Hpglen Hdata). reflexivity.
  - destruct (table_slot s p (proj1 Hwf) Hlt) as [slot Hp].
    unfold Bio.bio_segment. rewrite Hidx. cbn [is_write bv_offset page_seg].
    rewrite Z.mod_0_l by (rewrite page_size_val; lia).
    unfold bind, read_ramjam_pages, pages_load.
    destruct (Z.ltb_spec (Z.of_nat p) (ramjam_pages s)); [|lia].
    destruct (Z.ltb_spec (Z.of_nat p) 0); [lia|].
    rewrite Nat2Z.id, Hp. unfold ensure_frame in *. rewrite Hp in *.
    destruct slot as [f|]; cbn [is_null andb ret].
    + assert (f = pfn) as -> by congruence.
      rewrite bvec_load_page_seg by exact Hdata.
      rewrite (page_write_put _ pfn pg data Hpg Hpglen Hdata). reflexivity.
    + rewrite (alloc_page_succeeds s Hplan). unfold pages_store.
      destruct (Z.ltb_spec (Z.of_nat p) 0); [lia|].
      rewrite Nat2Z.id. cbn [pages]. rewrite Hp.
      unfold set_pages. cbn [pages physmem ramjam_pages alloc_plan].
      cbn [pages] in Hslot.
      rewrite list_lookup_insert_eq in Hslot by exact Hlen. injection Hslot as <-.
      unfold ret. cbv beta iota.
      rewrite bvec_load_page_seg by exact Hdata.
      rewrite (page_write_put _ _ pg data Hpg Hpglen Hdata). reflexivity.
Qed.

(** An aligned one-page read segment returns the page. *)
Lemma segment_read_page d p data bvec s :
  wf_store s ->
  Z.of_nat p < ramjam_pages s -> Z.of_nat p < max_pages d ->
  whole_page bvec ->
  content s p = Some data ->
  segment d READ (page_cursor d (Z.of_nat p)) bvec s = Done (page_seg data) s.
Proof.
  intros Hwf Hlt Hcap (Hbuf & Hoff & Hblen) Hcontent.
  assert (Hp20 : 0 <= Z.of_nat p < max_pages d) by lia.
  pose proof (page_cursor_index d (Z.of_nat p) (bv_page bvec) Hp20) as Hidx.
  unfold content in Hcontent.
  destruct (pages s !! p) as [[pfn|]|] eqn:Hp; try discriminate Hcontent.
  destruct (proj1 (proj2 Hwf) p pfn Hp) as (pg & Hpg & Hpglen).
  rewrite Hpg in Hcontent. injection Hcontent as <-.
  assert (Hcopy :
    (let* data := page_read pfn 0 (bv_len bvec) in bvec_store bvec data) s
    = Done (page_seg (page_bytes pg)) s).
  { unfold bind, page_read. rewrite Hpg, Hblen.
    rewrite in_bounds_full, slice_full by exact Hpglen.
    unfold bvec_store. rewrite Hoff, in_bounds_full by lia.
    rewrite blit_full by lia. rewrite Hblen. reflexivity. }
  destruct d; cbn [segment seg_index max_pages] in *.
  - unfold Modern.rq_segment, Modern.seg_pgoff in *.
    cbn [bv_offset page_seg] in Hidx. rewrite Hoff, Hidx. cbn [is_write].
    rewrite (modern_cursor_intra _ Hp20).
    unfold bind at 1. unfold Modern.ramjam_get_page, bind, read_ramjam_pages, pages_load.
    destruct (Z.geb_spec (Z.of_nat p) (ramjam_pages s)); [lia|].
    destruct (Z.ltb_spec (Z.of_nat p) 0); [lia|].
    rewrite Nat2Z.id, Hp. cbn [is_null andb ret]. rewrite Hp. exact Hcopy.
  - unfold Bio.bio_segment. rewrite Hidx, Hoff. cbn [is_write].
    rewrite Z.mod_0_l by (rewrite page_size_val; lia).
    unfold bind at 1 2 3. unfold read_ramjam_pages, pages_load.
    destruct (Z.ltb_spec (Z.of_nat p) (ramjam_pages s)); [|lia].
    destruct (Z.ltb_spec (Z.of_nat p) 0); [lia|].
    rewrite Nat2Z.id, Hp. cbn [is_null andb ret]. exact Hcopy.
Qed.

(** *** Whole requests *)

Lemma store_pages_inv datas :
  forall p s,
    wf_store s -> alloc_succeeds s ->
    Forall (fun data => Z.of_nat (length data) = PAGE_SIZE) datas ->
    wf_store (store_pages p datas s) /\
    alloc_succeeds (store_pages p datas s) /\
    ramjam_pages (store_pages p datas s) = ramjam_pages s.
Proof.
  induction datas as [|data rest IH]; intros p s Hwf Hplan Hdatas; cbn [store_pages].
  - auto.
  - apply Forall_cons in Hdatas as [Hdata Hrest].
    destruct (IH (S p) (store_page p data s)) as (H1 & H2 & H3);
      auto using store_page_wf, store_page_plan.
    rewrite store_page_capacity in H3. auto.
Qed.

Lemma content_store_pages_below datas :
  forall p q s,
    wf_store s -> alloc_succeeds s ->
    Forall (fun data => Z.of_nat (length data) = PAGE_SIZE) datas ->
    (q < p)%nat ->
    content (store_pages p datas s) q = content s q.
Proof.
  induction datas as [|data rest IH]; intros p q s Hwf Hplan Hdatas Hlt;
    cbn [store_pages]; [reflexivity|].
  apply Forall_cons in Hdatas as [Hdata Hrest].
  rewrite IH by (auto using store_page_wf, store_page_plan; lia).
  apply content_store_page_other; [assumption | assumption | lia].
Qed.

Lemma wf_store_length s : wf_store s -> length (pages s) = Z.to_nat (ramjam_pages s).
Proof. intros ((_ & H) & _). exact H. Qed.

Lemma content_store_pages datas :
  forall p s k data,
    wf_store s -> alloc_succeeds s ->
    Forall (fun data => Z.of_nat (length data) = PAGE_SIZE) datas ->
    Z.of_nat (p + length datas) <= ramjam_pages s ->
    datas !! k = Some data ->
    content (store_pages p datas s) (p + k) = Some data.
Proof.
  induction datas as [|d0 rest IH]; intros p s k data Hwf Hplan Hdatas Hfit Hk;
    [discriminate Hk|].
  apply Forall_cons in Hdatas as [Hd0 Hrest]. cbn [store_pages length] in *.
  destruct k as [|k]; cbn in Hk.
  - injection Hk as ->. rewrite Nat.add_0_r.
    rewrite content_store_pages_below
      by (auto using store_page_wf, store_page_plan; lia).
    apply content_store_page_same; auto.
    rewrite (wf_store_length s Hwf). lia.
  - replace (p + S k)%nat with (S p + k)%nat by lia.
    apply IH; auto using store_page_wf, store_page_plan.
    rewrite store_page_capacity. lia.
Qed.

Lemma write_loop d datas :
  forall p s,
    wf_store s -> alloc_succeeds s ->
    Forall (fun data => Z.of_nat (length data) = PAGE_SIZE) datas ->
    Z.of_nat (p + length datas) <= ramjam_pages s ->
    Z.of_nat (p + length datas) <= max_pages d ->
    for_each_segment d WRITE (page_cursor d (Z.of_nat p)) (map page_seg datas) s
    = Done (map page_seg datas) (store_pages p datas s).
Proof.
  induction datas as [|data rest IH]; intros p s Hwf Hplan Hdatas Hfit Hcap.
  - destruct d; reflexivity.
  - apply Forall_cons in Hdatas as [Hdata Hrest]. cbn [length] in Hfit, Hcap.
    cbn [map store_pages]. rewrite for_each_segment_cons. unfold bind.
    rewrite segment_write_page by (auto; lia).
    rewrite page_cursor_next by (auto; lia).
    replace (Z.of_nat p + 1) with (Z.of_nat (S p)) by lia.
    rewrite (IH (S p) (store_page p data s));
      [ reflexivity
      | apply store_page_wf; assumption
      | apply store_page_plan; assumption
      | exact Hrest
      | rewrite store_page_capacity; lia
      | lia ].
Qed.

Lemma read_loop d bufs :
  forall datas p s,
    wf_store s ->
    Forall whole_page bufs ->
    length bufs = length datas ->
    (forall k data, datas !! k = Some data -> content s (p + k) = Some data) ->
    Z.of_nat (p + length datas) <= ramjam_pages s ->
    Z.of_nat (p + length datas) <= max_pages d ->
    for_each_segment d READ (page_cursor d (Z.of_nat p)) bufs s
    = Done (map page_seg datas) s.
Proof.
  induction bufs as [|bvec rest IH]; intros datas p s Hwf Hbufs Hlen Hcontent Hfit Hcap;
    destruct datas as [|data datas]; try discriminate Hlen.
  - destruct d; reflexivity.
  - apply Forall_cons in Hbufs as [Hbvec Hrest]. cbn [length] in *.
    rewrite for_each_segment_cons. unfold bind.
    rewrite (segment_read_page d p data) by
      (auto; try lia; rewrite <- (Nat.add_0_r p); apply Hcontent; reflexivity).
    rewrite page_cursor_next by (try apply Hbvec; lia).
    replace (Z.of_nat p + 1) with (Z.of_nat (S p)) by lia.
    rewrite (IH datas (S p) s); [reflexivity | exact Hwf | exact Hrest | lia | | lia | lia].
    intros k data' Hk. replace (S p + k)%nat with (p + S k)%nat by lia.
    apply Hcontent. exact Hk.
Qed.

Lemma payloads_page_segs datas :
  Forall (fun data => Z.of_nat (length data) = PAGE_SIZE) datas ->
  payloads (map page_seg datas) = concat datas.
Proof.
  unfold payloads. induction 1 as [|data rest Hdata Hrest IH]; [reflexivity|].
  cbn [map concat]. rewrite IH. f_equal.
  unfold payload. cbn [page_seg bv_page bv_offset bv_len]. apply slice_full, Hdata.
Qed.


(** *** The mapping endpoint on the same store *)

Lemma ramjam_init_wf n plan : 0 <= n -> wf_store (ramjam_init n plan).
Proof.
  intros Hn. unfold wf_store, table_ok, ramjam_init. simpl_machine.
  split; [split; [exact Hn | apply length_replicate]|].
  split.
  - intros i pfn Hi. apply lookup_replicate in Hi as [Hi _]. discriminate Hi.
  - intros i j pfn Hi. apply lookup_replicate in Hi as [Hi _]. discriminate Hi.
Qed.

(** Replacing a frame by one of the same size keeps the store in order. *)
Lemma update_frame_wf s pfn pg' :
  wf_store s -> Z.of_nat (length (page_bytes pg')) = PAGE_SIZE ->
  wf_store (set_physmem (<[pfn := pg']> (physmem s)) s).
Proof.
  intros (Hok & Hfr & Hinj) Hlen.
  split; [exact Hok|]. split; [|exact Hinj]. simpl_machine.
  intros i f Hi. destruct (Hfr i f Hi) as (pg & Hpg & Hpglen).
  destruct (decide (pfn = f)) as [<-|Hne].
  - exists pg'. split; [|exact Hlen].
    apply list_lookup_insert_eq. eauto using lookup_lt_Some.
  - exists pg. split; [|exact Hpglen].
    rewrite list_lookup_insert_ne by exact Hne. exact Hpg.
Qed.

Lemma content_update_frame s pfn pg' q :
  wf_store s ->
  content (set_physmem (<[pfn := pg']> (physmem s)) s) q =
  if decide (pages s !! q = Some (Some pfn)) then Some (page_bytes pg')
  else content s q.
Proof.
  intros (_ & Hfr & _). unfold content. simpl_machine.
  destruct (pages s !! q) as [[f|]|] eqn:Hq.
  - destruct (decide (Some (Some f) = Some (Some pfn))) as [E|Hne].
    + injection E as ->. destruct (Hfr q pfn Hq) as (pg & Hpg & _).
      rewrite list_lookup_insert_eq by eauto using lookup_lt_Some. reflexivity.
    + rewrite list_lookup_insert_ne; [reflexivity | congruence].
  - destruct (decide _) as [E|_]; [discriminate E | reflexivity].
  - destruct (decide _) as [E|_]; [discriminate E | reflexivity].
Qed.

(** A fault on an allocated page hands out the frame the table holds, with
    one more reference, and changes no byte of the store. *)
Lemma fault_allocated d p pfn pg s :
  wf_store s -> Z.of_nat p < ramjam_pages s -> Z.of_nat p < max_pages d ->
  pages s !! p = Some (Some pfn) -> physmem s !! pfn = Some pg ->
  let s' := set_physmem
              (<[pfn := mkpage (page_bytes pg) (S (page_count pg))]> (physmem s)) s in
  fault d (Z.of_nat p) s = Done (VM_FAULT_NONE, Some pfn) s' /\
  wf_store s' /\
  pages s' = pages s /\
  (forall q, content s' q = content s q) /\
  page_bytes <$> physmem s' !! pfn = Some (page_bytes pg).
Proof.
  intros Hwf Hlt Hcap Hp Hpg s'.
  assert (Hs' : get_page pfn s = Done tt s').
  { unfold get_page. rewrite Hpg. reflexivity. }
  split; [|split; [|split; [|split]]].
  - destruct d; cbn [fault max_pages] in *.
    + unfold Modern.ramjam_vma_fault, Modern.ramjam_get_page, bind,
        read_ramjam_pages, pages_load.
      destruct (Z.geb_spec (Z.of_nat p) (ramjam_pages s)); [lia|].
      destruct (Z.ltb_spec (Z.of_nat p) 0); [lia|].
      rewrite Nat2Z.id, Hp. cbn [is_null andb ret]. rewrite Hp, Hs'. reflexivity.
    + unfold Bio.ramjam_vm_fault, bind, read_ramjam_pages, pages_load.
      assert (Hu : u32 (Z.of_nat p) = Z.of_nat p).
      { unfold u32. apply Z.mod_small. lia. }
      rewrite Hu.
      destruct (Z.geb_spec (Z.of_nat p) (ramjam_pages s)); [lia|].
      destruct (Z.ltb_spec (Z.of_nat p) 0); [lia|].
      rewrite Nat2Z.id, Hp, Hs'. reflexivity.
  - apply update_frame_wf; [exact Hwf|].
    destruct (proj1 (proj2 Hwf) p pfn Hp) as (pg0 & Hpg0 & Hlen).
    assert (pg0 = pg) as -> by congruence. exact Hlen.
  - reflexivity.
  - intros q. unfold s'. rewrite content_update_frame by exact Hwf.
    destruct (decide _) as [E|_]; [|reflexivity].
    unfold content. rewrite E, Hpg. reflexivity.
  - unfold s'. simpl_machine.
    rewrite list_lookup_insert_eq by eauto using lookup_lt_Some. reflexivity.
Qed.

(** A store through the mapping changes that byte of the page. *)
Lemma user_store_content p pfn data off b s :
  wf_store s ->
  pages s !! p = Some (Some pfn) -> content s p = Some data ->
  0 <= off < PAGE_SIZE ->
  exists s',
    user_store pfn off b s = Done tt s' /\
    wf_store s' /\
    ramjam_pages s' = ramjam_pages s /\
    content s' p = Some (blit data off [b]).
Proof.
  intros Hwf Hp Hcontent Hoff.
  destruct (proj1 (proj2 Hwf) p pfn Hp) as (pg & Hpg & Hlen).
  unfold content in Hcontent. rewrite Hp, Hpg in Hcontent. injection Hcontent as <-.
  unfold user_store, page_write. rewrite Hpg.
  assert (Hin : in_bounds (page_bytes pg) off (Z.of_nat (length [b])) = true).
  { unfold in_bounds. cbn [length].
    destruct (Z.leb_spec 0 off); [|lia].
    destruct (Z.leb_spec 0 (Z.of_nat 1)); [|lia].
    destruct (Z.leb_spec (off + Z.of_nat 1) (Z.of_nat (length (page_bytes pg))));
      [reflexivity | lia]. }
  rewrite Hin. eexists. split; [reflexivity|].
  split; [|split; [reflexivity|]].
  - apply update_frame_wf; [exact Hwf|]. cbn [page_bytes].
    unfold blit. rewrite !length_app, length_take, length_drop. cbn [length]. lia.
  - rewrite content_update_frame by exact Hwf.
    rewrite decide_True by exact Hp. reflexivity.
Qed.

(** Cross-endpoint consistency for whole-page block transfers.  After
    page [p] is written through the block endpoint, a fault on [p] hands
    out a frame holding the written bytes; a byte then stored through the
    mapping is in what a block read of the page returns. *)
Lemma aligned_cross_endpoint (d : driver) (p : nat) (data : list Byte.byte)
    (bvec : bio_vec) (off : Z) (b : Byte.byte) (s : machine) :
  wf_store s -> alloc_succeeds s ->
  Z.of_nat p < ramjam_pages s -> Z.of_nat p < max_pages d ->
  Z.of_nat (length data) = PAGE_SIZE -> whole_page bvec ->
  0 <= off < PAGE_SIZE ->
  exists s1 pfn s2 s3,
    submit d WRITE (8 * Z.of_nat p) [page_seg data] s
      = Done (BLK_STS_OK, [page_seg data]) s1 /\
    fault d (Z.of_nat p) s1 = Done (VM_FAULT_NONE, Some pfn) s2 /\
    page_bytes <$> physmem s2 !! pfn = Some data /\
    user_store pfn off b s2 = Done tt s3 /\
    submit d READ (8 * Z.of_nat p) [bvec] s3
      = Done (BLK_STS_OK, [page_seg (blit data off [b])]) s3.
Proof.
  intros Hwf Hplan Hlt Hcap Hdata Hbvec Hoff.
  assert (Hp20 : 0 <= Z.of_nat p < max_pages d) by lia.
  assert (Hlen : (p < length (pages s))%nat).
  { rewrite (wf_store_length s Hwf). lia. }
  pose proof (store_page_wf s p data Hwf Hdata) as Hwf1.
  pose proof (store_page_capacity s p data) as Hcap1.
  pose proof (content_store_page_same s p data Hwf Hplan Hlen Hdata) as Hc1.
  set (s1 := store_page p data s) in *.
  assert (exists pfn pg, pages s1 !! p = Some (Some pfn) /\
                         physmem s1 !! pfn = Some pg /\ page_bytes pg = data)
    as (pfn & pg & Hp1 & Hpg1 & Hbytes).
  { unfold content in Hc1.
    destruct (pages s1 !! p) as [[pfn|]|]; try discriminate Hc1.
    destruct (physmem s1 !! pfn) as [pg|] eqn:Hpg; [|discriminate Hc1].
    injection Hc1 as Hc1. eauto. }
  destruct (fault_allocated d p pfn pg s1) as (Hf & Hwf2 & Hpages2 & Hc2 & Hview);
    try assumption; try lia.
  set (s2 := set_physmem _ s1) in *.
  destruct (user_store_content p pfn data off b s2) as (s3 & Hst & Hwf3 & Hcap3 & Hc3);
    try assumption.
  { rewrite (Hc2 p). exact Hc1. }
  exists s1, pfn, s2, s3.
  split; [|split; [exact Hf|split; [|split; [exact Hst|]]]].
  - rewrite submit_unfold, page_cursor_start by exact Hp20. unfold bind.
    rewrite for_each_segment_cons. unfold bind.
    rewrite segment_write_page by assumption.
    destruct d; reflexivity.
  - rewrite Hview, Hbytes. reflexivity.
  - rewrite submit_unfold, page_cursor_start by exact Hp20. unfold bind.
    rewrite for_each_segment_cons. unfold bind.
    rewrite (segment_read_page d p (blit data off [b])); try assumption.
    + destruct d; reflexivity.
    + rewrite Hcap3. unfold s2. simpl_machine. lia.
Qed.

(** ** The store stays in good order

    Every operation of either variant, aligned or not, keeps [wf_store]:
    frames stay page-sized, entries point to frames, no frame is shared. *)

Lemma length_blit dst off src :
  in_bounds dst off (Z.of_nat (length src)) = true ->
  length (blit dst off src) = length dst.
Proof.
  unfold in_bounds, blit. intros H.
  apply andb_prop in H as [H H3]. apply andb_prop in H as [H1 H2].
  apply Z.leb_le in H1, H2, H3.
  rewrite !length_app, length_take, length_drop. lia.
Qed.

Lemma triple_wf_pure {A} (m : M A) :
  pure_m m -> triple any_undef wf_store m (fun _ s => wf_store s).
Proof.
  intros Hm. apply triple_frame_pure. intros s. specialize (Hm s).
  destruct (m s); [exact Hm | exact I].
Qed.

Lemma pure_bvec_load bv : pure_m (bvec_load bv).
Proof. intros s. apply (bvec_load_pure any_undef). exact I. Qed.

Lemma alloc_page_wf :
  triple any_undef wf_store alloc_page (fun v s => wf_store s /\ fresh_frame v s).
Proof.
  intros s (Hok & Hfr & Hinj). unfold alloc_page.
  assert (Hnew :
    let s' := mkmachine (ramjam_pages s) (pages s)
                        (physmem s ++ [fresh_page]) (tail (alloc_plan s)) in
    wf_store s' /\ fresh_frame (Some (length (physmem s))) s').
  { cbn zeta. split.
    - split; [exact Hok|]. split; [|exact Hinj]. simpl_machine.
      intros i pfn Hi. destruct (Hfr i pfn Hi) as (pg & Hpg & Hlen).
      exists pg. split; [apply lookup_app_l_Some, Hpg | exact Hlen].
    - intros f [= <-]. simpl_machine. split.
      + exists fresh_page. split; [|apply length_fresh_page].
        apply list_lookup_middle. reflexivity.
      + intros i Hi. destruct (Hfr i _ Hi) as (pg & Hpg & _).
        apply lookup_lt_Some in Hpg. lia. }
  destruct (alloc_plan s) as [|[] plan]; try exact Hnew.
  split; [split; [exact Hok | split; assumption]|].
  intros f Hf. discriminate Hf.
Qed.

Lemma pages_store_wf i v :
  triple any_undef (fun s => wf_store s /\ fresh_frame v s) (pages_store i v)
         (fun _ s => wf_store s).
Proof.
  intros s ((Hok & Hfr & Hinj) & Hfresh). unfold pages_store.
  destruct (i <? 0); [exact I|].
  destruct (pages s !! Z.to_nat i) as [old|] eqn:Hi; [|exact I].
  set (k := Z.to_nat i) in *.
  assert (Hk : (k < length (pages s))%nat) by eauto using lookup_lt_Some.
  split; [|split]; simpl_machine.
  - destruct Hok as [H0 Hlen]. split; simpl_machine; [exact H0|].
    rewrite length_insert. exact Hlen.
  - intros j pfn Hj. destruct (decide (k = j)) as [<-|Hne].
    + rewrite list_lookup_insert_eq in Hj by exact Hk. injection Hj as ->.
      apply (Hfresh pfn eq_refl).
    + rewrite list_lookup_insert_ne in Hj by exact Hne. apply (Hfr j pfn Hj).
  - intros j1 j2 pfn H1 H2.
    destruct (decide (k = j1)) as [<-|Hn1], (decide (k = j2)) as [<-|Hn2];
      try reflexivity.
    + rewrite list_lookup_insert_eq in H1 by exact Hk. injection H1 as ->.
      rewrite list_lookup_insert_ne in H2 by exact Hn2.
      destruct (proj2 (Hfresh pfn eq_refl) j2 H2).
    + rewrite list_lookup_insert_eq in H2 by exact Hk. injection H2 as ->.
      rewrite list_lookup_insert_ne in H1 by exact Hn1.
      destruct (proj2 (Hfresh pfn eq_refl) j1 H1).
    + rewrite list_lookup_insert_ne in H1 by exact Hn1.
      rewrite list_lookup_insert_ne in H2 by exact Hn2.
      apply (Hinj j1 j2 pfn H1 H2).
Qed.

Lemma page_write_wf pfn off src :
  triple any_undef wf_store (page_write pfn off src) (fun _ s => wf_store s).
Proof.
  intros s Hwf. unfold page_write.
  destruct (physmem s !! pfn) as [pg|] eqn:Hpg; [|exact I].
  destruct (in_bounds _ _ _) eqn:Hin; [|exact I].
  destruct (decide (Z.of_nat (length (page_bytes pg)) = PAGE_SIZE)) as [Hlen|Hlen].
  - apply update_frame_wf; [exact Hwf|]. cbn [page_bytes].
    rewrite length_blit by exact Hin. exact Hlen.
  - (* a frame that the table does not own *)
    destruct Hwf as (Hok & Hfr & Hinj).
    split; [exact Hok|]. split; [|exact Hinj]. simpl_machine.
    intros i f Hi. destruct (Hfr i f Hi) as (pg' & Hpg' & Hlen').
    exists pg'. split; [|exact Hlen'].
    rewrite list_lookup_insert_ne; [exact Hpg'|]. congruence.
Qed.

Lemma get_page_wf pfn :
  triple any_undef wf_store (get_page pfn) (fun _ s => wf_store s).
Proof.
  intros s Hwf. unfold get_page.
  destruct (physmem s !! pfn) as [pg|] eqn:Hpg; [|exact I].
  destruct (decide (Z.of_nat (length (page_bytes pg)) = PAGE_SIZE)) as [Hlen|Hlen].
  - apply update_frame_wf; [exact Hwf | exact Hlen].
  - destruct Hwf as (Hok & Hfr & Hinj).
    split; [exact Hok|]. split; [|exact Hinj]. simpl_machine.
    intros i f Hi. destruct (Hfr i f Hi) as (pg' & Hpg' & Hlen').
    exists pg'. split; [|exact Hlen'].
    rewrite list_lookup_insert_ne; [exact Hpg'|]. congruence.
Qed.

Lemma copy_wf d (page : option nat) off bvec :
  triple any_undef wf_store
    (match page with
     | Some pfn =>
         if is_write d then
           let* src := bvec_load bvec in
           let* _ := page_write pfn off src in
           ret bvec
         else
           let* data := page_read pfn off (bv_len bvec) in
           bvec_store bvec data
     | None =>
         match d with
         | READ => memzero_page bvec
         | WRITE => ret bvec
         end
     end) (fun _ s => wf_store s).
Proof.
  destruct page as [pfn|].
  - destruct d; cbn [is_write].
    + eapply triple_bind; [apply triple_wf_pure, pure_page_read|].
      intros data. apply triple_wf_pure, pure_bvec_store.
    + eapply triple_bind; [apply triple_wf_pure, pure_bvec_load|].
      intros src. eapply triple_bind; [apply page_write_wf|].
      intros ?. apply triple_ret; auto.
  - destruct d.
    + apply triple_wf_pure, pure_bvec_store.
    + apply triple_ret; auto.
Qed.

Lemma ramjam_get_page_wf pgoff allocate :
  triple any_undef wf_store (Modern.ramjam_get_page pgoff allocate)
         (fun _ s => wf_store s).
Proof.
  unfold Modern.ramjam_get_page.
  eapply triple_bind; [apply triple_wf_pure, pure_read_ramjam_pages|]. intros n.
  destruct (pgoff >=? n); [apply triple_ret; auto|].
  eapply triple_bind; [apply triple_wf_pure, pure_pages_load|]. intros cur.
  eapply triple_bind with (Q := fun _ s => wf_store s);
    [|intros ?; apply triple_wf_pure, pure_pages_load].
  destruct (is_null cur && allocate); [|apply triple_ret; auto].
  eapply triple_bind; [apply alloc_page_wf|]. intros p. apply pages_store_wf.
Qed.

Lemma segment_wf d dr cur bvec :
  triple any_undef wf_store (segment d dr cur bvec) (fun _ s => wf_store s).
Proof.
  destruct d; cbn [segment].
  - unfold Modern.rq_segment.
    eapply triple_bind; [apply ramjam_get_page_wf|]. intros page. apply copy_wf.
  - unfold Bio.bio_segment.
    eapply triple_bind; [apply triple_wf_pure, pure_read_ramjam_pages|]. intros n.
    eapply triple_bind with (Q := fun _ s => wf_store s).
    { destruct (_ <? _); [apply triple_wf_pure, pure_pages_load | apply triple_ret; auto]. }
    intros found.
    eapply triple_bind with (Q := fun _ s => wf_store s); [|intros page; apply copy_wf].
    destruct (is_null found && is_write dr && _); [|apply triple_ret; auto].
    eapply triple_bind; [apply alloc_page_wf|]. intros p.
    eapply triple_bind; [apply pages_store_wf|]. intros ?. apply triple_ret; auto.
Qed.

Lemma for_each_segment_wf d dr segs :
  forall cur,
    triple any_undef wf_store (for_each_segment d dr cur segs) (fun _ s => wf_store s).
Proof.
  induction segs as [|bvec rest IH]; intros cur.
  - destruct d; apply triple_ret; auto.
  - rewrite for_each_segment_cons.
    eapply triple_bind; [apply segment_wf|]. intros b.
    eapply triple_bind; [apply IH|]. intros bs. apply triple_ret; auto.
Qed.

Lemma fault_wf d pgoff :
  triple any_undef wf_store (fault d pgoff) (fun _ s => wf_store s).
Proof.
  destruct d; cbn [fault].
  - unfold Modern.ramjam_vma_fault.
    eapply triple_bind; [apply ramjam_get_page_wf|]. intros [pfn|].
    + eapply triple_bind; [apply get_page_wf|]. intros ?. apply triple_ret; auto.
    + apply triple_ret; auto.
  - unfold Bio.ramjam_vm_fault.
    eapply triple_bind; [apply triple_wf_pure, pure_read_ramjam_pages|]. intros n.
    destruct (_ >=? _); [apply triple_ret; auto|].
    eapply triple_bind; [apply triple_wf_pure, pure_pages_load|]. intros [pfn|].
    + eapply triple_bind; [apply get_page_wf|]. intros ?. apply triple_ret; auto.
    + eapply triple_bind; [apply alloc_page_wf|]. intros [pfn|].
      * eapply triple_bind; [apply pages_store_wf|]. intros ?.
        eapply triple_bind; [apply get_page_wf|]. intros ?. apply triple_ret; auto.
      * apply triple_ret. tauto.
Qed.

Lemma exec_wf d o : triple any_undef wf_store (exec d o) (fun _ s => wf_store s).
Proof.
  destruct o as [dr sector segs|pgoff|vma|pfn off b]; cbn [exec].
  - eapply triple_bind with (Q := fun _ s => wf_store s);
      [|intros r; apply triple_ret; auto].
    rewrite submit_unfold.
    eapply triple_bind; [apply for_each_segment_wf|].
    intros bufs. apply triple_ret; auto.
  - eapply triple_bind with (Q := fun _ s => wf_store s);
      [apply fault_wf | intros r; apply triple_ret; auto].
  - eapply triple_bind with (Q := fun _ s => wf_store s);
      [|intros r; apply triple_ret; auto].
    destruct d; cbn [mmap]; [apply triple_ret; auto|].
    unfold Bio.rramjam_mmap.
    eapply triple_bind; [apply triple_wf_pure, pure_read_ramjam_pages|]. intros n.
    destruct (_ >? _); apply triple_ret; auto.
  - apply page_write_wf.
Qed.

(** Whatever state a sequence of operations reaches from an initialised
    store is in good order. *)
Lemma exec_all_wf d os :
  triple any_undef wf_store (exec_all d os) (fun _ s => wf_store s).
Proof.
  induction os as [|o rest IH]; cbn [exec_all].
  - apply triple_ret; auto.
  - eapply triple_bind; [apply exec_wf|]. intros ?. exact IH.
Qed.

(** In particular every state reached from [ramjam_init]. *)
Lemma reachable_wf d os n plan s :
  0 <= n -> exec_all d os (ramjam_init n plan) = Done tt s -> wf_store s.
Proof.
  intros Hn Hrun.
  pose proof (exec_all_wf d os (ramjam_init n plan) (ramjam_init_wf n plan Hn)) as H.
  rewrite Hrun in H. exact H.
Qed.


(** ** [blk_bio.c] never copies out of bounds

    The bio handler uses the segment's own offset as the offset in the
    store page, so for segments that lie within their buffer page every
    copy stays within the frame: the handler always completes. *)

Lemma length_slice l off len :
  0 <= off -> 0 <= len -> off + len <= Z.of_nat (length l) ->
  Z.of_nat (length (slice l off len)) = len.
Proof.
  intros H0 H1 H2. unfold slice. rewrite length_take, length_drop. lia.
Qed.

Lemma in_bounds_true l off len :
  0 <= off -> 0 <= len -> off + len <= Z.of_nat (length l) ->
  in_bounds l off len = true.
Proof.
  intros H0 H1 H2. unfold in_bounds.
  destruct (Z.leb_spec 0 off); [|lia].
  destruct (Z.leb_spec 0 len); [|lia].
  destruct (Z.leb_spec (off + len) (Z.of_nat (length l))); [reflexivity | lia].
Qed.

Lemma store_offset_in_page bv :
  wf_bvec bv ->
  0 <= bv_offset bv mod PAGE_SIZE /\
  bv_offset bv mod PAGE_SIZE + bv_len bv <= PAGE_SIZE.
Proof.
  intros (_ & Hoff & Hlen & Hsum). rewrite page_size_val in *.
  destruct (Z.eq_dec (bv_offset bv) 4096) as [E|Hne].
  - rewrite E. change (4096 mod 4096) with 0. lia.
  - rewrite Z.mod_small by lia. lia.
Qed.

Lemma bio_copy_total dr pfn pg bv s :
  wf_bvec bv ->
  physmem s !! pfn = Some pg -> Z.of_nat (length (page_bytes pg)) = PAGE_SIZE ->
  exists b s',
    (if is_write dr then
       let* src := bvec_load bv in
       let* _ := page_write pfn (bv_offset bv mod PAGE_SIZE) src in
       ret bv
     else
       let* data := page_read pfn (bv_offset bv mod PAGE_SIZE) (bv_len bv) in
       bvec_store bv data) s = Done b s'.
Proof.
  intros Hwf Hpg Hlen. pose proof (store_offset_in_page bv Hwf) as [Ho1 Ho2].
  destruct Hwf as (Hbuf & Hoff & Hl & Hsum).
  destruct dr; cbn [is_write]; unfold bind.
  - unfold page_read. rewrite Hpg, in_bounds_true by lia.
    unfold bvec_store. rewrite length_slice by lia.
    rewrite in_bounds_true by lia. eauto.
  - unfold bvec_load. rewrite in_bounds_true by lia.
    unfold page_write. rewrite Hpg. unfold payload.
    rewrite length_slice by lia. rewrite in_bounds_true by lia. eauto.
Qed.

Lemma bio_alloc_store idx s :
  0 <= idx -> pages s !! Z.to_nat idx = Some None ->
  (let* p := alloc_page in
   let* _ := pages_store idx p in
   ret p) s =
  match alloc_plan s with
  | false :: plan => Done None (set_alloc_plan plan s)
  | plan =>
      Done (Some (length (physmem s)))
           (mkmachine (ramjam_pages s)
                      (<[Z.to_nat idx := Some (length (physmem s))]> (pages s))
                      (physmem s ++ [fresh_page]) (tail plan))
  end.
Proof.
  intros Hidx Hslot. unfold bind, alloc_page, pages_store, ret.
  destruct (Z.ltb_spec idx 0); [lia|].
  destruct (alloc_plan s) as [|[] plan] eqn:Hplan;
    cbn [pages set_alloc_plan]; rewrite Hslot; try reflexivity.
  unfold set_pages, set_alloc_plan. cbn [pages ramjam_pages physmem alloc_plan].
  rewrite (list_insert_id _ _ _ Hslot). reflexivity.
Qed.

Lemma bio_segment_total dr sector bv s :
  wf_store s -> wf_bvec bv ->
  exists b s', Bio.bio_segment dr sector bv s = Done b s'.
Proof.
  intros Hwf Hbv. pose proof (seg_pg_idx_nonneg sector) as Hnn.
  destruct (Z.le_gt_cases (ramjam_pages s) (Bio.seg_pg_idx sector)) as [Hge|Hlt0].
  { pose proof (segment_out_of_range bio_based dr sector bv s Hbv Hge) as H.
    cbn [segment] in H. rewrite H. eauto. }
  unfold Bio.bio_segment. set (idx := Bio.seg_pg_idx sector) in *.
  unfold bind at 1 2. unfold read_ramjam_pages.
  destruct (Z.ltb_spec idx (ramjam_pages s)) as [Hlt|Hge]; [|lia].
  - assert (Hslot : is_Some (pages s !! Z.to_nat idx)).
    { apply lookup_lt_is_Some. rewrite (wf_store_length s Hwf). lia. }
    destruct Hslot as [slot Hslot]. unfold pages_load.
    destruct (Z.ltb_spec idx 0); [lia|]. rewrite Hslot.
    destruct slot as [pfn|]; cbn [is_null andb].
    + unfold bind at 1. cbn [ret].
      destruct (proj1 (proj2 Hwf) _ pfn Hslot) as (pg & Hpg & Hlen).
      apply (bio_copy_total dr pfn pg bv s Hbv Hpg Hlen).
    + destruct dr; cbn [is_write andb].
      * unfold bind at 1. cbn [ret]. rewrite memzero_page_wf by exact Hbv. eauto.
      * unfold bind at 1. rewrite (bio_alloc_store idx s Hnn Hslot).
        destruct (alloc_plan s) as [|[] plan]; [| |eauto].
        all: apply (bio_copy_total WRITE _ fresh_page bv);
          [ exact Hbv
          | cbn [physmem]; apply list_lookup_middle; reflexivity
          | apply length_fresh_page ].
Qed.

Lemma bio_for_each_segment_total dr segs :
  forall sector s,
    wf_store s -> Forall wf_bvec segs ->
    exists bs s', Bio.bio_for_each_segment dr sector segs s = Done bs s'.
Proof.
  induction segs as [|bv rest IH]; intros sector s Hwf Hsegs;
    cbn [Bio.bio_for_each_segment].
  - eexists. eexists. reflexivity.
  - apply Forall_cons in Hsegs as [Hbv Hrest]. unfold bind.
    destruct (bio_segment_total dr sector bv s Hwf Hbv) as (b & s1 & Hseg).
    pose proof (segment_wf bio_based dr sector bv s Hwf) as Hwf1.
    cbn [segment] in Hwf1. rewrite Hseg in *.
    destruct (IH (u64 (sector + Z.shiftr (bv_len bv) SECTOR_SHIFT)) s1 Hwf1 Hrest)
      as (bs & s2 & Hloop).
    rewrite Hloop. eexists. eexists. reflexivity.
Qed.

(** Every bio made of well-formed segments completes, with success. *)
Lemma ramjam_submit_bio_total (b : Bio.bio) (s : machine) :
  wf_store s -> Forall wf_bvec (Bio.bi_segs b) ->
  exists bufs s', Bio.ramjam_submit_bio b s = Done (BLK_STS_OK, bufs) s'.
Proof.
  intros Hwf Hsegs. unfold Bio.ramjam_submit_bio, bind.
  destruct (bio_for_each_segment_total (Bio.bio_data_dir b) (Bio.bi_segs b)
              (Bio.bi_sector b) s Hwf Hsegs) as (bs & s' & Hloop).
  rewrite Hloop. eexists. eexists. reflexivity.
Qed.

(** ** The mapping endpoint of [blk_bio.c] in general *)

(** The fault handler tells the two failures apart. *)
Lemma ramjam_vm_fault_errors pgoff s :
  (ramjam_pages s <= u32 pgoff ->
   Bio.ramjam_vm_fault pgoff s = Done (VM_FAULT_SIGBUS, None) s) /\
  (forall plan,
      u32 pgoff < ramjam_pages s ->
      pages s !! Z.to_nat (u32 pgoff) = Some None ->
      alloc_plan s = false :: plan ->
      Bio.ramjam_vm_fault pgoff s = Done (VM_FAULT_OOM, None) (set_alloc_plan plan s)).
Proof.
  pose proof (u32_nonneg pgoff) as Hnn. unfold Bio.ramjam_vm_fault. split.
  - intros Hge. unfold bind, read_ramjam_pages.
    destruct (Z.geb_spec (u32 pgoff) (ramjam_pages s)); [reflexivity | lia].
  - intros plan Hlt Hslot Hplan. unfold bind, read_ramjam_pages, pages_load.
    destruct (Z.geb_spec (u32 pgoff) (ramjam_pages s)); [lia|].
    destruct (Z.ltb_spec (u32 pgoff) 0); [lia|].
    rewrite Hslot. unfold alloc_page. rewrite Hplan. reflexivity.
Qed.

(** The fault handler of [blk_modern.c] answers a failed allocation with
    the code it uses for an index out of range. *)
Lemma ramjam_vma_fault_errors pgoff s :
  (ramjam_pages s <= pgoff ->
   Modern.ramjam_vma_fault pgoff s = Done (VM_FAULT_SIGBUS, None) s) /\
  (forall plan,
      0 <= pgoff < ramjam_pages s ->
      pages s !! Z.to_nat pgoff = Some None ->
      alloc_plan s = false :: plan ->
      Modern.ramjam_vma_fault pgoff s
      = Done (VM_FAULT_SIGBUS, None) (set_alloc_plan plan s)).
Proof.
  unfold Modern.ramjam_vma_fault, Modern.ramjam_get_page. split.
  - intros Hge. unfold bind, read_ramjam_pages.
    destruct (Z.geb_spec pgoff (ramjam_pages s)); [reflexivity | lia].
  - intros plan Hin Hslot Hplan.
    unfold bind, read_ramjam_pages, pages_load, pages_store, alloc_page.
    destruct (Z.geb_spec pgoff (ramjam_pages s)); [lia|].
    destruct (Z.ltb_spec pgoff 0); [lia|].
    rewrite Hslot. cbn [is_null andb]. rewrite Hplan.
    cbn [pages set_alloc_plan]. rewrite Hslot.
    unfold set_pages. cbn [pages ramjam_pages physmem alloc_plan].
    rewrite (list_insert_id _ _ _ Hslot), Hslot. reflexivity.
Qed.

(** [rramjam_mmap] refuses exactly the ranges that end beyond the capacity
    (for values that fit the kernel's types, without wrap-around), and
    neither allocates nor populates anything. *)
Lemma rramjam_mmap_validates vma s :
  0 <= vm_start vma <= vm_end vma -> vm_end vma < 2 ^ 64 ->
  0 <= vm_pgoff vma ->
  vm_pgoff vma * PAGE_SIZE + (vm_end vma - vm_start vma) < 2 ^ 64 ->
  0 <= ramjam_pages s < 2 ^ 32 ->
  Bio.rramjam_mmap vma s =
  Done (if ramjam_pages s * PAGE_SIZE
           <? vm_pgoff vma * PAGE_SIZE + (vm_end vma - vm_start vma)
        then (- EINVAL, vma)
        else (0, mkvma (vm_start vma) (vm_end vma) (vm_pgoff vma) true)) s.
Proof.
  intros Hse Hend Hpg Hsum Hcap. rewrite page_size_val in *.
  unfold Bio.rramjam_mmap, bind, read_ramjam_pages, u64, PAGE_SHIFT.
  rewrite !Z.shiftl_mul_pow2 by lia. change (2 ^ 12) with 4096.
  rewrite (Z.mod_small (vm_end vma - vm_start vma)) by lia.
  rewrite (Z.mod_small (vm_pgoff vma * 4096)) by lia.
  rewrite (Z.mod_small (vm_pgoff vma * 4096 + _)) by lia.
  rewrite (Z.mod_small (ramjam_pages s * 4096)) by lia.
  rewrite Z.gtb_ltb. destruct (_ <? _); reflexivity.
Qed.

(** ** Example scenarios on a store of four pages *)

(** Scenario 1: write 8192 bytes [aa] at offset 0; [0, 8192) reads back as
    [aa], [8192, 16384) as zero. *)
Example scenario_write_two_pages (d : driver) :
  let s := state_after (submit d WRITE 0 [full_seg Byte.xaa; full_seg Byte.xaa])
                       (ramjam_init 4 []) in
  read_bytes d 0 [full_seg Byte.x00; full_seg Byte.x00] s
  = Some (replicate (Z.to_nat 8192) Byte.xaa) /\
  read_bytes d 16 [full_seg Byte.xff; full_seg Byte.xff] s
  = Some (zero_bytes 8192) /\
  allocated s = 2%nat.
Proof. destruct d; repeat split; vm_compute; reflexivity. Qed.

(** Scenario 4: the first fault on page 3 maps a zeroed frame; a byte
    stored through the mapping is returned by a block read of the page. *)
Example scenario_fault_then_block_read (d : driver) :
  let s0 := ramjam_init 4 [] in
  exists pfn s1 s2,
    mmap d (mkvma 0 16384 0 false) s0 = Done (0, mkvma 0 16384 0 true) s0 /\
    fault d 3 s0 = Done (VM_FAULT_NONE, Some pfn) s1 /\
    page_bytes <$> physmem s1 !! pfn = Some (zero_bytes PAGE_SIZE) /\
    user_store pfn 5 Byte.x5a s1 = Done tt s2 /\
    (read_bytes d 24 [full_seg Byte.x00] s2 ≫= (.!! 5%nat)) = Some Byte.x5a /\
    (read_bytes d 24 [full_seg Byte.x00] s2 ≫= (.!! 6%nat)) = Some Byte.x00.
Proof.
  intros s0. destruct d; do 3 eexists; repeat split; vm_compute; reflexivity.
Qed.
(** ** Entries a transfer does not address

    A segment changes at most the entry of the page it resolves to: the
    entry of any other page is after the transfer what it was before. *)
Section Entry.

Variable i : nat.
Variable e : option (option nat).

Local Abbreviation K := (fun s : machine => pages s !! i = e).

Lemma any_undef_I u : any_undef u.
Proof. exact I. Qed.

#[local] Hint Resolve any_undef_I : core.

Lemma triple_K_same_table {A} (m : M A) :
  (forall s, match m s with
             | Done _ s' => same_table s s' | Undef u => any_undef u end) ->
  triple any_undef K m (fun _ s => K s).
Proof.
  intros H s Hs. specialize (H s). destruct (m s) as [a s'|u]; [|exact H].
  destruct H as [_ ->]. exact Hs.
Qed.

Lemma alloc_page_K : triple any_undef K alloc_page (fun _ s => K s).
Proof.
  apply triple_K_same_table. intros s.
  pose proof (alloc_page_same_table s) as H.
  destruct (alloc_page s); [exact H | exact I].
Qed.

Lemma pages_load_K idx : triple any_undef K (pages_load idx) (fun _ s => K s).
Proof.
  apply triple_frame_pure. intros s. unfold pages_load.
  destruct (idx <? 0); [exact I|].
  destruct (pages s !! Z.to_nat idx); [reflexivity | exact I].
Qed.

Lemma pages_store_K idx p :
  Z.to_nat idx <> i ->
  triple any_undef K (pages_store idx p) (fun _ s => K s).
Proof.
  intros Hne s Hs. unfold pages_store.
  destruct (idx <? 0); [exact I|].
  destruct (pages s !! Z.to_nat idx); [|exact I].
  cbn. rewrite list_lookup_insert_ne by exact Hne. exact Hs.
Qed.

Lemma get_page_K pgoff allocate :
  Z.to_nat pgoff <> i ->
  triple any_undef K (Modern.ramjam_get_page pgoff allocate) (fun _ s => K s).
Proof.
  intros Hne. unfold Modern.ramjam_get_page.
  eapply triple_bind with (Q := fun _ s => K s);
    [apply triple_frame_pure; intros s; reflexivity|].
  intros n. destruct (pgoff >=? n); [apply triple_ret; auto|].
  eapply triple_bind; [apply pages_load_K|]. intros cur.
  eapply triple_bind with (Q := fun _ s => K s); [|intros ?; apply pages_load_K].
  destruct (is_null cur && allocate); [|apply triple_ret; auto].
  eapply triple_bind; [apply alloc_page_K|]. intros p.
  apply pages_store_K, Hne.
Qed.

Lemma copy_K d (page : option nat) off bvec :
  triple any_undef K
    (match page with
     | Some pfn =>
         if is_write d then
           let* src := bvec_load bvec in
           let* _ := page_write pfn off src in
           ret bvec
         else
           let* data := page_read pfn off (bv_len bvec) in
           bvec_store bvec data
     | None =>
         match d with
         | READ => memzero_page bvec
         | WRITE => ret bvec
         end
     end) (fun _ s => K s).
Proof.
  destruct page as [pfn|].
  - destruct d; cbn.
    + eapply triple_bind; [apply triple_frame_pure, page_read_pure; auto|].
      intros data. apply triple_frame_pure, bvec_store_pure; auto.
    + eapply triple_bind; [apply triple_frame_pure, bvec_load_pure; auto|].
      intros src.
      eapply triple_bind; [apply triple_K_same_table, page_write_same_table; auto|].
      intros ?. apply triple_ret; auto.
  - destruct d.
    + apply triple_frame_pure, memzero_page_pure; auto.
    + apply triple_ret; auto.
Qed.

Lemma segment_K d dr cur bvec :
  Z.to_nat (seg_index d cur bvec) <> i ->
  triple any_undef K (segment d dr cur bvec) (fun _ s => K s).
Proof.
  intros Hne. destruct d; cbn [segment seg_index] in *.
  - unfold Modern.rq_segment.
    eapply triple_bind; [apply get_page_K, Hne|]. intros page. apply copy_K.
  - unfold Bio.bio_segment.
    eapply triple_bind with (Q := fun _ s => K s);
      [apply triple_frame_pure; intros s; reflexivity|].
    intros n.
    eapply triple_bind with (Q := fun _ s => K s).
    { destruct (Bio.seg_pg_idx cur <? n); [apply pages_load_K | apply triple_ret; auto]. }
    intros found.
    eapply triple_bind with (Q := fun _ s => K s); [|intros page; apply copy_K].
    destruct (is_null found && is_write dr && (Bio.seg_pg_idx cur <? n));
      [|apply triple_ret; auto].
    eapply triple_bind; [apply alloc_page_K|]. intros p.
    eapply triple_bind; [apply pages_store_K, Hne|]. intros ?.
    apply triple_ret; auto.
Qed.

Lemma for_each_segment_K d dr segs :
  forall cur,
    Forall (fun j => Z.to_nat j <> i) (seg_indices d cur segs) ->
    triple any_undef K (for_each_segment d dr cur segs) (fun _ s => K s).
Proof.
  induction segs as [|bvec rest IH]; intros cur Hidx.
  - intros s Hs. rewrite for_each_segment_nil. exact Hs.
  - cbn [seg_indices] in Hidx. apply Forall_cons in Hidx as [Hne Hrest].
    rewrite for_each_segment_cons.
    eapply triple_bind; [apply segment_K, Hne|]. intros b.
    eapply triple_bind; [apply IH, Hrest|]. intros bs. apply triple_ret; auto.
Qed.

End Entry.

(** Where [set_capacity] was reached it was given the size of the table
    in sectors; where it was not, the disk has no capacity. *)
Lemma module_init_capacity d k n :
  disk_capacity (snd (module_init d k n)) = capacity_sectors n \/
  disk_capacity (snd (module_init d k n)) = 0.
Proof.
  destruct d; cbn [module_init].
  - unfold ModernModule.ramjam_init.
    destruct (k K_vcalloc); [right; reflexivity|].
    destruct (k K_alloc_chrdev_region); [right; reflexivity|].
    destruct (k K_class_create); [right; reflexivity|].
    destruct (k K_register_blkdev); [right; reflexivity|].
    destruct (k K_blk_mq_alloc_tag_set); [right; reflexivity|].
    destruct (k K_blk_mq_alloc_disk); [right; reflexivity|].
    destruct (k K_add_disk); [right; reflexivity | left; reflexivity].
  - unfold BioModule.ramjam_init.
    destruct (k K_vcalloc); [right; reflexivity|].
    destruct (k K_alloc_chrdev_region); [right; reflexivity|].
    destruct (k K_class_create); [right; reflexivity|].
    destruct (k K_cdev_add); [right; reflexivity|].
    destruct (k K_device_create); [right; reflexivity|].
    destruct (k K_register_blkdev); [right; reflexivity|].
    destruct (k K_blk_mq_alloc_tag_set); [right; reflexivity|].
    destruct (k K_blk_mq_alloc_disk); [right; reflexivity|].
    destruct (k K_add_disk); [right; reflexivity | left; reflexivity].
Qed.

Lemma capacity_sectors_pages n : 0 <= n < 2 ^ 32 -> capacity_sectors n = 8 * n.
Proof.
  intros Hn. unfold capacity_sectors. rewrite page_size_val.
  change (4096 / 512) with 8. unfold u64.
  rewrite (Z.mod_small n) by lia. rewrite Z.mod_small by lia. lia.
Qed.

(** The end-of-device check fails every request of at least one sector
    that ends beyond [maxsector]. *)
Lemma bio_check_eod_beyond maxsector sector len :
  0 <= maxsector -> 0 < len -> len mod 512 = 0 ->
  sector * 512 + len > maxsector * 512 ->
  bio_check_eod maxsector sector (Z.shiftr len SECTOR_SHIFT) = true.
Proof.
  intros Hmax Hlen Hmod Hend. unfold bio_check_eod, SECTOR_SHIFT.
  rewrite Z.shiftr_div_pow2 by lia. change (2 ^ 9) with 512.
  pose proof (Z.div_mod len 512 ltac:(lia)) as Hdm. rewrite Hmod in Hdm.
  set (nr := len / 512) in *.
  destruct (Z.eqb_spec nr 0) as [E|_]; [lia|]. cbn [negb andb].
  destruct (Z.ltb_spec maxsector nr) as [_|Hle]; [reflexivity|]. cbn [orb].
  apply Z.ltb_lt. lia.
Qed.

(** ** Reference counts: every frame is accounted for *)

Lemma page_refs_update s pfn pg' f :
  (pfn < length (physmem s))%nat ->
  page_refs (set_physmem (<[pfn := pg']> (physmem s)) s) f =
  if decide (f = pfn) then page_count pg' else page_refs s f.
Proof.
  intros Hlt. unfold page_refs, refs_in. simpl_machine.
  destruct (decide (f = pfn)) as [->|Hne].
  - rewrite list_lookup_insert_eq by exact Hlt. reflexivity.
  - rewrite list_lookup_insert_ne by congruence. reflexivity.
Qed.

Lemma page_refs_pos_lt s pfn :
  (1 <= page_refs s pfn)%nat -> (pfn < length (physmem s))%nat.
Proof.
  unfold page_refs, refs_in. intros H.
  destruct (physmem s !! pfn) eqn:E; [eauto using lookup_lt_Some|].
  cbn in H. lia.
Qed.

Lemma ramjam_init_accounted n plan : frames_accounted (ramjam_init n plan).
Proof.
  split.
  - intros i pfn Hi. cbn in Hi. apply lookup_replicate in Hi as [Hi _]. discriminate Hi.
  - intros pfn Hlt. cbn in Hlt. lia.
Qed.

Lemma triple_accounted_pure {A} (m : M A) :
  pure_m m -> triple any_undef frames_accounted m (fun _ s => frames_accounted s).
Proof.
  intros Hm. apply triple_frame_pure. intros s. specialize (Hm s).
  destruct (m s); [exact Hm | exact I].
Qed.

Lemma pages_load_accounted i :
  triple any_undef frames_accounted (pages_load i)
         (fun v s => frames_accounted s /\ 0 <= i /\ pages s !! Z.to_nat i = Some v).
Proof.
  intros s Hs. unfold pages_load.
  destruct (Z.ltb_spec i 0); [exact I|].
  destruct (pages s !! Z.to_nat i) eqn:E; [auto | exact I].
Qed.

Lemma alloc_page_accounted (k : nat) e :
  triple any_undef (fun s => frames_accounted s /\ pages s !! k = Some e) alloc_page
         (fun v s => frames_pending v s /\ pages s !! k = Some e).
Proof.
  intros s [[HA HB] Hslot]. unfold alloc_page.
  assert (Hnew :
    let s' := mkmachine (ramjam_pages s) (pages s)
                        (physmem s ++ [fresh_page]) (tail (alloc_plan s)) in
    frames_pending (Some (length (physmem s))) s' /\ pages s' !! k = Some e).
  { cbn zeta. split; [|exact Hslot]. split; [|split]; simpl_machine.
    - intros i pfn Hi. specialize (HA i pfn Hi).
      pose proof (page_refs_pos_lt s pfn HA) as Hlt.
      unfold page_refs, refs_in in *. simpl_machine.
      rewrite lookup_app_l by exact Hlt. exact HA.
    - intros pfn Hlt Hne. rewrite length_app in Hlt. cbn [length] in Hlt.
      apply HB. assert (pfn <> length (physmem s)) by congruence. lia.
    - intros f [= <-]. unfold page_refs, refs_in. simpl_machine.
      rewrite list_lookup_middle by reflexivity. cbn. lia. }
  destruct (alloc_plan s) as [|[] plan]; try exact Hnew.
  split; [|exact Hslot]. split; [exact HA|]. split.
  - intros pfn Hlt _. apply HB, Hlt.
  - intros f Hf. discriminate Hf.
Qed.

Lemma pages_store_accounted i v :
  triple any_undef
         (fun s => frames_pending v s /\ pages s !! Z.to_nat i = Some None)
         (pages_store i v) (fun _ s => frames_accounted s).
Proof.
  intros s [(HA & HB & Hv) Hslot]. unfold pages_store.
  destruct (i <? 0); [exact I|]. rewrite Hslot.
  set (k := Z.to_nat i) in *.
  assert (Hk : (k < length (pages s))%nat) by eauto using lookup_lt_Some.
  split; simpl_machine.
  - intros j pfn Hj. change (page_refs _ pfn) with (page_refs s pfn).
    destruct (decide (k = j)) as [<-|Hne].
    + rewrite list_lookup_insert_eq in Hj by exact Hk. injection Hj as ->.
      apply Hv. reflexivity.
    + rewrite list_lookup_insert_ne in Hj by exact Hne. apply (HA j pfn Hj).
  - intros pfn Hlt. destruct (decide (v = Some pfn)) as [->|Hne].
    + exists k. apply list_lookup_insert_eq, Hk.
    + destruct (HB pfn Hlt Hne) as [j Hj]. exists j.
      rewrite list_lookup_insert_ne; [exact Hj|]. congruence.
Qed.

Lemma update_frame_accounted s pfn pg pg' :
  frames_accounted s -> physmem s !! pfn = Some pg ->
  (page_count pg <= page_count pg')%nat ->
  frames_accounted (set_physmem (<[pfn := pg']> (physmem s)) s).
Proof.
  intros [HA HB] Hpg Hle.
  assert (Hlt : (pfn < length (physmem s))%nat) by eauto using lookup_lt_Some.
  split.
  - intros i f Hi. rewrite page_refs_update by exact Hlt.
    specialize (HA i f Hi). destruct (decide (f = pfn)) as [->|]; [|exact HA].
    unfold page_refs, refs_in in HA. rewrite Hpg in HA. cbn in HA. lia.
  - intros f Hf. simpl_machine. rewrite length_insert in Hf. apply HB, Hf.
Qed.

Lemma page_write_accounted pfn off src :
  triple any_undef frames_accounted (page_write pfn off src)
         (fun _ s => frames_accounted s).
Proof.
  intros s Hs. unfold page_write.
  destruct (physmem s !! pfn) as [pg|] eqn:Hpg; [|exact I].
  destruct (in_bounds _ _ _); [|exact I].
  apply (update_frame_accounted s pfn pg); [exact Hs | exact Hpg | cbn; lia].
Qed.

Lemma get_page_accounted pfn :
  triple any_undef frames_accounted (get_page pfn) (fun _ s => frames_accounted s).
Proof.
  intros s Hs. unfold get_page.
  destruct (physmem s !! pfn) as [pg|] eqn:Hpg; [|exact I].
  apply (update_frame_accounted s pfn pg); [exact Hs | exact Hpg | cbn; lia].
Qed.

Lemma copy_accounted d (page : option nat) off bvec :
  triple any_undef frames_accounted
    (match page with
     | Some pfn =>
         if is_write d then
           let* src := bvec_load bvec in
           let* _ := page_write pfn off src in
           ret bvec
         else
           let* data := page_read pfn off (bv_len bvec) in
           bvec_store bvec data
     | None =>
         match d with
         | READ => memzero_page bvec
         | WRITE => ret bvec
         end
     end) (fun _ s => frames_accounted s).
Proof.
  destruct page as [pfn|].
  - destruct d; cbn [is_write].
    + eapply triple_bind; [apply triple_accounted_pure, pure_page_read|].
      intros data. apply triple_accounted_pure, pure_bvec_store.
    + eapply triple_bind; [apply triple_accounted_pure, pure_bvec_load|].
      intros src. eapply triple_bind; [apply page_write_accounted|].
      intros ?. apply triple_ret; auto.
  - destruct d.
    + apply triple_accounted_pure, pure_bvec_store.
    + apply triple_ret; auto.
Qed.

Lemma ramjam_get_page_accounted pgoff allocate :
  triple any_undef frames_accounted (Modern.ramjam_get_page pgoff allocate)
         (fun _ s => frames_accounted s).
Proof.
  unfold Modern.ramjam_get_page.
  eapply triple_bind; [apply triple_accounted_pure, pure_read_ramjam_pages|].
  intros n. destruct (pgoff >=? n); [apply triple_ret; auto|].
  eapply triple_bind; [apply pages_load_accounted|]. intros cur.
  eapply triple_bind with (Q := fun _ s => frames_accounted s);
    [|intros ?; apply triple_accounted_pure, pure_pages_load].
  destruct cur as [pfn|]; cbn [is_null andb]; [apply triple_ret; tauto|].
  destruct allocate; [|apply triple_ret; tauto].
  eapply triple_bind.
  { eapply triple_conseq; [apply (alloc_page_accounted (Z.to_nat pgoff) None) | | ];
      cbn beta; [tauto | intros a s H; exact H]. }
  intros p. apply pages_store_accounted.
Qed.

Lemma segment_accounted d dr cur bvec :
  triple any_undef frames_accounted (segment d dr cur bvec)
         (fun _ s => frames_accounted s).
Proof.
  destruct d; cbn [segment].
  - unfold Modern.rq_segment.
    eapply triple_bind; [apply ramjam_get_page_accounted|].
    intros page. apply copy_accounted.
  - unfold Bio.bio_segment. set (idx := Bio.seg_pg_idx cur).
    eapply triple_bind; [apply triple_accounted_pure, pure_read_ramjam_pages|].
    intros n.
    eapply triple_bind with
      (Q := fun found s => frames_accounted s /\
              ((idx <? n) = true -> pages s !! Z.to_nat idx = Some found)).
    { destruct (idx <? n).
      - eapply triple_conseq; [apply pages_load_accounted | auto |].
        cbn beta. tauto.
      - apply triple_ret. intros s Hs. split; [exact Hs | discriminate]. }
    intros found.
    eapply triple_bind with (Q := fun _ s => frames_accounted s);
      [|intros page; apply copy_accounted].
    destruct found as [pfn|]; cbn [is_null andb]; [apply triple_ret; tauto|].
    destruct (is_write dr); cbn [andb]; [|apply triple_ret; tauto].
    destruct (idx <? n); [|apply triple_ret; tauto].
    eapply triple_bind.
    { eapply triple_conseq; [apply (alloc_page_accounted (Z.to_nat idx) None) | | ];
        cbn beta; [intros s [Hs Hslot]; auto | intros a s H; exact H]. }
    intros p. eapply triple_bind; [apply pages_store_accounted|].
    intros ?. apply triple_ret; auto.
Qed.

Lemma for_each_segment_accounted d dr segs :
  forall cur,
    triple any_undef frames_accounted (for_each_segment d dr cur segs)
           (fun _ s => frames_accounted s).
Proof.
  induction segs as [|bvec rest IH]; intros cur.
  - destruct d; apply triple_ret; auto.
  - rewrite for_each_segment_cons.
    eapply triple_bind; [apply segment_accounted|]. intros b.
    eapply triple_bind; [apply IH|]. intros bs. apply triple_ret; auto.
Qed.

Lemma fault_accounted d pgoff :
  triple any_undef frames_accounted (fault d pgoff) (fun _ s => frames_accounted s).
Proof.
  destruct d; cbn [fault].
  - unfold Modern.ramjam_vma_fault.
    eapply triple_bind; [apply ramjam_get_page_accounted|]. intros [pfn|].
    + eapply triple_bind; [apply get_page_accounted|]. intros ?.
      apply triple_ret; auto.
    + apply triple_ret; auto.
  - unfold Bio.ramjam_vm_fault.
    eapply triple_bind; [apply triple_accounted_pure, pure_read_ramjam_pages|].
    intros n. destruct (_ >=? _); [apply triple_ret; auto|].
    eapply triple_bind; [apply pages_load_accounted|]. intros [pfn|].
    + eapply triple_bind with (Q := fun _ s => frames_accounted s).
      * eapply triple_conseq; [apply get_page_accounted | tauto | auto].
      * intros ?. apply triple_ret; auto.
    + eapply triple_bind.
      { eapply triple_conseq;
          [apply (alloc_page_accounted (Z.to_nat (u32 pgoff)) None) | | ];
          cbn beta; [tauto | intros a s H; exact H]. }
      intros [pfn|].
      * eapply triple_bind; [apply pages_store_accounted|]. intros ?.
        eapply triple_bind; [apply get_page_accounted|]. intros ?.
        apply triple_ret; auto.
      * apply triple_ret. intros s [(HA & HB & _) _]. split; [exact HA|].
        intros pfn Hlt. apply HB; [exact Hlt | discriminate].
Qed.

Lemma exec_accounted d o :
  triple any_undef frames_accounted (exec d o) (fun _ s => frames_accounted s).
Proof.
  destruct o as [dr sector segs|pgoff|vma|pfn off b]; cbn [exec].
  - eapply triple_bind with (Q := fun _ s => frames_accounted s);
      [|intros r; apply triple_ret; auto].
    rewrite submit_unfold.
    eapply triple_bind; [apply for_each_segment_accounted|].
    intros bufs. apply triple_ret; auto.
  - eapply triple_bind with (Q := fun _ s => frames_accounted s);
      [apply fault_accounted | intros r; apply triple_ret; auto].
  - eapply triple_bind with (Q := fun _ s => frames_accounted s);
      [|intros r; apply triple_ret; auto].
    destruct d; cbn [mmap]; [apply triple_ret; auto|].
    unfold Bio.rramjam_mmap.
    eapply triple_bind; [apply triple_accounted_pure, pure_read_ramjam_pages|].
    intros n. destruct (_ >? _); apply triple_ret; auto.
  - apply page_write_accounted.
Qed.

Lemma exec_all_accounted d os :
  triple any_undef frames_accounted (exec_all d os) (fun _ s => frames_accounted s).
Proof.
  induction os as [|o rest IH]; cbn [exec_all].
  - apply triple_ret; auto.
  - eapply triple_bind; [apply exec_accounted|]. intros ?. exact IH.
Qed.

(** ** Unloading: the loop that gives the frames back *)

Lemma s32_small x : - 2 ^ 31 <= x < 2 ^ 31 -> s32 x = x.
Proof. intros H. unfold s32. rewrite Z.mod_small; lia. Qed.

Lemma length_drop_ref pfn mem : length (drop_ref pfn mem) = length mem.
Proof.
  unfold drop_ref. destruct (mem !! pfn); [apply length_insert | reflexivity].
Qed.

Lemma refs_in_drop_ref pfn mem f :
  refs_in (drop_ref pfn mem) f =
  if decide (f = pfn) then Nat.pred (refs_in mem f) else refs_in mem f.
Proof.
  unfold drop_ref, refs_in.
  destruct (mem !! pfn) as [pg|] eqn:Hpg.
  - destruct (decide (f = pfn)) as [->|Hne].
    + rewrite list_lookup_insert_eq by eauto using lookup_lt_Some.
      rewrite Hpg. reflexivity.
    + rewrite list_lookup_insert_ne by congruence. reflexivity.
  - destruct (decide (f = pfn)) as [->|Hne]; [|reflexivity].
    rewrite Hpg. reflexivity.
Qed.

Lemma bytes_drop_ref pfn mem f :
  page_bytes <$> drop_ref pfn mem !! f = page_bytes <$> mem !! f.
Proof.
  unfold drop_ref. destruct (mem !! pfn) as [pg|] eqn:Hpg; [|reflexivity].
  destruct (decide (f = pfn)) as [->|Hne].
  - rewrite list_lookup_insert_eq by eauto using lookup_lt_Some.
    rewrite Hpg. reflexivity.
  - rewrite list_lookup_insert_ne by congruence. reflexivity.
Qed.

Lemma drop_refs_cons pfn l mem :
  drop_refs (pfn :: l) mem = drop_refs l (drop_ref pfn mem).
Proof. reflexivity. Qed.

Lemma refs_in_drop_refs l :
  forall mem f,
    NoDup l ->
    refs_in (drop_refs l mem) f =
    if decide (f ∈ l) then Nat.pred (refs_in mem f) else refs_in mem f.
Proof.
  induction l as [|pfn l IH]; intros mem f Hnd.
  - cbn. destruct (decide _) as [H|_]; [|reflexivity].
    apply elem_of_nil in H. destruct H.
  - apply NoDup_cons in Hnd as [Hnot Hnd].
    rewrite drop_refs_cons, IH by exact Hnd.
    rewrite refs_in_drop_ref.
    destruct (decide (f ∈ l)) as [Hin|Hnin], (decide (f = pfn)) as [->|Hne],
      (decide (_ ∈ _ :: _)) as [H|H];
      try reflexivity; try contradiction; exfalso.
    + apply H, elem_of_cons. auto.
    + apply H, elem_of_cons. auto.
    + apply elem_of_cons in H as [H|H]; contradiction.
Qed.

Lemma bytes_drop_refs l :
  forall mem f, page_bytes <$> drop_refs l mem !! f = page_bytes <$> mem !! f.
Proof.
  induction l as [|pfn l IH]; intros mem f; [reflexivity|].
  rewrite drop_refs_cons, IH. apply bytes_drop_ref.
Qed.

Lemma length_drop_refs l :
  forall mem, length (drop_refs l mem) = length mem.
Proof.
  induction l as [|pfn l IH]; intros mem; [reflexivity|].
  rewrite drop_refs_cons, IH. apply length_drop_ref.
Qed.

Lemma elem_of_table_frames s pfn :
  pfn ∈ table_frames s <-> exists i : nat, pages s !! i = Some (Some pfn).
Proof.
  unfold table_frames. rewrite list_elem_of_omap. split.
  - intros (e & He & Hid). cbn in Hid. subst e.
    apply list_elem_of_lookup in He. exact He.
  - intros [i Hi]. exists (Some pfn). split; [|reflexivity].
    apply list_elem_of_lookup. eauto.
Qed.

Lemma omap_id_NoDup (l : list (option nat)) :
  (forall (i j pfn : nat),
      l !! i = Some (Some pfn) -> l !! j = Some (Some pfn) -> i = j) ->
  NoDup (omap id l).
Proof.
  induction l as [|e l IH]; intros Hinj; [constructor|].
  assert (Hrest : NoDup (omap id l)).
  { apply IH. intros i j pfn Hi Hj.
    specialize (Hinj (S i) (S j) pfn Hi Hj). lia. }
  destruct e as [pfn|]; csimpl; [|exact Hrest].
  constructor; [|exact Hrest].
  intros Hin. apply list_elem_of_omap in Hin as (e & He & Hid).
  cbn in Hid. subst e. apply list_elem_of_lookup in He as [j Hj].
  specialize (Hinj 0%nat (S j) pfn eq_refl Hj). lia.
Qed.

Lemma table_frames_NoDup s : wf_store s -> NoDup (table_frames s).
Proof. intros (_ & _ & Hinj). apply omap_id_NoDup, Hinj. Qed.

Lemma free_page_held pfn s :
  (1 <= page_refs s pfn)%nat ->
  __free_page pfn s = Done tt (set_physmem (drop_ref pfn (physmem s)) s).
Proof.
  unfold page_refs, refs_in, __free_page, drop_ref. intros H.
  destruct (physmem s !! pfn) as [pg|]; cbn in H; [|lia].
  destruct (page_count pg); [lia | reflexivity].
Qed.

Lemma free_pages_loop_spec k :
  forall (i : nat) s,
    (i + k <= length (pages s))%nat -> Z.of_nat (i + k) < 2 ^ 31 ->
    (forall (j1 j2 pfn : nat),
        pages s !! j1 = Some (Some pfn) -> pages s !! j2 = Some (Some pfn) -> j1 = j2) ->
    (forall (j pfn : nat),
        (i <= j)%nat -> pages s !! j = Some (Some pfn) -> (1 <= page_refs s pfn)%nat) ->
    free_pages_loop k (Z.of_nat i) s =
    Done tt (set_physmem
               (drop_refs (omap id (take k (drop i (pages s)))) (physmem s)) s).
Proof.
  induction k as [|k IH]; intros i s Hlen Hint Hinj Hrefs.
  - cbn. destruct s; reflexivity.
  - cbn [free_pages_loop]. unfold bind at 1. unfold pages_load.
    destruct (Z.ltb_spec (Z.of_nat i) 0); [lia|]. rewrite Nat2Z.id.
    destruct (lookup_lt_is_Some_2 (pages s) i) as [e He]; [lia|].
    rewrite He. rewrite (drop_S _ _ _ He). cbn [take].
    rewrite s32_small by lia.
    replace (Z.of_nat i + 1) with (Z.of_nat (S i)) by lia.
    destruct e as [pfn|]; csimpl.
    + unfold bind. rewrite free_page_held by (apply (Hrefs i pfn); [lia | exact He]).
      set (s1 := set_physmem (drop_ref pfn (physmem s)) s).
      rewrite (IH (S i) s1); [reflexivity | cbn; lia | lia | exact Hinj |].
      intros j f Hj Hf. unfold page_refs, s1. simpl_machine.
      rewrite refs_in_drop_ref. rewrite decide_False.
      * apply (Hrefs j f); [lia | exact Hf].
      * intros ->. specialize (Hinj i j pfn He Hf). lia.
    + unfold bind. cbn [ret].
      apply IH; [lia | lia | exact Hinj |].
      intros j f Hj Hf. apply (Hrefs j f); [lia | exact Hf].
Qed.

Lemma free_all_pages_spec s :
  wf_store s -> frames_accounted s -> ramjam_pages s < 2 ^ 31 ->
  free_all_pages s =
  Done tt (set_physmem (drop_refs (table_frames s) (physmem s)) s).
Proof.
  intros Hwf [HA _] Hn. pose proof (wf_store_length s Hwf) as Hlen.
  destruct Hwf as ([H0 _] & _ & Hinj).
  unfold free_all_pages, bind, read_ramjam_pages.
  change 0 with (Z.of_nat 0).
  rewrite free_pages_loop_spec; try assumption.
  - rewrite drop_0, <- Hlen, firstn_all. reflexivity.
  - cbn. lia.
  - cbn. lia.
  - intros j pfn _ Hj. apply (HA j pfn Hj).
Qed.

Lemma release_everything_bio l :
  release R_pages
    (release R_chrdev_region
       (release R_class
          (release R_cdev
             (release R_device
                (release R_blkdev
                   (release R_tag_set (release R_disk (release R_gendisk l)))))))) = [].
Proof.
  induction l as [|r l IH]; [reflexivity|]. destruct r; cbn; exact IH.
Qed.

Lemma release_everything_modern l :
  release R_pages
    (release R_chrdev_region
       (release R_cdev
          (release R_class
             (release R_device
                (release R_blkdev
                   (release R_tag_set (release R_disk (release R_gendisk l)))))))) = [].
Proof.
  induction l as [|r l IH]; [reflexivity|]. destruct r; cbn; exact IH.
Qed.

Lemma module_exit_spec d ks s :
  wf_store s -> frames_accounted s -> ramjam_pages s < 2 ^ 31 ->
  module_exit d ks s =
  Done (mkkstate [] 0)
       (set_pages [] (set_physmem (drop_refs (table_frames s) (physmem s)) s)).
Proof.
  intros Hwf Hacc Hn.
  destruct d; cbn [module_exit];
    unfold ModernModule.ramjam_exit, BioModule.ramjam_exit, bind;
    rewrite free_all_pages_spec by assumption; unfold vfree_pages, ret;
    [rewrite release_everything_modern | rewrite release_everything_bio];
    reflexivity.
Qed.

(** ** The page table of a process *)

Lemma mapped_frames_NoDup ptes s :
  wf_store s -> ptes_ok ptes s -> NoDup (mapped_frames ptes).
Proof.
  intros (_ & _ & Hinj) Hptes. unfold mapped_frames.
  apply NoDup_fmap_2_strong; [|apply NoDup_map_to_list].
  intros [pg1 f1] [pg2 f2] H1 H2 Heq. cbn in Heq. subst f2.
  apply elem_of_map_to_list in H1, H2.
  destruct (Hptes pg1 f1 H1) as (Hp1 & Hs1 & _).
  destruct (Hptes pg2 f1 H2) as (Hp2 & Hs2 & _).
  pose proof (Hinj _ _ _ Hs1 Hs2). f_equal. lia.
Qed.

Lemma elem_of_mapped_frames (ptes : ptes_t) f :
  f ∈ mapped_frames ptes <-> exists pg, ptes !! pg = Some f.
Proof.
  unfold mapped_frames. rewrite list_elem_of_fmap. split.
  - intros ([pg f'] & -> & Hin). exists pg. apply elem_of_map_to_list, Hin.
  - intros [pg Hpg]. exists (pg, f). split; [reflexivity|].
    apply elem_of_map_to_list, Hpg.
Qed.


(** ** The fault handlers resolve every page of the device *)

Lemma lookup_zero_bytes n k : default Byte.x00 (zero_bytes n !! k) = Byte.x00.
Proof.
  unfold zero_bytes. destruct (replicate _ _ !! k) as [b|] eqn:E; [|reflexivity].
  apply lookup_replicate in E as [-> _]. reflexivity.
Qed.

Lemma u32_small x : 0 <= x < 2 ^ 32 -> u32 x = x.
Proof. intros H. unfold u32. apply Z.mod_small. lia. Qed.

Lemma u64_small x : 0 <= x < 2 ^ 64 -> u64 x = x.
Proof. intros H. unfold u64. apply Z.mod_small. lia. Qed.

(** A fault on a page that has its frame: one more reference on it. *)
Lemma fault_hit d (p : nat) pfn pg s :
  Z.of_nat p < ramjam_pages s -> (d = bio_based -> Z.of_nat p < 2 ^ 32) ->
  pages s !! p = Some (Some pfn) -> physmem s !! pfn = Some pg ->
  fault d (Z.of_nat p) s =
  Done (VM_FAULT_NONE, Some pfn)
       (set_physmem (<[pfn := mkpage (page_bytes pg) (S (page_count pg))]> (physmem s)) s).
Proof.
  intros Hlt Hcap Hp Hpg.
  assert (Hget : get_page pfn s =
                 Done tt (set_physmem
                            (<[pfn := mkpage (page_bytes pg) (S (page_count pg))]>
                               (physmem s)) s)).
  { unfold get_page. rewrite Hpg. reflexivity. }
  destruct d; cbn [fault].
  - unfold Modern.ramjam_vma_fault, Modern.ramjam_get_page, bind,
      read_ramjam_pages, pages_load.
    destruct (Z.geb_spec (Z.of_nat p) (ramjam_pages s)); [lia|].
    destruct (Z.ltb_spec (Z.of_nat p) 0); [lia|].
    rewrite Nat2Z.id, Hp. cbn [is_null andb ret]. rewrite Hp, Hget. reflexivity.
  - unfold Bio.ramjam_vm_fault, bind, read_ramjam_pages, pages_load.
    specialize (Hcap eq_refl). rewrite u32_small by lia.
    destruct (Z.geb_spec (Z.of_nat p) (ramjam_pages s)); [lia|].
    destruct (Z.ltb_spec (Z.of_nat p) 0); [lia|].
    rewrite Nat2Z.id, Hp, Hget. reflexivity.
Qed.

(** A fault on a page that has none, when memory is available: a new
    zeroed frame enters the table, with the table's reference and the
    mapping's. *)
Lemma alloc_page_head s :
  head (alloc_plan s) <> Some false ->
  alloc_page s =
  Done (Some (length (physmem s)))
       (mkmachine (ramjam_pages s) (pages s)
                  (physmem s ++ [fresh_page]) (tail (alloc_plan s))).
Proof.
  unfold alloc_page. intros H.
  destruct (alloc_plan s) as [|[] plan]; [reflexivity | reflexivity |].
  destruct H. reflexivity.
Qed.

Lemma alloc_succeeds_head s : alloc_succeeds s -> head (alloc_plan s) <> Some false.
Proof.
  unfold alloc_succeeds. intros H.
  destruct (alloc_plan s) as [|b plan]; [discriminate|].
  apply Forall_cons in H as [-> _]. discriminate.
Qed.

Lemma fault_miss d (p : nat) s :
  Z.of_nat p < ramjam_pages s -> (d = bio_based -> Z.of_nat p < 2 ^ 32) ->
  head (alloc_plan s) <> Some false -> pages s !! p = Some None ->
  fault d (Z.of_nat p) s =
  Done (VM_FAULT_NONE, Some (length (physmem s)))
       (mkmachine (ramjam_pages s) (<[p := Some (length (physmem s))]> (pages s))
                  (physmem s ++ [mkpage (zero_bytes PAGE_SIZE) 2])
                  (tail (alloc_plan s))).
Proof.
  intros Hlt Hcap Hplan Hp.
  assert (Hlen : (p < length (pages s))%nat) by eauto using lookup_lt_Some.
  assert (Hget : forall t plan,
             get_page (length (physmem s))
                      (mkmachine (ramjam_pages s) t (physmem s ++ [fresh_page]) plan)
             = Done tt (mkmachine (ramjam_pages s) t
                          (physmem s ++ [mkpage (zero_bytes PAGE_SIZE) 2]) plan)).
  { intros t plan. unfold get_page. simpl_machine.
    rewrite list_lookup_middle by reflexivity.
    unfold set_physmem. simpl_machine.
    replace (length (physmem s)) with (length (physmem s) + 0)%nat at 1 by lia.
    rewrite insert_app_r. reflexivity. }
  destruct d; cbn [fault].
  - unfold Modern.ramjam_vma_fault, Modern.ramjam_get_page, bind,
      read_ramjam_pages, pages_load.
    destruct (Z.geb_spec (Z.of_nat p) (ramjam_pages s)); [lia|].
    destruct (Z.ltb_spec (Z.of_nat p) 0); [lia|].
    rewrite Nat2Z.id, Hp. cbn [is_null andb].
    rewrite (alloc_page_head s Hplan). unfold pages_store.
    destruct (Z.ltb_spec (Z.of_nat p) 0); [lia|].
    rewrite Nat2Z.id. simpl_machine. rewrite Hp.
    unfold set_pages. simpl_machine.
    rewrite list_lookup_insert_eq by exact Hlen. rewrite Hget. reflexivity.
  - unfold Bio.ramjam_vm_fault, bind, read_ramjam_pages, pages_load.
    specialize (Hcap eq_refl). rewrite u32_small by lia.
    destruct (Z.geb_spec (Z.of_nat p) (ramjam_pages s)); [lia|].
    destruct (Z.ltb_spec (Z.of_nat p) 0); [lia|].
    rewrite Nat2Z.id, Hp.
    rewrite (alloc_page_head s Hplan). unfold pages_store.
    destruct (Z.ltb_spec (Z.of_nat p) 0); [lia|].
    rewrite Nat2Z.id. simpl_machine. rewrite Hp.
    unfold set_pages. simpl_machine. rewrite Hget. reflexivity.
Qed.

Lemma alloc_succeeds_tail s t m :
  alloc_succeeds s ->
  alloc_succeeds (mkmachine (ramjam_pages s) t m (tail (alloc_plan s))).
Proof.
  unfold alloc_succeeds. simpl_machine. intros H.
  destruct (alloc_plan s) as [|b plan]; [exact H|].
  apply Forall_cons in H as [_ H]. exact H.
Qed.

(** Whatever the state of the page, a fault on a page of the device gives
    its frame, holds a reference for the mapping, and changes no byte of
    the device. *)
Lemma fault_resolves d (p : nat) s :
  store_ok s -> Z.of_nat p < ramjam_pages s ->
  exists pfn s',
    fault d (Z.of_nat p) s = Done (VM_FAULT_NONE, Some pfn) s' /\
    store_ok s' /\
    grows s s' /\
    pages s' !! p = Some (Some pfn) /\
    (2 <= page_refs s' pfn)%nat /\
    (forall f, (page_refs s f <= page_refs s' f)%nat) /\
    (forall a, byte_at s' a = byte_at s a) /\
    (pfn < length (physmem s'))%nat /\
    (forall f, f <> pfn ->
       ((f < length (physmem s'))%nat <-> (f < length (physmem s))%nat)) /\
    (forall f, page_refs s' f =
               if decide (f = pfn)
               then (if decide (pfn < length (physmem s))%nat
                     then S (page_refs s pfn) else 2%nat)
               else page_refs s f).
Proof.
  intros (Hwf & Hacc & Hplan & Hcap) Hlt.
  destruct (table_slot s p (proj1 Hwf) Hlt) as [slot Hp].
  assert (Hinv : forall r s', fault d (Z.of_nat p) s = Done r s' ->
                   wf_store s' /\ frames_accounted s' /\ grows s s').
  { intros r s' Hf.
    pose proof (fault_wf d (Z.of_nat p) s Hwf) as H1. rewrite Hf in H1.
    pose proof (fault_accounted d (Z.of_nat p) s Hacc) as H2. rewrite Hf in H2.
    split; [exact H1 | split; [exact H2|]].
    assert (Hrefl : reached_from s s) by (unfold reached_from; reflexivity).
    destruct d; cbn [fault] in Hf.
    - pose proof (ramjam_vma_fault_J s (proj1 Hwf) (Z.of_nat p) ltac:(lia) s Hrefl) as H3.
      rewrite Hf in H3. exact H3.
    - pose proof (ramjam_vm_fault_J s (proj1 Hwf) (Z.of_nat p) s Hrefl) as H3.
      rewrite Hf in H3. exact H3. }
  destruct Hwf as (Hok & Hfr & Hinj). destruct slot as [pfn|].
  - destruct (Hfr p pfn Hp) as (pg & Hpg & Hlen).
    pose proof (fault_hit d p pfn pg s Hlt ltac:(lia) Hp Hpg) as Hf.
    destruct (Hinv _ _ Hf) as (Hwf' & Hacc' & Hgrow).
    assert (Hlt' : (pfn < length (physmem s))%nat) by eauto using lookup_lt_Some.
    assert (Hcount : page_refs s pfn = page_count pg).
    { unfold page_refs, refs_in. rewrite Hpg. reflexivity. }
    eexists. eexists. split; [exact Hf|].
    split; [|split; [exact Hgrow | split; [exact Hp | split; [|split]]]].
    + split; [exact Hwf' | split; [exact Hacc' | split; [exact Hplan | exact Hcap]]].
    + rewrite page_refs_update by exact Hlt'. rewrite decide_True by reflexivity.
      cbn [page_count]. pose proof (proj1 Hacc p pfn Hp). lia.
    + intros f. rewrite page_refs_update by exact Hlt'.
      destruct (decide (f = pfn)) as [->|_]; [|lia]. cbn [page_count]. lia.
    + split; [|split; [|split]].
      * intros a. unfold byte_at.
        rewrite content_update_frame by (split; [exact Hok | split; assumption]).
        destruct (decide _) as [E|_]; [|reflexivity].
        unfold content. rewrite E, Hpg. reflexivity.
      * simpl_machine. rewrite length_insert. exact Hlt'.
      * intros f _. simpl_machine. rewrite length_insert. reflexivity.
      * intros f. rewrite page_refs_update by exact Hlt'.
        destruct (decide (f = pfn)) as [->|_]; [|reflexivity].
        rewrite decide_True by exact Hlt'. cbn [page_count]. rewrite Hcount.
        reflexivity.
  - pose proof (fault_miss d p s Hlt ltac:(lia) (alloc_succeeds_head s Hplan) Hp) as Hf.
    destruct (Hinv _ _ Hf) as (Hwf' & Hacc' & Hgrow).
    assert (Hlen : (p < length (pages s))%nat) by eauto using lookup_lt_Some.
    eexists. eexists. split; [exact Hf|].
    split; [|split; [exact Hgrow | split; [|split; [|split]]]].
    + split; [exact Hwf' | split; [exact Hacc' | split; [|exact Hcap]]].
      apply alloc_succeeds_tail, Hplan.
    + simpl_machine. apply list_lookup_insert_eq, Hlen.
    + unfold page_refs, refs_in. simpl_machine.
      rewrite list_lookup_middle by reflexivity. cbn. lia.
    + intros f. unfold page_refs, refs_in. simpl_machine.
      destruct (physmem s !! f) as [pg|] eqn:Hpg.
      * rewrite (lookup_app_l_Some _ _ _ _ Hpg). lia.
      * cbn. lia.
    + split; [|split; [|split]].
      * intros a. unfold byte_at, content. simpl_machine.
        set (q := Z.to_nat (Z.shiftr a PAGE_SHIFT)).
        destruct (decide (q = p)) as [->|Hne].
        -- rewrite list_lookup_insert_eq by exact Hlen. rewrite Hp.
           rewrite list_lookup_middle by reflexivity.
           cbn [fmap option_fmap option_map page_bytes].
           apply lookup_zero_bytes.
        -- rewrite list_lookup_insert_ne by congruence.
           destruct (pages s !! q) as [[f|]|] eqn:Hq; try reflexivity.
           destruct (Hfr _ f Hq) as (pg & Hpg & _).
           rewrite Hpg, (lookup_app_l_Some _ _ _ _ Hpg). reflexivity.
      * simpl_machine. rewrite length_app. cbn [length]. lia.
      * intros f Hne. simpl_machine. rewrite length_app. cbn [length]. lia.
      * intros f. unfold page_refs, refs_in. simpl_machine.
        destruct (decide (f = length (physmem s))) as [->|Hne].
        -- rewrite decide_False by lia.
           rewrite list_lookup_middle by reflexivity. reflexivity.
        -- destruct (physmem s !! f) as [pg|] eqn:Hpg.
           ++ rewrite (lookup_app_l_Some _ _ _ _ Hpg). reflexivity.
           ++ apply lookup_ge_None in Hpg.
              rewrite lookup_ge_None_2; [reflexivity|].
              rewrite length_app. cbn [length]. lia.
Qed.

(** ** Accesses through a mapping, byte by byte *)

Lemma file_addr_page vma off :
  0 <= vm_pgoff vma -> 0 <= off ->
  Z.shiftr (file_addr vma off) PAGE_SHIFT = vm_pgoff vma + Z.shiftr off PAGE_SHIFT /\
  file_addr vma off mod PAGE_SIZE = off mod PAGE_SIZE /\
  0 <= Z.shiftr off PAGE_SHIFT.
Proof.
  intros Hpg Hoff. unfold file_addr, PAGE_SHIFT. rewrite page_size_val.
  rewrite !Z.shiftr_div_pow2 by lia. change (2 ^ 12) with 4096.
  split; [|split].
  - rewrite Z.div_add_l by lia. reflexivity.
  - rewrite Z.add_comm, Z.mod_add by lia. reflexivity.
  - apply Z.div_pos; lia.
Qed.

Lemma byte_addr_split a :
  0 <= a ->
  a = Z.of_nat (Z.to_nat (Z.shiftr a PAGE_SHIFT)) * PAGE_SIZE + a mod PAGE_SIZE /\
  0 <= a mod PAGE_SIZE < PAGE_SIZE.
Proof.
  intros Ha. unfold PAGE_SHIFT. rewrite page_size_val.
  rewrite Z.shiftr_div_pow2 by lia. change (2 ^ 12) with 4096.
  pose proof (Z.div_pos a 4096 Ha ltac:(lia)).
  rewrite Z2Nat.id by assumption.
  pose proof (Z.div_mod a 4096 ltac:(lia)).
  pose proof (Z.mod_pos_bound a 4096 ltac:(lia)). lia.
Qed.

Lemma byte_addr_unique (p : nat) off a :
  0 <= off < PAGE_SIZE -> 0 <= a ->
  a = Z.of_nat p * PAGE_SIZE + off <->
  Z.to_nat (Z.shiftr a PAGE_SHIFT) = p /\ a mod PAGE_SIZE = off.
Proof.
  intros Hoff Ha. pose proof (byte_addr_split a Ha) as [Hsplit Hmod].
  unfold PAGE_SHIFT in *. rewrite page_size_val in *.
  rewrite Z.shiftr_div_pow2 in * by lia. change (2 ^ 12) with 4096 in *.
  split.
  - intros ->. rewrite Z.add_comm, Z.div_add, Z.mod_add by lia.
    rewrite Z.div_small, Z.mod_small by lia. split; lia.
  - intros [<- <-]. exact Hsplit.
Qed.

Lemma blit_one bytes off b :
  0 <= off < Z.of_nat (length bytes) ->
  blit bytes off [b] = <[Z.to_nat off := b]> bytes.
Proof.
  intros H. unfold blit. cbn [length app].
  rewrite insert_take_drop by lia.
  replace (Z.to_nat off + 1)%nat with (S (Z.to_nat off)) by lia. reflexivity.
Qed.

Lemma touch_ok d vma ptes off s :
  map_ok ptes s -> vm_ops vma = true -> 0 <= vm_pgoff vma ->
  0 <= off < vm_end vma - vm_start vma ->
  file_addr vma off < ramjam_pages s * PAGE_SIZE ->
  exists pfn ptes' s',
    touch d vma ptes off s = Done (Ok pfn, ptes') s' /\
    map_ok ptes' s' /\
    ramjam_pages s' = ramjam_pages s /\
    pages s' !! Z.to_nat (Z.shiftr (file_addr vma off) PAGE_SHIFT) = Some (Some pfn) /\
    (forall a, byte_at s' a = byte_at s a).
Proof.
  intros [Hs Hptes] Hops Hpg Hoff Hdev.
  destruct (file_addr_page vma off Hpg ltac:(lia)) as (Hpage & _ & Hsh).
  rewrite Hpage. set (pg := vm_pgoff vma + Z.shiftr off PAGE_SHIFT) in *.
  assert (Hpgn : 0 <= pg < ramjam_pages s).
  { split; [lia|]. pose proof (byte_addr_split (file_addr vma off)) as [Hsplit Hm].
    { unfold file_addr. rewrite page_size_val. lia. }
    rewrite Hpage, Z2Nat.id in Hsplit by lia. rewrite page_size_val in *. nia. }
  unfold touch.
  destruct (Z.leb_spec 0 off); [|lia].
  destruct (Z.ltb_spec off (vm_end vma - vm_start vma)); [|lia].
  cbn [andb]. fold pg. rewrite u64_small by (destruct Hs as (_ & _ & _ & ?); lia).
  destruct (ptes !! pg) as [pfn|] eqn:Hpte.
  - exists pfn, ptes, s. split; [reflexivity|].
    split; [split; assumption|]. split; [reflexivity|].
    split; [apply (Hptes pg pfn Hpte) | reflexivity].
  - destruct (fault_resolves d (Z.to_nat pg) s Hs) as
      (pfn & s' & Hf & Hs' & Hgrow & Hslot & Hrefs & Hmono & Hbytes & Hnew & Hlens & Hexact).
    { rewrite Z2Nat.id; lia. }
    rewrite Z2Nat.id in Hf by lia.
    exists pfn, (<[pg := pfn]> ptes), s'. rewrite Hops. unfold bind. rewrite Hf.
    split; [reflexivity|].
    split; [|split; [apply Hgrow | split; [exact Hslot | exact Hbytes]]].
    split; [exact Hs'|]. intros pg' pfn' Hl.
    destruct (decide (pg' = pg)) as [->|Hne].
    + rewrite lookup_insert_eq in Hl. injection Hl as <-.
      split; [lia | split; assumption].
    + rewrite lookup_insert_ne in Hl by congruence.
      destruct (Hptes pg' pfn' Hl) as (Hpos & Hp' & Hr').
      split; [exact Hpos | split].
      * apply Hgrow, Hp'.
      * specialize (Hmono pfn'). lia.
Qed.

Lemma user_store_byte (p : nat) pfn off b s :
  store_ok s -> pages s !! p = Some (Some pfn) -> 0 <= off < PAGE_SIZE ->
  exists s',
    user_store pfn off b s = Done tt s' /\
    store_ok s' /\ same_table s s' /\
    (forall f, page_refs s' f = page_refs s f) /\
    (forall a, 0 <= a ->
       byte_at s' a =
       if decide (a = Z.of_nat p * PAGE_SIZE + off) then b else byte_at s a) /\
    length (physmem s') = length (physmem s).
Proof.
  intros (Hwf & Hacc & Hplan & Hcap) Hp Hoff.
  destruct (proj1 (proj2 Hwf) p pfn Hp) as (pg & Hpg & Hlen).
  assert (Hlt : (pfn < length (physmem s))%nat) by eauto using lookup_lt_Some.
  assert (Hrun : user_store pfn off b s =
                 Done tt (set_physmem
                            (<[pfn := mkpage (blit (page_bytes pg) off [b]) (page_count pg)]>
                               (physmem s)) s)).
  { unfold user_store, page_write. rewrite Hpg.
    rewrite in_bounds_true; [reflexivity | lia | cbn; lia | cbn [length]; lia]. }
  eexists. split; [exact Hrun|].
  pose proof (page_write_wf pfn off [b] s Hwf) as Hwf'.
  pose proof (page_write_accounted pfn off [b] s Hacc) as Hacc'.
  unfold user_store in Hrun. rewrite Hrun in Hwf', Hacc'.
  split; [|split; [|split; [|split]]].
  5: { simpl_machine. apply length_insert. }
  - split; [exact Hwf' | split; [exact Hacc' | split; [exact Hplan | exact Hcap]]].
  - split; reflexivity.
  - intros f. rewrite page_refs_update by exact Hlt.
    destruct (decide (f = pfn)) as [->|_]; [|reflexivity].
    unfold page_refs, refs_in. rewrite Hpg. reflexivity.
  - intros a Ha. unfold byte_at. rewrite content_update_frame by exact Hwf.
    set (q := Z.to_nat (Z.shiftr a PAGE_SHIFT)).
    pose proof (byte_addr_unique p off a Hoff Ha) as Huniq. fold q in Huniq.
    destruct (decide (pages s !! q = Some (Some pfn))) as [Hq|Hq].
    + assert (q = p) as Hqp by (apply (proj2 (proj2 Hwf) q p pfn Hq Hp)).
      cbn [page_bytes]. rewrite blit_one by lia.
      unfold content. rewrite Hq, Hpg. cbn [fmap option_fmap option_map].
      destruct (decide (a = _)) as [E|Hne].
      * apply Huniq in E as [_ <-].
        rewrite list_lookup_insert_eq; [reflexivity|].
        pose proof (byte_addr_split a Ha). lia.
      * rewrite list_lookup_insert_ne; [reflexivity|].
        intros E. apply Hne, Huniq. split; [exact Hqp|].
        pose proof (byte_addr_split a Ha). lia.
    + rewrite decide_False; [reflexivity|].
      intros E. apply Huniq in E as [E _]. apply Hq. rewrite E. exact Hp.
Qed.

Lemma user_load_byte (p : nat) pfn off s :
  store_ok s -> pages s !! p = Some (Some pfn) -> 0 <= off < PAGE_SIZE ->
  user_load pfn off s = Done [byte_at s (Z.of_nat p * PAGE_SIZE + off)] s.
Proof.
  intros (Hwf & _) Hp Hoff.
  destruct (proj1 (proj2 Hwf) p pfn Hp) as (pg & Hpg & Hlen).
  assert (Ha : 0 <= Z.of_nat p * PAGE_SIZE + off) by (rewrite page_size_val in *; lia).
  destruct (proj1 (byte_addr_unique p off _ Hoff Ha) eq_refl) as [Hq Hk].
  unfold user_load, page_read. rewrite Hpg.
  rewrite in_bounds_true by lia.
  unfold byte_at, content. rewrite Hq, Hk, Hp, Hpg.
  cbn [fmap option_fmap option_map].
  destruct (lookup_lt_is_Some_2 (page_bytes pg) (Z.to_nat off)) as [x Hx]; [lia|].
  rewrite Hx. cbn [default from_option id]. unfold slice.
  rewrite (drop_S _ _ _ Hx). reflexivity.
Qed.

Lemma map_ok_same_table ptes s s' :
  store_ok s' -> same_table s s' ->
  (forall f, page_refs s' f = page_refs s f) ->
  ptes_ok ptes s -> ptes_ok ptes s'.
Proof.
  intros _ [_ Hpages] Hrefs Hptes pg pfn Hl.
  destruct (Hptes pg pfn Hl) as (H0 & Hp & Hr).
  rewrite Hpages, Hrefs. auto.
Qed.

(** One byte stored through the mapping. *)
Lemma store_one d vma ptes off b s :
  map_ok ptes s -> vm_ops vma = true -> 0 <= vm_pgoff vma ->
  0 <= off < vm_end vma - vm_start vma ->
  file_addr vma off < ramjam_pages s * PAGE_SIZE ->
  exists pfn ptes1 s1 s2,
    touch d vma ptes off s = Done (Ok pfn, ptes1) s1 /\
    user_store pfn (off mod PAGE_SIZE) b s1 = Done tt s2 /\
    map_ok ptes1 s2 /\
    ramjam_pages s2 = ramjam_pages s /\
    (forall a, 0 <= a ->
       byte_at s2 a = if decide (a = file_addr vma off) then b else byte_at s a).
Proof.
  intros Hok Hops Hpg Hoff Hdev.
  destruct (touch_ok d vma ptes off s Hok Hops Hpg Hoff Hdev) as
    (pfn & ptes1 & s1 & Ht & [Hs1 Hptes1] & Hcap1 & Hslot & Hb1).
  destruct (file_addr_page vma off Hpg ltac:(lia)) as (Hpage & Hmod & Hsh).
  set (fa := file_addr vma off) in *.
  assert (Hfa : 0 <= fa) by (unfold fa, file_addr; rewrite page_size_val; lia).
  destruct (byte_addr_split fa Hfa) as [Hsplit Hrange].
  set (p := Z.to_nat (Z.shiftr fa PAGE_SHIFT)) in *.
  destruct (user_store_byte p pfn (off mod PAGE_SIZE) b s1 Hs1 Hslot) as
    (s2 & Hst & Hs2 & Htab & Hrefs & Hb2 & _); [rewrite <- Hmod; exact Hrange|].
  exists pfn, ptes1, s1, s2. split; [exact Ht|]. split; [exact Hst|].
  split; [|split].
  - split; [exact Hs2|]. apply (map_ok_same_table ptes1 s1 s2); assumption.
  - rewrite (proj1 Htab). exact Hcap1.
  - intros a Ha. rewrite Hb2 by exact Ha. rewrite <- Hmod, <- Hsplit.
    destruct (decide (a = fa)); [reflexivity | apply Hb1].
Qed.

(** One byte loaded through the mapping. *)
Lemma load_one d vma ptes off s :
  map_ok ptes s -> vm_ops vma = true -> 0 <= vm_pgoff vma ->
  0 <= off < vm_end vma - vm_start vma ->
  file_addr vma off < ramjam_pages s * PAGE_SIZE ->
  exists pfn ptes1 s1,
    touch d vma ptes off s = Done (Ok pfn, ptes1) s1 /\
    user_load pfn (off mod PAGE_SIZE) s1 = Done [byte_at s (file_addr vma off)] s1 /\
    map_ok ptes1 s1 /\
    ramjam_pages s1 = ramjam_pages s /\
    (forall a, byte_at s1 a = byte_at s a).
Proof.
  intros Hok Hops Hpg Hoff Hdev.
  destruct (touch_ok d vma ptes off s Hok Hops Hpg Hoff Hdev) as
    (pfn & ptes1 & s1 & Ht & [Hs1 Hptes1] & Hcap1 & Hslot & Hb1).
  destruct (file_addr_page vma off Hpg ltac:(lia)) as (Hpage & Hmod & Hsh).
  set (fa := file_addr vma off) in *.
  assert (Hfa : 0 <= fa) by (unfold fa, file_addr; rewrite page_size_val; lia).
  destruct (byte_addr_split fa Hfa) as [Hsplit Hrange].
  set (p := Z.to_nat (Z.shiftr fa PAGE_SHIFT)) in *.
  exists pfn, ptes1, s1. split; [exact Ht|]. split.
  - rewrite (user_load_byte p pfn (off mod PAGE_SIZE) s1 Hs1 Hslot)
      by (rewrite <- Hmod; exact Hrange).
    rewrite <- Hmod, <- Hsplit, Hb1. reflexivity.
  - split; [split; assumption|]. split; [exact Hcap1 | exact Hb1].
Qed.

Lemma file_addr_add vma off k : file_addr vma (off + k) = file_addr vma off + k.
Proof. unfold file_addr. lia. Qed.

(** [memcpy] into the mapping, whatever the order: the bytes of the range
    that the copy has touched are those of the source, all others are as
    they were. *)
Lemma memcpy_to_map_touched d vma src off order :
  forall ptes s,
    map_ok ptes s -> vm_ops vma = true -> 0 <= vm_pgoff vma -> 0 <= off ->
    off + Z.of_nat (length src) <= vm_end vma - vm_start vma ->
    file_addr vma off + Z.of_nat (length src) <= ramjam_pages s * PAGE_SIZE ->
    exists ptes' s',
      memcpy_to_map d vma ptes off src order s = Done (Ok tt, ptes') s' /\
      map_ok ptes' s' /\
      ramjam_pages s' = ramjam_pages s /\
      (forall a, 0 <= a ->
         byte_at s' a =
         if decide (file_addr vma off <= a < file_addr vma off + Z.of_nat (length src)
                    /\ Z.to_nat (a - file_addr vma off) ∈ order)
         then default Byte.x00 (src !! Z.to_nat (a - file_addr vma off))
         else byte_at s a).
Proof.
  induction order as [|k rest IH]; intros ptes s Hok Hops Hpg Hoff Harea Hdev.
  - exists ptes, s. split; [reflexivity|]. split; [exact Hok|].
    split; [reflexivity|]. intros a Ha.
    rewrite decide_False; [reflexivity|]. intros [_ H]. apply elem_of_nil in H. exact H.
  - cbn [memcpy_to_map]. set (fa := file_addr vma off) in *.
    destruct (src !! k) as [b|] eqn:Hk.
    + assert (Hkn : (k < length src)%nat) by (eapply lookup_lt_Some; eauto).
      destruct (store_one d vma ptes (off + Z.of_nat k) b s Hok Hops Hpg) as
        (pfn & ptes1 & s1 & s2 & Ht & Hst & Hok2 & Hcap2 & Hb2);
        [lia | rewrite file_addr_add; fold fa; lia |].
      rewrite file_addr_add in Hb2. fold fa in Hb2.
      unfold bind at 1. rewrite Ht. cbv beta iota.
      unfold bind at 1. rewrite Hst.
      destruct (IH ptes1 s2 Hok2 Hops Hpg Hoff Harea) as (ptes3 & s3 & Hrun & Hok3 & Hcap3 & Hb3);
        [rewrite Hcap2; exact Hdev|].
      exists ptes3, s3. split; [exact Hrun|]. split; [exact Hok3|].
      split; [rewrite Hcap3; exact Hcap2|].
      intros a Ha. rewrite Hb3 by exact Ha. rewrite Hb2 by exact Ha.
      destruct (decide (a = fa + Z.of_nat k)) as [->|Hne].
      * replace (Z.to_nat (fa + Z.of_nat k - fa)) with k by lia. rewrite Hk.
        rewrite (decide_True (P := _ /\ k ∈ k :: rest))
          by (split; [lia | apply elem_of_cons; left; reflexivity]).
        destruct (decide _); reflexivity.
      * assert (Hiff : Z.to_nat (a - fa) ∈ k :: rest <-> Z.to_nat (a - fa) ∈ rest \/
                       (Z.to_nat (a - fa) = k /\ ~ fa <= a)).
        { rewrite elem_of_cons. split.
          - intros [E|E]; [|auto]. right. split; [exact E|]. intros Hle. lia.
          - intros [E|[E _]]; auto. }
        repeat case_decide; first [reflexivity | exfalso; tauto | exfalso; lia].
    + assert (Hkn : (length src <= k)%nat) by (apply lookup_ge_None; exact Hk).
      destruct (IH ptes s Hok Hops Hpg Hoff Harea Hdev) as (ptes3 & s3 & Hrun & Hok3 & Hcap3 & Hb3).
      exists ptes3, s3. split; [exact Hrun|]. split; [exact Hok3|].
      split; [exact Hcap3|].
      intros a Ha. rewrite Hb3 by exact Ha.
      assert (Hiff : fa <= a < fa + Z.of_nat (length src) ->
                     (Z.to_nat (a - fa) ∈ k :: rest <-> Z.to_nat (a - fa) ∈ rest)).
      { intros Hin. rewrite elem_of_cons. split; [intros [E|E]; [lia | exact E] | auto]. }
      repeat case_decide; first [reflexivity | exfalso; tauto].
Qed.

(** [memcpy] into the mapping: exactly the bytes of the range change, to
    the bytes of the source. *)
Lemma memcpy_to_map_spec d vma src order :
  forall ptes off s,
    map_ok ptes s -> vm_ops vma = true -> 0 <= vm_pgoff vma -> 0 <= off ->
    off + Z.of_nat (length src) <= vm_end vma - vm_start vma ->
    file_addr vma off + Z.of_nat (length src) <= ramjam_pages s * PAGE_SIZE ->
    covers order (length src) ->
    exists ptes' s',
      memcpy_to_map d vma ptes off src order s = Done (Ok tt, ptes') s' /\
      map_ok ptes' s' /\
      ramjam_pages s' = ramjam_pages s /\
      (forall a, 0 <= a ->
         byte_at s' a =
         if decide (file_addr vma off <= a < file_addr vma off + Z.of_nat (length src))
         then default Byte.x00 (src !! Z.to_nat (a - file_addr vma off))
         else byte_at s a).
Proof.
  intros ptes off s Hok Hops Hpg Hoff Harea Hdev Hcov.
  destruct (memcpy_to_map_touched d vma src off order ptes s Hok Hops Hpg Hoff Harea Hdev)
    as (ptes' & s' & Hrun & Hok' & Hcap & Hb).
  exists ptes', s'. split; [exact Hrun|]. split; [exact Hok'|]. split; [exact Hcap|].
  intros a Ha. rewrite Hb by exact Ha.
  destruct (decide (file_addr vma off <= a < file_addr vma off + Z.of_nat (length src)))
    as [Hin|Hout].
  - rewrite decide_True; [reflexivity|]. split; [exact Hin|]. apply Hcov. lia.
  - rewrite decide_False; [reflexivity|]. tauto.
Qed.

Lemma bytes_at_S s a n :
  bytes_at s a (S n) = byte_at s a :: bytes_at s (a + 1) n.
Proof.
  unfold bytes_at. cbn [seq map]. rewrite Z.add_0_r. f_equal.
  rewrite <- seq_shift, map_map. apply map_ext. intros k. f_equal. lia.
Qed.

Lemma bytes_at_ext s s' a n :
  (forall x, byte_at s' x = byte_at s x) -> bytes_at s' a n = bytes_at s a n.
Proof. intros H. unfold bytes_at. apply map_ext. intros k. apply H. Qed.

Lemma lookup_bytes_at s a n (k : nat) :
  (k < n)%nat -> bytes_at s a n !! k = Some (byte_at s (a + Z.of_nat k)).
Proof.
  intros Hk. unfold bytes_at.
  change (map ?f ?l) with (f <$> l).
  rewrite list_lookup_fmap, lookup_seq_lt by exact Hk. reflexivity.
Qed.

Lemma length_bytes_at s a n : length (bytes_at s a n) = n.
Proof. unfold bytes_at. rewrite length_map, length_seq. reflexivity. Qed.

(** [memcpy] from the mapping, whatever the order: the bytes of the
    buffer that the copy has touched are those of the device, the others
    are as they were; the device is unchanged. *)
Lemma memcpy_from_map_touched d vma off (n : nat) order :
  forall dst ptes s,
    map_ok ptes s -> vm_ops vma = true -> 0 <= vm_pgoff vma -> 0 <= off ->
    off + Z.of_nat n <= vm_end vma - vm_start vma ->
    file_addr vma off + Z.of_nat n <= ramjam_pages s * PAGE_SIZE ->
    (n <= length dst)%nat ->
    exists dst' ptes' s',
      memcpy_from_map d vma ptes off dst n order s = Done (Copied dst', ptes') s' /\
      map_ok ptes' s' /\
      ramjam_pages s' = ramjam_pages s /\
      (forall a, byte_at s' a = byte_at s a) /\
      length dst' = length dst /\
      (forall j : nat,
         dst' !! j =
         if decide ((j < n)%nat /\ j ∈ order)
         then Some (byte_at s (file_addr vma off + Z.of_nat j))
         else dst !! j).
Proof.
  induction order as [|k rest IH]; intros dst ptes s Hok Hops Hpg Hoff Harea Hdev Hfit.
  - exists dst, ptes, s. split; [reflexivity|]. split; [exact Hok|].
    split; [reflexivity|]. split; [reflexivity|]. split; [reflexivity|].
    intros j. rewrite decide_False; [reflexivity|]. intros [_ H].
    apply elem_of_nil in H. exact H.
  - cbn [memcpy_from_map]. set (fa := file_addr vma off) in *.
    destruct (Nat.ltb_spec k n) as [Hkn|Hkn].
    + destruct (load_one d vma ptes (off + Z.of_nat k) s Hok Hops Hpg) as
        (pfn & ptes1 & s1 & Ht & Hld & Hok1 & Hcap1 & Hb1);
        [lia | rewrite file_addr_add; fold fa; lia |].
      rewrite file_addr_add in Hld. fold fa in Hld.
      unfold bind at 1. rewrite Ht. cbv beta iota.
      unfold bind at 1. rewrite Hld.
      destruct (Nat.ltb_spec k (length dst)) as [_|Hbad]; [|lia].
      rewrite blit_one by lia. rewrite Nat2Z.id.
      set (b := byte_at s (fa + Z.of_nat k)).
      destruct (IH (<[k := b]> dst) ptes1 s1 Hok1 Hops Hpg Hoff Harea) as
        (dst' & ptes2 & s2 & Hrun & Hok2 & Hcap2 & Hb2 & Hlen & Hdst);
        [rewrite Hcap1; exact Hdev | rewrite length_insert; exact Hfit |].
      exists dst', ptes2, s2. split; [exact Hrun|]. split; [exact Hok2|].
      split; [rewrite Hcap2; exact Hcap1|].
      split; [intros a; rewrite Hb2; apply Hb1|].
      split; [rewrite Hlen; apply length_insert|].
      intros j. rewrite Hdst. fold fa. rewrite !Hb1.
      destruct (decide (j = k)) as [->|Hne].
      * rewrite (decide_True (P := _ /\ k ∈ k :: rest))
          by (split; [exact Hkn | apply elem_of_cons; left; reflexivity]).
        rewrite list_lookup_insert_eq by lia.
        destruct (decide _); reflexivity.
      * rewrite list_lookup_insert_ne by congruence.
        assert (Hiff : j ∈ k :: rest <-> j ∈ rest).
        { rewrite elem_of_cons. split; [intros [E|E]; [congruence | exact E] | auto]. }
        repeat case_decide; first [reflexivity | exfalso; tauto].
    + destruct (IH dst ptes s Hok Hops Hpg Hoff Harea Hdev Hfit) as
        (dst' & ptes2 & s2 & Hrun & Hok2 & Hcap2 & Hb2 & Hlen & Hdst).
      exists dst', ptes2, s2. split; [exact Hrun|]. split; [exact Hok2|].
      split; [exact Hcap2|]. split; [exact Hb2|]. split; [exact Hlen|].
      intros j. rewrite Hdst. fold fa.
      assert (Hiff : (j < n)%nat -> (j ∈ k :: rest <-> j ∈ rest)).
      { intros Hj. rewrite elem_of_cons. split; [intros [E|E]; [lia | exact E] | auto]. }
      repeat case_decide; first [reflexivity | exfalso; tauto].
Qed.

(** [memcpy] from the mapping puts the bytes of the range in the buffer
    and changes nothing on the device. *)
Lemma memcpy_from_map_spec d vma (n : nat) order :
  forall dst ptes off s,
    map_ok ptes s -> vm_ops vma = true -> 0 <= vm_pgoff vma -> 0 <= off ->
    off + Z.of_nat n <= vm_end vma - vm_start vma ->
    file_addr vma off + Z.of_nat n <= ramjam_pages s * PAGE_SIZE ->
    (n <= length dst)%nat -> covers order n ->
    exists ptes' s',
      memcpy_from_map d vma ptes off dst n order s
      = Done (Copied (bytes_at s (file_addr vma off) n ++ drop n dst), ptes') s' /\
      map_ok ptes' s' /\
      ramjam_pages s' = ramjam_pages s /\
      (forall a, byte_at s' a = byte_at s a).
Proof.
  intros dst ptes off s Hok Hops Hpg Hoff Harea Hdev Hfit Hcov.
  destruct (memcpy_from_map_touched d vma off n order dst ptes s
              Hok Hops Hpg Hoff Harea Hdev Hfit)
    as (dst' & ptes' & s' & Hrun & Hok' & Hcap & Hb & Hlen & Hdst).
  exists ptes', s'. split; [|split; [exact Hok' | split; [exact Hcap | exact Hb]]].
  rewrite Hrun. do 3 f_equal. apply list_eq. intros j. rewrite Hdst.
  destruct (decide (j < n)%nat) as [Hj|Hj].
  - rewrite decide_True by (split; [exact Hj | apply Hcov, Hj]).
    rewrite lookup_app_l by (rewrite length_bytes_at; exact Hj).
    rewrite lookup_bytes_at by exact Hj. reflexivity.
  - rewrite decide_False by tauto.
    rewrite lookup_app_r by (rewrite length_bytes_at; lia).
    rewrite length_bytes_at, lookup_drop. f_equal. lia.
Qed.

Lemma map_seq_lookup (f : nat -> Byte.byte) (l : list Byte.byte) :
  (forall k, (k < length l)%nat -> f k = default Byte.x00 (l !! k)) ->
  map f (seq 0 (length l)) = l.
Proof.
  revert f. induction l as [|b l IH]; intros f Hf; [reflexivity|].
  cbn [length seq map]. rewrite (Hf 0%nat) by (cbn; lia). cbn. f_equal.
  rewrite <- seq_shift, map_map. apply IH.
  intros k Hk. rewrite (Hf (S k)) by (cbn; lia). reflexivity.
Qed.

Lemma covers_seq n : covers (seq 0 n) n.
Proof. intros k Hk. apply elem_of_seq. lia. Qed.

Lemma covers_reverse order n : covers order n -> covers (reverse order) n.
Proof. intros H k Hk. apply elem_of_reverse, H, Hk. Qed.

(** ** The block endpoint on the byte array *)

Lemma byte_at_page (p k : nat) s :
  Z.of_nat k < PAGE_SIZE ->
  byte_at s (Z.of_nat p * PAGE_SIZE + Z.of_nat k) =
  match content s p with
  | Some bytes => default Byte.x00 (bytes !! k)
  | None => Byte.x00
  end.
Proof.
  intros Hk.
  assert (Ha : 0 <= Z.of_nat p * PAGE_SIZE + Z.of_nat k)
    by (rewrite page_size_val in *; lia).
  destruct (proj1 (byte_addr_unique p (Z.of_nat k) _ ltac:(lia) Ha) eq_refl) as [Hq Hm].
  unfold byte_at. rewrite Hq, Hm, Nat2Z.id. reflexivity.
Qed.

Lemma bytes_at_page (p : nat) s :
  wf_store s ->
  bytes_at s (Z.of_nat p * PAGE_SIZE) (Z.to_nat PAGE_SIZE) =
  default (zero_bytes PAGE_SIZE) (content s p).
Proof.
  intros Hwf.
  assert (Hlen : forall data, content s p = Some data ->
                   length data = Z.to_nat PAGE_SIZE).
  { unfold content. intros data Hc.
    destruct (pages s !! p) as [[pfn|]|] eqn:Hp; try discriminate Hc.
    destruct (proj1 (proj2 Hwf) p pfn Hp) as (pg & Hpg & Hl).
    rewrite Hpg in Hc. injection Hc as <-. lia. }
  unfold bytes_at. destruct (content s p) as [data|] eqn:Hc; cbn [default from_option id].
  - rewrite <- (Hlen data eq_refl). apply map_seq_lookup.
    intros k Hk. rewrite byte_at_page, Hc; [reflexivity|].
    rewrite (Hlen data eq_refl) in Hk. rewrite page_size_val in *. lia.
  - rewrite <- (length_zero_bytes PAGE_SIZE) at 1. apply map_seq_lookup.
    intros k Hk. rewrite length_zero_bytes in Hk.
    rewrite byte_at_page, Hc, lookup_zero_bytes; [reflexivity|].
    rewrite page_size_val in *. lia.
Qed.

Lemma whole_page_wf bvec : whole_page bvec -> wf_bvec bvec.
Proof.
  intros (Hl & Ho & Hn). unfold wf_bvec. rewrite Ho, Hn, page_size_val in *. lia.
Qed.

Lemma seg_index_whole_page d p bvec :
  0 <= p < max_pages d -> whole_page bvec ->
  seg_index d (page_cursor d p) bvec = p.
Proof.
  intros Hp (_ & Ho & _).
  rewrite <- (page_cursor_index d p [] Hp) at 2.
  destruct d; cbn [seg_index]; [|reflexivity].
  unfold Modern.seg_pgoff. rewrite Ho. reflexivity.
Qed.

Lemma payload_page_seg data :
  Z.of_nat (length data) = PAGE_SIZE -> payload (page_seg data) = data.
Proof.
  intros Hl. unfold payload, page_seg. cbn [bv_page bv_offset bv_len].
  apply slice_full. exact Hl.
Qed.

(** A whole-page block read returns the page of the byte array, whether
    the page has a frame or not, and leaves the store as it is. *)
Lemma block_read_page_bytes d (p : nat) bvec s :
  wf_store s -> Z.of_nat p < max_pages d -> whole_page bvec ->
  exists out,
    submit d READ (8 * Z.of_nat p) [bvec] s = Done (BLK_STS_OK, [out]) s /\
    payload out = bytes_at s (Z.of_nat p * PAGE_SIZE) (Z.to_nat PAGE_SIZE).
Proof.
  intros Hwf Hmax Hbv. pose proof (whole_page_wf bvec Hbv) as Hwfb.
  assert (Hp : 0 <= Z.of_nat p < max_pages d) by lia.
  rewrite bytes_at_page by exact Hwf.
  rewrite submit_unfold, page_cursor_start by exact Hp. unfold bind.
  rewrite for_each_segment_cons. unfold bind.
  pose proof (seg_index_whole_page d (Z.of_nat p) bvec Hp Hbv) as Hidx.
  assert (Hnil : forall cur s', for_each_segment d READ cur [] s' = Done [] s')
    by (intros; destruct d; reflexivity).
  destruct (Z.le_gt_cases (ramjam_pages s) (Z.of_nat p)) as [Hge|Hlt].
  - rewrite segment_out_of_range by (try exact Hwfb; rewrite Hidx; exact Hge).
    rewrite Hnil. eexists. split; [reflexivity|].
    rewrite payload_zero_filled by exact Hwfb. rewrite (proj2 (proj2 Hbv)).
    unfold content. rewrite lookup_ge_None_2; [reflexivity|].
    rewrite (wf_store_length s Hwf). lia.
  - destruct (table_slot s p (proj1 Hwf) Hlt) as [[pfn|] Hslot].
    + destruct (proj1 (proj2 Hwf) p pfn Hslot) as (pg & Hpg & Hlen).
      assert (Hc : content s p = Some (page_bytes pg)).
      { unfold content. rewrite Hslot, Hpg. reflexivity. }
      rewrite (segment_read_page d p (page_bytes pg)) by assumption.
      rewrite Hnil. eexists. split; [reflexivity|].
      rewrite payload_page_seg by exact Hlen. rewrite Hc. reflexivity.
    + rewrite segment_read_unallocated
        by (try exact Hwfb; rewrite Hidx, Nat2Z.id; exact Hslot).
      rewrite Hnil. eexists. split; [reflexivity|].
      rewrite payload_zero_filled by exact Hwfb. rewrite (proj2 (proj2 Hbv)).
      unfold content. rewrite Hslot. reflexivity.
Qed.

(** A whole-page block write sets the bytes of that page, and no other. *)
Lemma block_write_page_bytes d (p : nat) data s :
  store_ok s -> Z.of_nat p < ramjam_pages s -> Z.of_nat p < max_pages d ->
  Z.of_nat (length data) = PAGE_SIZE ->
  exists s',
    submit d WRITE (8 * Z.of_nat p) [page_seg data] s
    = Done (BLK_STS_OK, [page_seg data]) s' /\
    store_ok s' /\ grows s s' /\
    (forall f, (page_refs s f <= page_refs s' f)%nat) /\
    (forall (q k : nat), Z.of_nat k < PAGE_SIZE ->
       byte_at s' (Z.of_nat q * PAGE_SIZE + Z.of_nat k) =
       if decide (q = p) then default Byte.x00 (data !! k)
       else byte_at s (Z.of_nat q * PAGE_SIZE + Z.of_nat k)).
Proof.
  intros (Hwf & Hacc & Hplan & Hcap) Hlt Hmax Hdata.
  assert (Hp : 0 <= Z.of_nat p < max_pages d) by lia.
  assert (Hlen : (p < length (pages s))%nat).
  { rewrite (wf_store_length s Hwf). lia. }
  assert (Hrun : submit d WRITE (8 * Z.of_nat p) [page_seg data] s
                 = Done (BLK_STS_OK, [page_seg data]) (store_page p data s)).
  { rewrite submit_unfold, page_cursor_start by exact Hp. unfold bind.
    rewrite for_each_segment_cons. unfold bind.
    rewrite segment_write_page by assumption. destruct d; reflexivity. }
  exists (store_page p data s). split; [exact Hrun|].
  pose proof (exec_accounted d (OpSubmit WRITE (8 * Z.of_nat p) [page_seg data]) s Hacc)
    as Hacc'.
  pose proof (exec_J s (proj1 Hwf) d (OpSubmit WRITE (8 * Z.of_nat p) [page_seg data]) s)
    as Hgrow.
  cbn [exec] in Hacc', Hgrow. unfold bind in Hacc', Hgrow. rewrite Hrun in Hacc', Hgrow.
  cbn [ret] in Hacc', Hgrow.
  assert (Hg : grows s (store_page p data s)).
  { apply Hgrow. unfold reached_from. reflexivity. }
  split; [|split; [exact Hg | split]].
  - split; [apply store_page_wf; assumption|].
    split; [exact Hacc'|]. split; [apply store_page_plan, Hplan|].
    rewrite store_page_capacity. exact Hcap.
  - intros f. unfold store_page.
    assert (Hens : (page_refs s f <= page_refs (ensure_frame p s) f)%nat).
    { unfold ensure_frame. destruct (pages s !! p) as [[g|]|]; try lia.
      unfold page_refs, refs_in. simpl_machine.
      destruct (physmem s !! f) as [pg|] eqn:Hpg.
      - rewrite (lookup_app_l_Some _ _ _ _ Hpg). lia.
      - cbn. lia. }
    destruct (pages (ensure_frame p s) !! p) as [[g|]|]; try exact Hens.
    unfold put_bytes. destruct (physmem (ensure_frame p s) !! g) as [pg|] eqn:Hg';
      [|exact Hens].
    rewrite page_refs_update by eauto using lookup_lt_Some.
    destruct (decide (f = g)) as [->|_]; [|exact Hens].
    cbn [page_count]. unfold page_refs, refs_in in Hens |- *. rewrite Hg' in Hens.
    exact Hens.
  - intros q k Hk. rewrite !byte_at_page by exact Hk.
    destruct (decide (q = p)) as [->|Hne].
    + rewrite content_store_page_same by assumption. reflexivity.
    + rewrite content_store_page_other by assumption. reflexivity.
Qed.

(** ** The end of a mapping *)

Lemma put_pages_spec l :
  forall s,
    NoDup l -> (forall f, f ∈ l -> (1 <= page_refs s f)%nat) ->
    put_pages l s = Done tt (set_physmem (drop_refs l (physmem s)) s).
Proof.
  induction l as [|pfn l IH]; intros s Hnd Hrefs.
  - cbn. destruct s; reflexivity.
  - apply NoDup_cons in Hnd as [Hnot Hnd].
    cbn [put_pages]. unfold bind, put_page.
    rewrite free_page_held by (apply Hrefs, elem_of_cons; auto).
    rewrite IH; [reflexivity | exact Hnd |].
    intros f Hf. unfold page_refs. simpl_machine.
    rewrite refs_in_drop_ref, decide_False by (intros ->; contradiction).
    apply Hrefs, elem_of_cons. auto.
Qed.

Lemma byte_at_same_bytes s s' :
  pages s' = pages s ->
  (forall f, page_bytes <$> physmem s' !! f = page_bytes <$> physmem s !! f) ->
  forall a, byte_at s' a = byte_at s a.
Proof.
  intros Hp Hb a. unfold byte_at, content. rewrite Hp.
  destruct (pages s !! _) as [[f|]|]; try reflexivity. rewrite Hb. reflexivity.
Qed.

(** Unmapping gives back the reference of every page-table entry, and
    that is all it does. *)
Lemma unmap_spec ptes s :
  map_ok ptes s ->
  exists s',
    unmap ptes s = Done tt s' /\
    store_ok s' /\ same_table s s' /\
    (forall a, byte_at s' a = byte_at s a) /\
    (forall f, page_refs s' f =
               if decide (f ∈ mapped_frames ptes)
               then Nat.pred (page_refs s f) else page_refs s f).
Proof.
  intros [(Hwf & Hacc & Hplan & Hcap) Hptes].
  pose proof (mapped_frames_NoDup ptes s Hwf Hptes) as Hnd.
  set (l := mapped_frames ptes) in *.
  assert (Hheld : forall f, f ∈ l -> (2 <= page_refs s f)%nat).
  { intros f Hf. apply elem_of_mapped_frames in Hf as [pg Hpg].
    apply (Hptes pg f Hpg). }
  exists (set_physmem (drop_refs l (physmem s)) s).
  assert (Hrefs : forall f,
             page_refs (set_physmem (drop_refs l (physmem s)) s) f =
             if decide (f ∈ l) then Nat.pred (page_refs s f) else page_refs s f).
  { intros f. unfold page_refs. simpl_machine. apply refs_in_drop_refs, Hnd. }
  split; [|split; [|split; [split; reflexivity | split; [|exact Hrefs]]]].
  - unfold unmap. fold l. apply put_pages_spec; [exact Hnd|].
    intros f Hf. specialize (Hheld f Hf). lia.
  - split; [|split; [|split; [exact Hplan | exact Hcap]]].
    + destruct Hwf as (Hok & Hfr & Hinj). split; [exact Hok|]. split; [|exact Hinj].
      intros i pfn Hi. simpl_machine. destruct (Hfr i pfn Hi) as (pg & Hpg & Hlen).
      pose proof (bytes_drop_refs l (physmem s) pfn) as Hb. rewrite Hpg in Hb.
      destruct (drop_refs l (physmem s) !! pfn) as [pg'|]; [|discriminate Hb].
      exists pg'. split; [reflexivity|]. cbn in Hb. injection Hb as ->. exact Hlen.
    + destruct Hacc as [HA HB]. split.
      * intros i pfn Hi. rewrite Hrefs. specialize (HA i pfn Hi).
        destruct (decide (pfn ∈ l)) as [Hin|_]; [|exact HA].
        specialize (Hheld pfn Hin). lia.
      * intros pfn Hlt. simpl_machine. rewrite length_drop_refs in Hlt.
        apply HB, Hlt.
  - apply byte_at_same_bytes; [reflexivity|]. intros f. apply bytes_drop_refs.
Qed.

(** ** [test.c] *)

Lemma mmap_accepts d base s :
  wf_store s -> ramjam_pages s < 2 ^ 32 ->
  0 <= base -> base + MAP_LEN < 2 ^ 64 ->
  (d = bio_based -> MAP_LEN <= ramjam_pages s * PAGE_SIZE) ->
  mmap d (mkvma base (base + MAP_LEN) 0 false) s
  = Done (0, mkvma base (base + MAP_LEN) 0 true) s.
Proof.
  intros Hwf Hcap Hbase Hend Hfit. destruct d; cbn [mmap]; [reflexivity|].
  assert (HM : MAP_LEN = 536870912) by reflexivity.
  rewrite rramjam_mmap_validates; cbn [vm_start vm_end vm_pgoff]; try lia.
  - destruct (Z.ltb_spec (ramjam_pages s * PAGE_SIZE)
                (0 * PAGE_SIZE + (base + MAP_LEN - base))) as [Hlt|_];
      [|reflexivity].
    specialize (Hfit eq_refl). lia.
  - destruct Hwf as ([H0 _] & _). lia.
Qed.

Lemma mmap_refuses base s :
  wf_store s -> ramjam_pages s < 2 ^ 32 ->
  0 <= base -> base + MAP_LEN < 2 ^ 64 ->
  ramjam_pages s * PAGE_SIZE < MAP_LEN ->
  mmap bio_based (mkvma base (base + MAP_LEN) 0 false) s
  = Done (- EINVAL, mkvma base (base + MAP_LEN) 0 false) s.
Proof.
  intros Hwf Hcap Hbase Hend Hfit. cbn [mmap].
  assert (HM : MAP_LEN = 536870912) by reflexivity.
  rewrite rramjam_mmap_validates; cbn [vm_start vm_end vm_pgoff]; try lia.
  - destruct (Z.ltb_spec (ramjam_pages s * PAGE_SIZE)
                (0 * PAGE_SIZE + (base + MAP_LEN - base))) as [_|Hge];
      [reflexivity | lia].
  - destruct Hwf as ([H0 _] & _). lia.
Qed.

Lemma ptes_ok_empty s : ptes_ok ∅ s.
Proof. intros pg pfn H. rewrite lookup_empty in H. discriminate H. Qed.

(** ** Helpers for the statements below *)

Lemma ramjam_init_store_ok n plan :
  0 <= n < 2 ^ 32 -> Forall (fun b => b = true) plan ->
  store_ok (ramjam_init n plan).
Proof.
  intros Hn Hplan. split; [apply ramjam_init_wf; lia|].
  split; [apply ramjam_init_accounted|]. split; [exact Hplan | cbn; lia].
Qed.

Lemma allocated_fill (l : list (option nat)) (p : nat) f :
  l !! p = Some None ->
  length (omap id (<[p := Some f]> l)) = S (length (omap id l)).
Proof.
  revert p. induction l as [|e l IH]; intros p Hp; [discriminate Hp|].
  destruct p as [|p].
  - cbn in Hp. injection Hp as ->. reflexivity.
  - cbn in Hp. cbn [insert list_insert]. fold (insert (M := list (option nat)) p (Some f) l).
    specialize (IH p Hp). destruct e as [g|]; csimpl in *; [f_equal|]; exact IH.
Qed.

Lemma payloads_zero_filled segs :
  Forall wf_bvec segs ->
  Forall (fun b => b = Byte.x00) (payloads (map zero_filled segs)).
Proof.
  induction 1 as [|bv segs Hbv _ IH]; [constructor|].
  unfold payloads. cbn [map concat]. apply Forall_app. split; [|exact IH].
  rewrite payload_zero_filled by exact Hbv. unfold zero_bytes.
  apply Forall_replicate. reflexivity.
Qed.

Lemma lookup_table_empty (l : list (option nat)) (i : nat) :
  Forall (fun e => e = None) l -> (i < length l)%nat -> l !! i = Some None.
Proof.
  intros Hall Hlt. destruct (lookup_lt_is_Some_2 l i Hlt) as [e He].
  rewrite He. f_equal. apply (proj1 (Forall_lookup _ l) Hall i e He).
Qed.

Lemma for_each_segment_read_empty d segs :
  forall cur s,
    table_ok s -> Forall (fun e => e = None) (pages s) ->
    Forall wf_bvec segs ->
    for_each_segment d READ cur segs s = Done (map zero_filled segs) s.
Proof.
  induction segs as [|bv rest IH]; intros cur s Hok Hall Hsegs.
  - destruct d; reflexivity.
  - apply Forall_cons in Hsegs as [Hbv Hrest].
    rewrite for_each_segment_cons. unfold bind.
    assert (Hseg : segment d READ cur bv s = Done (zero_filled bv) s).
    { destruct (Z.le_gt_cases (ramjam_pages s) (seg_index d cur bv)) as [Hge|Hlt].
      - apply (segment_out_of_range d READ cur bv s Hbv Hge).
      - apply segment_read_unallocated; [exact Hbv|].
        apply lookup_table_empty; [exact Hall|].
        pose proof (seg_index_nonneg d cur bv). destruct Hok as [H0 Hlen]. lia. }
    rewrite Hseg, (IH _ s Hok Hall Hrest). reflexivity.
Qed.

Lemma u32_range x : 0 <= u32 x < 2 ^ 32.
Proof. unfold u32. apply Z.mod_pos_bound. lia. Qed.

Lemma fault_at_index d pgoff s :
  0 <= pgoff ->
  fault d pgoff s = fault d (Z.of_nat (Z.to_nat (fault_index d pgoff))) s.
Proof.
  intros Hpg. destruct d; cbn [fault fault_index].
  - rewrite Z2Nat.id by exact Hpg. reflexivity.
  - pose proof (u32_range pgoff). rewrite Z2Nat.id by lia.
    unfold Bio.ramjam_vm_fault. rewrite (u32_small (u32 pgoff)) by lia. reflexivity.
Qed.

Lemma fault_index_nonneg d pgoff : 0 <= pgoff -> 0 <= fault_index d pgoff.
Proof. intros H. destruct d; [exact H | apply u32_nonneg]. Qed.

Lemma fault_index_bio d pgoff :
  0 <= pgoff -> d = bio_based -> fault_index d pgoff < 2 ^ 32.
Proof. intros _ ->. apply u32_range. Qed.

Lemma ptes_ok_grows ptes s s' :
  grows s s' -> (forall f, (page_refs s f <= page_refs s' f)%nat) ->
  ptes_ok ptes s -> ptes_ok ptes s'.
Proof.
  intros Hgrow Hmono Hptes pg pfn Hl.
  destruct (Hptes pg pfn Hl) as (Hpos & Hp & Hr).
  split; [exact Hpos|]. split; [apply Hgrow, Hp|]. specialize (Hmono pfn). lia.
Qed.

Lemma bio_init_capacity k n :
  disk_capacity (snd (BioModule.ramjam_init k n)) = capacity_sectors n \/
  disk_capacity (snd (BioModule.ramjam_init k n)) = 0.
Proof.
  unfold BioModule.ramjam_init.
  destruct (k K_vcalloc); [right; reflexivity|].
  destruct (k K_alloc_chrdev_region); [right; reflexivity|].
  destruct (k K_class_create); [right; reflexivity|].
  destruct (k K_cdev_add); [right; reflexivity|].
  destruct (k K_device_create); [right; reflexivity|].
  destruct (k K_register_blkdev); [right; reflexivity|].
  destruct (k K_blk_mq_alloc_tag_set); [right; reflexivity|].
  destruct (k K_blk_mq_alloc_disk); [right; reflexivity|].
  destruct (k K_add_disk); [right; reflexivity | left; reflexivity].
Qed.

Lemma seg_pg_idx_small sector :
  0 <= sector < 2 ^ 35 -> Bio.seg_pg_idx sector = sector / 8.
Proof.
  intros Hs. unfold Bio.seg_pg_idx, SECTOR_SHIFT, PAGE_SHIFT.
  rewrite Z.shiftl_mul_pow2, Z.shiftr_div_pow2 by lia.
  change (2 ^ 9) with 512. change (2 ^ 12) with 4096.
  rewrite u64_small by lia.
  replace (sector * 512 / 4096) with (sector / 8).
  - apply u32_small. split; [apply Z.div_pos; lia|].
    apply Z.div_lt_upper_bound; lia.
  - replace 4096 with (512 * 8) by reflexivity.
    rewrite <- Z.div_div by lia. rewrite Z.div_mul by lia. reflexivity.
Qed.

Lemma bio_sectors_nonneg segs :
  Forall (fun bv => 512 <= bv_len bv) segs -> 0 <= bio_sectors segs.
Proof.
  induction 1 as [|bv segs Hbv _ IH]; [reflexivity|].
  cbn [bio_sectors foldr]. fold (bio_sectors segs).
  pose proof (Z.shiftr_nonneg (bv_len bv) SECTOR_SHIFT). lia.
Qed.

Lemma seg_sectors_pos bv : 512 <= bv_len bv -> 1 <= Z.shiftr (bv_len bv) SECTOR_SHIFT.
Proof.
  intros H. unfold SECTOR_SHIFT. rewrite Z.shiftr_div_pow2 by lia.
  change (2 ^ 9) with 512. apply Z.div_le_lower_bound; lia.
Qed.

Lemma bio_indices_in_table n segs :
  forall sector,
    0 <= n < 2 ^ 32 -> 0 <= sector ->
    Forall (fun bv => 512 <= bv_len bv) segs ->
    sector + bio_sectors segs <= 8 * n ->
    Forall (fun i => 0 <= i < n) (seg_indices bio_based sector segs).
Proof.
  induction segs as [|bv rest IH]; intros sector Hn Hs Hsegs Hfit; [constructor|].
  apply Forall_cons in Hsegs as [Hbv Hrest].
  cbn [bio_sectors foldr] in Hfit. fold (bio_sectors rest) in Hfit.
  pose proof (bio_sectors_nonneg rest Hrest) as Hnn.
  pose proof (seg_sectors_pos bv Hbv) as Hpos.
  cbn [seg_indices seg_index next_cursor]. constructor.
  - rewrite seg_pg_idx_small by lia. split; [apply Z.div_pos; lia|].
    apply Z.div_lt_upper_bound; lia.
  - rewrite u64_small by lia. apply IH; try assumption; lia.
Qed.

Lemma file_addr_0 vma off : vm_pgoff vma = 0 -> file_addr vma off = off.
Proof. intros H. unfold file_addr. rewrite H. lia. Qed.

(** ** A mapping's references are given back

    The lemmas of this part hold for every access, whether it succeeds or
    ends in a signal. *)

Lemma mapped_frames_insert (ptes : ptes_t) pg pfn f :
  ptes !! pg = None ->
  f ∈ mapped_frames (<[pg := pfn]> ptes) <-> f = pfn \/ f ∈ mapped_frames ptes.
Proof.
  intros Hnone. rewrite !elem_of_mapped_frames. split.
  - intros [pg' Hl]. destruct (decide (pg' = pg)) as [->|Hne].
    + rewrite lookup_insert_eq in Hl. injection Hl as <-. auto.
    + rewrite lookup_insert_ne in Hl by congruence. eauto.
  - intros [->|[pg' Hl]].
    + exists pg. apply lookup_insert_eq.
    + exists pg'. rewrite lookup_insert_ne; [exact Hl|]. congruence.
Qed.

Lemma refs_balanced_same ptes s0 s s' :
  (forall f, page_refs s' f = page_refs s f) ->
  length (physmem s') = length (physmem s) ->
  refs_balanced ptes s0 s -> refs_balanced ptes s0 s'.
Proof.
  intros Hrefs Hlen [Hle Hbal]. split; [lia|].
  intros f. rewrite Hrefs, Hlen. apply Hbal.
Qed.

Lemma refs_balanced_start s : refs_balanced ∅ s s.
Proof.
  split; [lia|]. intros f.
  rewrite (decide_False (P := f ∈ mapped_frames ∅)).
  - destruct (decide (f < length (physmem s))%nat) as [_|Hge]; [lia|].
    unfold page_refs, refs_in. rewrite lookup_ge_None_2 by lia. reflexivity.
  - intros H. apply elem_of_mapped_frames in H as [pg H].
    rewrite lookup_empty in H. discriminate H.
Qed.

(** Any access: it ends, with a frame or a signal, and keeps the page
    table of the process in step with the store. *)
Lemma touch_total d vma ptes off s s0 :
  map_ok ptes s -> refs_balanced ptes s0 s ->
  0 <= vm_pgoff vma ->
  vm_pgoff vma + Z.shiftr (vm_end vma - vm_start vma) PAGE_SHIFT < 2 ^ 32 ->
  exists r ptes' s',
    touch d vma ptes off s = Done (r, ptes') s' /\
    map_ok ptes' s' /\ refs_balanced ptes' s0 s' /\
    ramjam_pages s' = ramjam_pages s /\
    (forall pfn, r = Ok pfn -> exists p : nat, pages s' !! p = Some (Some pfn)) /\
    (forall sg, r = Sig sg -> 0 <= off < vm_end vma - vm_start vma -> sg = SIGBUS).
Proof.
  intros [Hs Hptes] Hbal Hpg Hsize. unfold touch.
  destruct (Z.leb_spec 0 off) as [Hoff|Hoff]; cbn [andb].
  2:{ exists (Sig SIGSEGV), ptes, s. split; [reflexivity|].
      split; [split; assumption|]. split; [exact Hbal|].
      split; [reflexivity|]. split; [intros pfn [=] | intros sg _ ?; lia]. }
  destruct (Z.ltb_spec off (vm_end vma - vm_start vma)) as [Hin|Hout].
  2:{ exists (Sig SIGSEGV), ptes, s. split; [reflexivity|].
      split; [split; assumption|]. split; [exact Hbal|].
      split; [reflexivity|]. split; [intros pfn [=] | intros sg _ ?; lia]. }
  set (pg := vm_pgoff vma + Z.shiftr off PAGE_SHIFT).
  assert (Hpgr : 0 <= pg < 2 ^ 32).
  { unfold pg. pose proof (Z.shiftr_nonneg off PAGE_SHIFT).
    assert (Z.shiftr off PAGE_SHIFT <= Z.shiftr (vm_end vma - vm_start vma) PAGE_SHIFT).
    { unfold PAGE_SHIFT. rewrite !Z.shiftr_div_pow2 by lia.
      apply Z.div_le_mono; lia. }
    lia. }
  rewrite u64_small by lia.
  destruct (ptes !! pg) as [pfn|] eqn:Hpte.
  - exists (Ok pfn), ptes, s. split; [reflexivity|].
    split; [split; assumption|]. split; [exact Hbal|]. split; [reflexivity|].
    split; [|intros sg [=]].
    intros pfn' [= <-]. exists (Z.to_nat pg). apply (Hptes pg pfn Hpte).
  - destruct (vm_ops vma).
    2:{ exists (Sig SIGBUS), ptes, s. split; [reflexivity|].
        split; [split; assumption|]. split; [exact Hbal|].
        split; [reflexivity|]. split; [intros pfn [=] | intros sg [= <-] _; reflexivity]. }
    destruct (Z.lt_ge_cases pg (ramjam_pages s)) as [Hlt|Hge].
    + destruct (fault_resolves d (Z.to_nat pg) s Hs) as
        (pfn & s' & Hf & Hs' & Hgrow & Hslot & Hrefs & Hmono & Hbytes & Hnew & Hlens & Hexact).
      { rewrite Z2Nat.id; lia. }
      rewrite Z2Nat.id in Hf by lia.
      exists (Ok pfn), (<[pg := pfn]> ptes), s'. unfold bind. rewrite Hf.
      split; [reflexivity|].
      assert (Hfresh : pfn ∉ mapped_frames ptes).
      { intros Hin'. apply elem_of_mapped_frames in Hin' as [pg' Hl].
        destruct (Hptes pg' pfn Hl) as (Hpos & Hp' & _).
        pose proof (proj2 (proj2 (proj1 Hs')) _ _ pfn (proj2 (proj2 Hgrow) _ _ Hp') Hslot)
          as Heq.
        assert (pg' = pg) by lia. subst pg'. rewrite Hpte in Hl. discriminate Hl. }
      split; [|split; [|split; [apply Hgrow | split; [|intros sg [=]]]]].
      * split; [exact Hs'|]. intros pg' pfn' Hl.
        destruct (decide (pg' = pg)) as [->|Hne].
        -- rewrite lookup_insert_eq in Hl. injection Hl as <-.
           split; [lia | split; assumption].
        -- rewrite lookup_insert_ne in Hl by congruence.
           destruct (Hptes pg' pfn' Hl) as (Hpos & Hp' & Hr').
           split; [exact Hpos | split].
           ++ apply Hgrow, Hp'.
           ++ specialize (Hmono pfn'). lia.
      * destruct Hbal as [Hle Hbal]. split.
        { destruct (le_lt_dec (length (physmem s)) (length (physmem s'))) as [|Hx]; [lia|].
          destruct (decide (length (physmem s') = pfn)) as [E|E]; [lia|].
          pose proof (proj2 (Hlens _ E) Hx). lia. }
        intros f. rewrite Hexact.
        destruct (decide (f = pfn)) as [->|Hne].
        -- specialize (Hbal pfn).
           assert (Hm : pfn ∈ mapped_frames (<[pg:=pfn]> ptes))
             by (apply mapped_frames_insert; auto).
           repeat case_decide; try lia; contradiction.
        -- rewrite Hbal.
           assert (Hm : (f ∈ mapped_frames (<[pg:=pfn]> ptes)) <-> (f ∈ mapped_frames ptes)).
           { rewrite mapped_frames_insert by exact Hpte. tauto. }
           pose proof (Hlens f Hne) as Hl.
           repeat case_decide; first [reflexivity | lia | exfalso; tauto].
      * intros pfn' [= <-]. exists (Z.to_nat pg). exact Hslot.
    + assert (Hfault : fault d pg s = Done (VM_FAULT_SIGBUS, None) s).
      { destruct d; cbn [fault].
        - apply (proj1 (ramjam_vma_fault_errors pg s)). lia.
        - apply (proj1 (ramjam_vm_fault_errors pg s)). rewrite u32_small; lia. }
      exists (Sig SIGBUS), ptes, s. unfold bind. rewrite Hfault.
      split; [reflexivity|]. split; [split; assumption|]. split; [exact Hbal|].
      split; [reflexivity|]. split; [intros pfn [=] | intros sg [= <-] _; reflexivity].
Qed.

Lemma mod_page_range off : 0 <= off mod PAGE_SIZE < PAGE_SIZE.
Proof. apply Z.mod_pos_bound. rewrite page_size_val. lia. Qed.

Lemma memcpy_to_map_total d vma s0 src off order :
  forall ptes s,
    map_ok ptes s -> refs_balanced ptes s0 s ->
    0 <= vm_pgoff vma ->
    vm_pgoff vma + Z.shiftr (vm_end vma - vm_start vma) PAGE_SHIFT < 2 ^ 32 ->
    exists r ptes' s',
      memcpy_to_map d vma ptes off src order s = Done (r, ptes') s' /\
      map_ok ptes' s' /\ refs_balanced ptes' s0 s' /\
      ramjam_pages s' = ramjam_pages s /\
      (0 <= off -> off + Z.of_nat (length src) <= vm_end vma - vm_start vma ->
       r = Ok tt \/ r = Sig SIGBUS).
Proof.
  induction order as [|k rest IH]; intros ptes s Hok Hbal Hpg Hsize.
  - exists (Ok tt), ptes, s.
    split; [reflexivity | split; [assumption | split; [assumption | split; [reflexivity | auto]]]].
  - cbn [memcpy_to_map]. destruct (src !! k) as [b|] eqn:Hk; [|apply IH; assumption].
    assert (Hkn : (k < length src)%nat) by (eapply lookup_lt_Some; eauto).
    unfold bind at 1.
    destruct (touch_total d vma ptes (off + Z.of_nat k) s s0 Hok Hbal Hpg Hsize) as
      (r & ptes1 & s1 & Ht & [Hs1 Hptes1] & Hbal1 & Hcap1 & Hfr & Hsg).
    rewrite Ht. cbv beta iota. destruct r as [pfn|sg].
    + destruct (Hfr pfn eq_refl) as [p Hslot].
      destruct (user_store_byte p pfn ((off + Z.of_nat k) mod PAGE_SIZE) b s1 Hs1 Hslot
                  (mod_page_range _)) as (s2 & Hst & Hs2 & Htab & Hrefs & _ & Hlen).
      unfold bind at 1. rewrite Hst.
      destruct (IH ptes1 s2) as (r3 & ptes3 & s3 & Hrun & Hok3 & Hbal3 & Hcap3 & Hres);
        try assumption.
      * split; [exact Hs2|]. apply (map_ok_same_table ptes1 s1 s2); assumption.
      * apply (refs_balanced_same ptes1 s0 s1 s2); assumption.
      * exists r3, ptes3, s3. split; [exact Hrun|]. split; [exact Hok3|].
        split; [exact Hbal3|]. split; [|exact Hres].
        rewrite Hcap3, (proj1 Htab), Hcap1. reflexivity.
    + exists (Sig sg), ptes1, s1. split; [reflexivity|].
      split; [split; assumption|]. split; [assumption|]. split; [assumption|].
      intros Hoff Harea. right. f_equal. apply Hsg; [reflexivity | lia].
Qed.

Lemma memcpy_from_map_total d vma s0 off (n : nat) order :
  forall dst ptes s,
    map_ok ptes s -> refs_balanced ptes s0 s ->
    0 <= vm_pgoff vma ->
    vm_pgoff vma + Z.shiftr (vm_end vma - vm_start vma) PAGE_SHIFT < 2 ^ 32 ->
    exists r ptes' s',
      memcpy_from_map d vma ptes off dst n order s = Done (r, ptes') s' /\
      map_ok ptes' s' /\ refs_balanced ptes' s0 s' /\
      ramjam_pages s' = ramjam_pages s /\
      (0 <= off -> off + Z.of_nat n <= vm_end vma - vm_start vma ->
       (n <= length dst)%nat ->
       (exists dst', r = Copied dst' /\ length dst' = length dst) \/ r = Stopped SIGBUS).
Proof.
  induction order as [|k rest IH]; intros dst ptes s Hok Hbal Hpg Hsize.
  - exists (Copied dst), ptes, s.
    split; [reflexivity | split; [assumption | split; [assumption | split; [reflexivity|]]]].
    intros _ _ _. left. eauto.
  - cbn [memcpy_from_map]. destruct (Nat.ltb_spec k n) as [Hkn|Hkn]; [|apply IH; assumption].
    unfold bind at 1.
    destruct (touch_total d vma ptes (off + Z.of_nat k) s s0 Hok Hbal Hpg Hsize) as
      (r & ptes1 & s1 & Ht & [Hs1 Hptes1] & Hbal1 & Hcap1 & Hfr & Hsg).
    rewrite Ht. cbv beta iota. destruct r as [pfn|sg].
    + destruct (Hfr pfn eq_refl) as [p Hslot].
      unfold bind at 1.
      rewrite (user_load_byte p pfn ((off + Z.of_nat k) mod PAGE_SIZE) s1 Hs1 Hslot
                 (mod_page_range _)).
      destruct (Nat.ltb_spec k (length dst)) as [Hkd|Hkd].
      * destruct (IH (blit dst (Z.of_nat k)
                        [byte_at s1 (Z.of_nat p * PAGE_SIZE + (off + Z.of_nat k) mod PAGE_SIZE)])
                     ptes1 s1 (conj Hs1 Hptes1) Hbal1 Hpg Hsize) as
          (r2 & ptes2 & s2 & Hrun & Hok2 & Hbal2 & Hcap2 & Hres).
        exists r2, ptes2, s2. split; [exact Hrun|]. split; [exact Hok2|].
        split; [exact Hbal2|]. split; [rewrite Hcap2, Hcap1; reflexivity|].
        intros Hoff Harea Hfit. rewrite blit_one, length_insert in Hres by lia.
        apply Hres; assumption.
      * exists PastEnd, ptes1, s1. split; [reflexivity|].
        split; [split; assumption|]. split; [assumption|]. split; [assumption|].
        intros _ _ Hfit. lia.
    + exists (Stopped sg), ptes1, s1. split; [reflexivity|].
      split; [split; assumption|]. split; [assumption|]. split; [assumption|].
      intros Hoff Harea _. right. f_equal. apply Hsg; [reflexivity | lia].
Qed.

(** After the mapping has gone, the frames have the references they had
    before it came, and the frames allocated meanwhile have the table's. *)
Lemma unmap_balanced ptes s0 s :
  map_ok ptes s -> refs_balanced ptes s0 s ->
  exists s',
    unmap ptes s = Done tt s' /\
    store_ok s' /\
    (forall a, byte_at s' a = byte_at s a) /\
    length (physmem s') = length (physmem s) /\
    (forall f, (f < length (physmem s0))%nat -> page_refs s' f = page_refs s0 f) /\
    (forall f, (length (physmem s0) <= f < length (physmem s'))%nat ->
       page_refs s' f = 1%nat) /\
    ramjam_pages s' = ramjam_pages s.
Proof.
  intros Hok [Hle Hbal].
  destruct (unmap_spec ptes s Hok) as (s' & Hun & Hs' & Htab & Hbytes & Hrefs).
  assert (Hlen : length (physmem s') = length (physmem s)).
  { unfold unmap in Hun. destruct Hok as [(Hwf & _) Hptes].
    rewrite put_pages_spec in Hun.
    - injection Hun as <-. simpl_machine. apply length_drop_refs.
    - apply (mapped_frames_NoDup ptes s Hwf Hptes).
    - intros f Hf. apply elem_of_mapped_frames in Hf as [pg Hpg].
      destruct (Hptes pg f Hpg) as (_ & _ & ?). lia. }
  exists s'. split; [exact Hun|]. split; [exact Hs'|]. split; [exact Hbytes|].
  split; [exact Hlen|]. split; [|split; [|apply Htab]].
  - intros f Hf. rewrite Hrefs, Hbal.
    repeat case_decide; lia.
  - intros f Hf. rewrite Hrefs, Hbal. rewrite Hlen in Hf.
    repeat case_decide; lia.
Qed.

Lemma test_finish ptes s0 s1 (res : proc_result) :
  map_ok ptes s1 -> refs_balanced ptes s0 s1 ->
  exists s',
    (let* _ := unmap ptes in ret res) s1 = Done res s' /\
    store_ok s' /\
    (forall f, (f < length (physmem s0))%nat -> page_refs s' f = page_refs s0 f) /\
    (forall f, (length (physmem s0) <= f < length (physmem s'))%nat ->
       page_refs s' f = 1%nat) /\
    ramjam_pages s' = ramjam_pages s1.
Proof.
  intros Hok Hbal.
  destruct (unmap_balanced ptes s0 s1 Hok Hbal)
    as (s' & Hun & Hs' & _ & _ & Hold & Hnew & Hcap).
  exists s'. unfold bind. rewrite Hun. split; [reflexivity|].
  split; [exact Hs' | split; [assumption | split; assumption]].
Qed.

Lemma test_vma_small base :
  0 + Z.shiftr (base + MAP_LEN - base) PAGE_SHIFT < 2 ^ 32.
Proof.
  replace (base + MAP_LEN - base) with MAP_LEN by lia. vm_compute. reflexivity.
Qed.

(** A run of [main] always ends, and its references are given back.
    When its copies stay within the mapping and within [buf2], it ends
    by [exit] or by a SIGBUS. *)
Lemma test_main_total d base args input order_w order_r s :
  store_ok s -> 0 <= base -> base + MAP_LEN < 2 ^ 64 ->
  exists r s',
    test_main d base args input order_w order_r s = Done r s' /\
    store_ok s' /\
    (forall f, (f < length (physmem s))%nat -> page_refs s' f = page_refs s f) /\
    (forall f, (length (physmem s) <= f < length (physmem s'))%nat ->
       page_refs s' f = 1%nat) /\
    ramjam_pages s' = ramjam_pages s /\
    (0 <= default 0 (args !! 1%nat) ->
     default 0 (args !! 1%nat) + BUF_LEN <= MAP_LEN ->
     0 <= default BUF_LEN (args !! 2%nat) <= BUF_LEN ->
     (exists status out, r = Exited status out) \/ r = Killed SIGBUS).
Proof.
  intros Hs Hbase Hend.
  assert (Hmmap :
    mmap d (mkvma base (base + MAP_LEN) 0 false) s
      = Done (0, mkvma base (base + MAP_LEN) 0 true) s \/
    mmap d (mkvma base (base + MAP_LEN) 0 false) s
      = Done (- EINVAL, mkvma base (base + MAP_LEN) 0 false) s).
  { destruct (Z.le_gt_cases MAP_LEN (ramjam_pages s * PAGE_SIZE)) as [Hfit|Hsmall].
    - left. apply mmap_accepts; try assumption; [apply Hs | apply Hs | auto].
    - destruct d.
      + left. reflexivity.
      + right. apply mmap_refuses; try assumption; apply Hs. }
  unfold test_main. unfold bind at 1.
  destruct Hmmap as [Hm|Hm]; rewrite Hm; cbv beta iota.
  2:{ change (negb (- EINVAL =? 0)) with true. cbv beta iota.
      exists (Exited EXIT_FAILURE []), s. split; [reflexivity|].
      split; [exact Hs|]. split; [reflexivity|].
      split; [intros f Hf; lia|]. split; [reflexivity|]. intros _ _ _. left. eauto. }
  change (negb (0 =? 0)) with false. cbv beta iota.
  set (vma := mkvma base (base + MAP_LEN) 0 true).
  set (offset := default 0 (args !! 1%nat)).
  set (cnt0 := default BUF_LEN (args !! 2%nat)).
  set (buf := take (Z.to_nat BUF_LEN) input).
  assert (Hbuf : Z.of_nat (length buf) <= BUF_LEN).
  { unfold buf. rewrite length_take. unfold BUF_LEN. lia. }
  assert (Hpg : 0 <= vm_pgoff vma) by (cbn; lia).
  assert (Hsize : vm_pgoff vma + Z.shiftr (vm_end vma - vm_start vma) PAGE_SHIFT < 2 ^ 32)
    by apply test_vma_small.
  assert (Hlenvma : vm_end vma - vm_start vma = MAP_LEN) by (cbn; lia).
  assert (Hstart : map_ok ∅ s) by (split; [exact Hs | apply ptes_ok_empty]).
  pose proof (refs_balanced_start s) as Hbal0.
  set (writes := negb (Z.land (default (Z.lor OP_READ OP_WRITE) (args !! 0%nat)) OP_WRITE =? 0)).
  assert (Hw : exists r1 ptes1 s1,
             (if writes then memcpy_to_map d vma ∅ offset buf order_w
              else ret (Ok tt, ∅)) s = Done (r1, ptes1) s1 /\
             map_ok ptes1 s1 /\ refs_balanced ptes1 s s1 /\
             ramjam_pages s1 = ramjam_pages s /\
             (0 <= offset -> offset + BUF_LEN <= MAP_LEN ->
              r1 = Ok tt \/ r1 = Sig SIGBUS)).
  { destruct writes.
    - destruct (memcpy_to_map_total d vma s buf offset order_w ∅ s Hstart Hbal0 Hpg Hsize)
        as (r1 & ptes1 & s1 & Hrun & Hok1 & Hbal1 & Hcap1 & Hres).
      exists r1, ptes1, s1. split; [exact Hrun|]. split; [exact Hok1|].
      split; [exact Hbal1|]. split; [exact Hcap1|].
      intros Hoff Hin. apply Hres; [exact Hoff | rewrite Hlenvma; lia].
    - exists (Ok tt), ∅, s.
      split; [reflexivity | split; [assumption | split; [assumption | split; [reflexivity | auto]]]]. }
  destruct Hw as (r1 & ptes1 & s1 & Hw & Hok1 & Hbal1 & Hcap1 & Hres1).
  unfold bind at 1. rewrite Hw. cbv beta iota.
  assert (Hfin : forall ptes s2 (res : proc_result),
             map_ok ptes s2 -> refs_balanced ptes s s2 ->
             ramjam_pages s2 = ramjam_pages s ->
             (0 <= offset -> offset + BUF_LEN <= MAP_LEN -> 0 <= cnt0 <= BUF_LEN ->
              (exists status out, res = Exited status out) \/ res = Killed SIGBUS) ->
             exists r s',
               (let* _ := unmap ptes in ret res) s2 = Done r s' /\
               store_ok s' /\
               (forall f, (f < length (physmem s))%nat -> page_refs s' f = page_refs s f) /\
               (forall f, (length (physmem s) <= f < length (physmem s'))%nat ->
                  page_refs s' f = 1%nat) /\
               ramjam_pages s' = ramjam_pages s /\
               (0 <= offset -> offset + BUF_LEN <= MAP_LEN -> 0 <= cnt0 <= BUF_LEN ->
                (exists status out, r = Exited status out) \/ r = Killed SIGBUS)).
  { intros ptes s2 res Hok Hbal Hcap Hres.
    destruct (test_finish ptes s s2 res Hok Hbal) as (s' & Hrun & Hs' & Hold & Hnew & Hc).
    exists res, s'. split; [exact Hrun|]. split; [exact Hs'|].
    split; [exact Hold|]. split; [exact Hnew|]. split; [|exact Hres].
    rewrite Hc. exact Hcap. }
  destruct r1 as [[]|sg].
  2:{ apply Hfin; try assumption. intros Hoff Hin _.
      destruct (Hres1 Hoff Hin) as [E|E]; [discriminate E|]. right. congruence. }
  destruct (negb (Z.land _ OP_READ =? 0)).
  2:{ apply Hfin; try assumption. intros _ _ _. left. eauto. }
  set (cnt := if writes then Z.of_nat (length buf) else cnt0).
  destruct (memcpy_from_map_total d vma s offset (Z.to_nat (u64 cnt)) order_r
              (replicate (Z.to_nat BUF_LEN) Byte.x00) ptes1 s1 Hok1 Hbal1 Hpg Hsize)
    as (r2 & ptes2 & s2 & Hr & Hok2 & Hbal2 & Hcap2 & Hres2).
  unfold bind at 1. rewrite Hr. cbv beta iota.
  assert (Hkind : 0 <= offset -> offset + BUF_LEN <= MAP_LEN -> 0 <= cnt0 <= BUF_LEN ->
                  (exists dst', r2 = Copied dst') \/ r2 = Stopped SIGBUS).
  { intros Hoff Hin Hcnt.
    assert (Hc : 0 <= cnt <= BUF_LEN) by (unfold cnt; destruct writes; lia).
    assert (Hn : Z.of_nat (Z.to_nat (u64 cnt)) = cnt).
    { rewrite u64_small by (unfold BUF_LEN in Hc; lia). lia. }
    destruct Hres2 as [(dst' & E & _)|E]; [exact Hoff | rewrite Hn, Hlenvma; lia | | eauto | auto].
    rewrite length_replicate. lia. }
  destruct r2 as [buf2|sg|]; apply Hfin; try assumption; try congruence.
  - intros _ _ _. left. eauto.
  - intros Hoff Hin Hcnt. destruct (Hkind Hoff Hin Hcnt) as [[dst' E]|E]; [discriminate E|].
    right. congruence.
  - intros Hoff Hin Hcnt. destruct (Hkind Hoff Hin Hcnt) as [[dst' E]|E]; discriminate E.
Qed.

(** ** A segment on the byte array

    What the loop body of either handler does to the device seen as an
    array of bytes, for a segment of any alignment. *)

Lemma lookup_blit dst off src (k : nat) :
  0 <= off -> off + Z.of_nat (length src) <= Z.of_nat (length dst) ->
  blit dst off src !! k =
  if decide (Z.to_nat off <= k < Z.to_nat off + length src)%nat
  then src !! (k - Z.to_nat off)%nat
  else dst !! k.
Proof.
  intros H0 Hle. unfold blit.
  destruct (decide (k < Z.to_nat off)%nat) as [Hlt|Hge].
  - rewrite lookup_app_l by (rewrite length_take; lia).
    rewrite lookup_take_lt by lia. rewrite decide_False by lia. reflexivity.
  - rewrite lookup_app_r by (rewrite length_take; lia).
    rewrite length_take. replace (Z.to_nat off `min` length dst)%nat with (Z.to_nat off) by lia.
    destruct (decide (k - Z.to_nat off < length src)%nat) as [Hin|Hout].
    + rewrite lookup_app_l by exact Hin. rewrite decide_True by lia. reflexivity.
    + rewrite lookup_app_r by lia. rewrite decide_False by lia.
      rewrite lookup_drop. f_equal. lia.
Qed.

Lemma bvec_load_wf bv s : wf_bvec bv -> bvec_load bv s = Done (payload bv) s.
Proof.
  intros (Hbuf & Hoff & Hlen & Hsum). unfold bvec_load.
  rewrite in_bounds_true by lia. reflexivity.
Qed.

Lemma length_payload bv : wf_bvec bv -> Z.of_nat (length (payload bv)) = bv_len bv.
Proof.
  intros (Hbuf & Hoff & Hlen & Hsum). unfold payload. apply length_slice; lia.
Qed.

Lemma seg_offset_range d cur bv : 0 <= seg_offset d cur bv < PAGE_SIZE.
Proof. destruct d; apply mod_page_range. Qed.

Lemma seg_offset_bio_fits cur bv :
  wf_bvec bv -> seg_offset bio_based cur bv + bv_len bv <= PAGE_SIZE.
Proof. intros H. apply (store_offset_in_page bv H). Qed.

(** The lookup of a write: the page has its frame afterwards, and the
    copy goes to it. *)
Lemma segment_write_resolve d cur bv s pfn :
  wf_store s -> alloc_succeeds s ->
  seg_index d cur bv < ramjam_pages s ->
  pages (ensure_frame (Z.to_nat (seg_index d cur bv)) s)
    !! Z.to_nat (seg_index d cur bv) = Some (Some pfn) ->
  segment d WRITE cur bv s =
  (let* src := bvec_load bv in
   let* _ := page_write pfn (seg_offset d cur bv) src in
   ret bv) (ensure_frame (Z.to_nat (seg_index d cur bv)) s).
Proof.
  intros Hwf Hplan Hlt Hslot.
  pose proof (seg_index_nonneg d cur bv) as Hnn.
  set (idx := seg_index d cur bv) in *. set (p := Z.to_nat idx) in *.
  assert (Hidx : idx = Z.of_nat p) by (unfold p; lia).
  assert (Hlt' : Z.of_nat p < ramjam_pages s) by lia.
  assert (Hlen : (p < length (pages s))%nat).
  { apply lookup_lt_is_Some, table_slot; [apply Hwf | exact Hlt']. }
  destruct d; cbn [segment seg_index seg_offset] in *.
  - unfold Modern.rq_segment. fold idx. cbn [is_write]. unfold bind at 1.
    rewrite Hidx. rewrite (get_page_ensure s p pfn Hwf Hplan Hlt' Hslot). reflexivity.
  - destruct (table_slot s p (proj1 Hwf) Hlt') as [slot Hp].
    unfold Bio.bio_segment. fold idx. cbn [is_write].
    unfold bind at 1 2 3. unfold read_ramjam_pages, pages_load.
    destruct (Z.ltb_spec idx (ramjam_pages s)); [|lia].
    destruct (Z.ltb_spec idx 0); [lia|].
    fold p. rewrite Hp. unfold ensure_frame in *. rewrite Hp in *.
    destruct slot as [f|]; cbn [is_null andb ret].
    + assert (f = pfn) as -> by congruence. reflexivity.
    + unfold bind at 1 2. rewrite (alloc_page_succeeds s Hplan). unfold pages_store.
      destruct (Z.ltb_spec idx 0); [lia|].
      fold p. cbn [pages]. rewrite Hp.
      unfold set_pages. cbn [pages physmem ramjam_pages alloc_plan].
      cbn [pages] in Hslot.
      rewrite list_lookup_insert_eq in Hslot by exact Hlen. injection Hslot as <-.
      reflexivity.
Qed.

Lemma byte_at_ensure_frame p s a :
  wf_store s -> byte_at (ensure_frame p s) a = byte_at s a.
Proof.
  intros Hwf. unfold byte_at. set (q := Z.to_nat (Z.shiftr a PAGE_SHIFT)).
  destruct (decide (q = p)) as [->|Hne];
    [|rewrite content_ensure_frame_other by assumption; reflexivity].
  unfold ensure_frame, content.
  destruct (pages s !! p) as [[f|]|] eqn:Hp; rewrite ?Hp; try reflexivity.
  simpl_machine.
  rewrite list_lookup_insert_eq by eauto using lookup_lt_Some.
  rewrite list_lookup_middle by reflexivity.
  cbn [fmap option_fmap option_map page_bytes fresh_page].
  apply lookup_zero_bytes.
Qed.

(** A write segment whose page is within the device: its bytes land at
    [seg_lands], and no other byte of the device changes. *)
Lemma segment_write_bytes d cur bv s :
  store_ok s -> wf_bvec bv ->
  seg_index d cur bv < ramjam_pages s ->
  seg_offset d cur bv + bv_len bv <= PAGE_SIZE ->
  exists s',
    segment d WRITE cur bv s = Done bv s' /\
    store_ok s' /\ ramjam_pages s' = ramjam_pages s /\
    (forall a, 0 <= a ->
       byte_at s' a =
       if decide (seg_lands d cur bv <= a < seg_lands d cur bv + bv_len bv)
       then default Byte.x00 (payload bv !! Z.to_nat (a - seg_lands d cur bv))
       else byte_at s a).
Proof.
  intros (Hwf & Hacc & Hplan & Hcap) Hbv Hlt Hfit.
  pose proof (seg_index_nonneg d cur bv) as Hnn.
  pose proof (seg_offset_range d cur bv) as Ho.
  pose proof (length_payload bv Hbv) as Hpl.
  unfold seg_lands.
  set (idx := seg_index d cur bv) in *. set (p := Z.to_nat idx) in *.
  set (o := seg_offset d cur bv) in *.
  assert (Hidx : idx = Z.of_nat p) by (unfold p; lia).
  assert (Hlen : (p < length (pages s))%nat).
  { rewrite (wf_store_length s Hwf). lia. }
  destruct (ensure_frame_slot s p Hwf Hplan Hlen) as (pfn & pg & Hslot & Hpg & Hpglen).
  pose proof (ensure_frame_wf s p Hwf) as Hwf1.
  set (s1 := ensure_frame p s) in *.
  assert (Hrun : segment d WRITE cur bv s =
                 Done bv (set_physmem
                            (<[pfn := mkpage (blit (page_bytes pg) o (payload bv))
                                             (page_count pg)]> (physmem s1)) s1)).
  { rewrite (segment_write_resolve d cur bv s pfn Hwf Hplan Hlt Hslot).
    fold idx p s1 o. unfold bind. rewrite bvec_load_wf by exact Hbv.
    unfold page_write. rewrite Hpg. rewrite in_bounds_true by lia. reflexivity. }
  eexists. split; [exact Hrun|].
  pose proof (segment_wf d WRITE cur bv s Hwf) as Hwf'.
  pose proof (segment_accounted d WRITE cur bv s Hacc) as Hacc'.
  rewrite Hrun in Hwf', Hacc'.
  split; [|split].
  - split; [exact Hwf' | split; [exact Hacc' | split]].
    + apply (ensure_frame_plan s p Hplan).
    + simpl_machine. unfold s1. rewrite ensure_frame_capacity. exact Hcap.
  - simpl_machine. apply ensure_frame_capacity.
  - intros a Ha. rewrite <- (byte_at_ensure_frame p s a Hwf). fold s1.
    unfold byte_at. rewrite content_update_frame by exact Hwf1.
    set (q := Z.to_nat (Z.shiftr a PAGE_SHIFT)).
    destruct (byte_addr_split a Ha) as [Hsplit Hmod]. fold q in Hsplit.
    destruct (decide (pages s1 !! q = Some (Some pfn))) as [Hq|Hq].
    + assert (q = p) as Hqp by (apply (proj2 (proj2 Hwf1) q p pfn Hq Hslot)).
      cbn [page_bytes]. unfold content. rewrite Hq, Hpg.
      cbn [fmap option_fmap option_map].
      rewrite lookup_blit by lia.
      destruct (decide (idx * PAGE_SIZE + o <= a < idx * PAGE_SIZE + o + bv_len bv))
        as [Hin|Hout].
      * rewrite decide_True by lia. do 2 f_equal. lia.
      * rewrite decide_False by lia. reflexivity.
    + rewrite decide_False; [reflexivity|].
      intros Hin. apply Hq.
      assert (q = p) as ->; [|exact Hslot].
      assert (Z.of_nat q = idx); [|lia].
      rewrite page_size_val in *. nia.
Qed.

Lemma bytes_at_in_page (p : nat) o (n : nat) s :
  wf_store s -> 0 <= o -> o + Z.of_nat n <= PAGE_SIZE ->
  bytes_at s (Z.of_nat p * PAGE_SIZE + o) n =
  match content s p with
  | Some bytes => slice bytes o (Z.of_nat n)
  | None => zero_bytes (Z.of_nat n)
  end.
Proof.
  intros Hwf Ho Hfit.
  assert (Hlen : forall data, content s p = Some data ->
                   Z.of_nat (length data) = PAGE_SIZE).
  { unfold content. intros data Hc.
    destruct (pages s !! p) as [[pfn|]|] eqn:Hp; try discriminate Hc.
    destruct (proj1 (proj2 Hwf) p pfn Hp) as (pg & Hpg & Hl).
    rewrite Hpg in Hc. injection Hc as <-. exact Hl. }
  apply list_eq. intros k.
  destruct (decide (k < n)%nat) as [Hk|Hk].
  - rewrite lookup_bytes_at by exact Hk.
    replace (Z.of_nat p * PAGE_SIZE + o + Z.of_nat k)
      with (Z.of_nat p * PAGE_SIZE + Z.of_nat (Z.to_nat o + k)) by lia.
    rewrite byte_at_page by lia.
    destruct (content s p) as [data|] eqn:Hc.
    + specialize (Hlen data eq_refl). unfold slice.
      rewrite lookup_take_lt, lookup_drop by lia.
      destruct (lookup_lt_is_Some_2 data (Z.to_nat o + k)) as [x Hx]; [lia|].
      rewrite Hx. reflexivity.
    + unfold zero_bytes. symmetry. apply lookup_replicate. split; [reflexivity | lia].
  - rewrite lookup_ge_None_2 by (rewrite length_bytes_at; lia).
    symmetry. apply lookup_ge_None_2.
    destruct (content s p) as [data|] eqn:Hc.
    + unfold slice. rewrite length_take. lia.
    + rewrite length_zero_bytes. lia.
Qed.

Lemma segment_read_frame d cur bv s pfn :
  seg_index d cur bv < ramjam_pages s ->
  pages s !! Z.to_nat (seg_index d cur bv) = Some (Some pfn) ->
  segment d READ cur bv s =
  (let* data := page_read pfn (seg_offset d cur bv) (bv_len bv) in
   bvec_store bv data) s.
Proof.
  intros Hlt Hslot. pose proof (seg_index_nonneg d cur bv) as Hnn.
  destruct d; cbn [segment seg_index seg_offset] in *.
  - unfold Modern.rq_segment. cbn [is_write]. unfold bind at 1.
    unfold Modern.ramjam_get_page, bind, read_ramjam_pages, pages_load.
    destruct (Z.geb_spec (Modern.seg_pgoff cur bv) (ramjam_pages s)); [lia|].
    destruct (Z.ltb_spec (Modern.seg_pgoff cur bv) 0); [lia|].
    rewrite Hslot. cbn [is_null andb ret]. rewrite Hslot. reflexivity.
  - unfold Bio.bio_segment. cbn [is_write].
    unfold bind at 1 2 3. unfold read_ramjam_pages, pages_load.
    destruct (Z.ltb_spec (Bio.seg_pg_idx cur) (ramjam_pages s)); [|lia].
    destruct (Z.ltb_spec (Bio.seg_pg_idx cur) 0); [lia|].
    rewrite Hslot. cbn [is_null andb ret]. reflexivity.
Qed.

(** A read segment returns the bytes of the device at [seg_lands], zero
    where the device has no frame or ends, and changes nothing. *)
Lemma segment_read_bytes d cur bv s :
  wf_store s -> wf_bvec bv ->
  seg_offset d cur bv + bv_len bv <= PAGE_SIZE ->
  exists bv',
    segment d READ cur bv s = Done bv' s /\
    payload bv' = bytes_at s (seg_lands d cur bv) (Z.to_nat (bv_len bv)).
Proof.
  intros Hwf Hbv Hfit.
  pose proof (seg_index_nonneg d cur bv) as Hnn.
  pose proof (seg_offset_range d cur bv) as Ho.
  pose proof Hbv as (Hbuf & Hoff & Hlen & Hsum).
  unfold seg_lands.
  set (idx := seg_index d cur bv) in *. set (o := seg_offset d cur bv) in *.
  assert (Hrw : idx * PAGE_SIZE + o = Z.of_nat (Z.to_nat idx) * PAGE_SIZE + o) by lia.
  rewrite Hrw. clear Hrw.
  rewrite bytes_at_in_page by (try exact Hwf; lia).
  rewrite Z2Nat.id by lia.
  destruct (Z.le_gt_cases (ramjam_pages s) idx) as [Hge|Hlt].
  { exists (zero_filled bv).
    split; [apply (segment_out_of_range d READ cur bv s Hbv Hge)|].
    rewrite payload_zero_filled by exact Hbv.
    unfold content. rewrite lookup_ge_None_2; [reflexivity|].
    rewrite (wf_store_length s Hwf). destruct Hwf as ([? _] & _). lia. }
  destruct (table_slot s (Z.to_nat idx) (proj1 Hwf)) as [[pfn|] Hslot]; [lia | |].
  - destruct (proj1 (proj2 Hwf) _ pfn Hslot) as (pg & Hpg & Hpglen).
    rewrite (segment_read_frame d cur bv s pfn Hlt Hslot). fold o.
    unfold bind, page_read. rewrite Hpg. rewrite in_bounds_true by lia.
    unfold bvec_store. rewrite length_slice by lia.
    rewrite in_bounds_true by lia. eexists. split; [reflexivity|].
    unfold payload. cbn [bv_page bv_offset bv_len].
    unfold content. rewrite Hslot, Hpg. cbn [fmap option_fmap option_map].
    assert (Hd : Z.of_nat (length (slice (page_bytes pg) o (bv_len bv))) = bv_len bv)
      by (apply length_slice; lia).
    set (data := slice (page_bytes pg) o (bv_len bv)) in *.
    rewrite <- Hd. apply slice_blit; lia.
  - exists (zero_filled bv).
    split; [apply (segment_read_unallocated d cur bv s Hbv Hslot)|].
    rewrite payload_zero_filled by exact Hbv.
    unfold content. rewrite Hslot. reflexivity.
Qed.

(** *** When a segment lines up *)

Lemma lines_up_lands d cur bv :
  0 <= cur -> 0 <= bv_offset bv ->
  cursor_pos d cur < max_pages d * PAGE_SIZE ->
  lines_up d cur bv ->
  seg_lands d cur bv = cursor_pos d cur /\
  seg_index d cur bv = cursor_pos d cur / PAGE_SIZE.
Proof.
  intros Hcur Hoff Hmax Hup. unfold seg_lands.
  destruct d; cbn [lines_up seg_index seg_offset cursor_pos max_pages] in *;
    rewrite page_size_val in *.
  - destruct Hup as [Hcarry _].
    pose proof (Z.mod_pos_bound cur 4096 ltac:(lia)) as Hm.
    pose proof (Z.div_mod cur 4096 ltac:(lia)) as Hdm.
    assert (Hq : cur / 4096 < 2 ^ 20) by (apply Z.div_lt_upper_bound; lia).
    assert (Hidx : Modern.seg_pgoff cur bv = cur / 4096).
    { unfold Modern.seg_pgoff, PAGE_SHIFT.
      rewrite u32_small by lia.
      rewrite Z.shiftr_div_pow2 by lia. change (2 ^ 12) with 4096.
      symmetry. apply (Z.div_unique _ _ _ (cur mod 4096 + bv_offset bv)); lia. }
    rewrite Hidx. split; [lia | reflexivity].
  - destruct Hup as [Hcong _].
    assert (Hs : 0 <= cur < 2 ^ 35) by lia.
    rewrite (seg_pg_idx_small cur Hs), Hcong.
    assert (Hdiv : cur * 512 / 4096 = cur / 8).
    { replace 4096 with (512 * 8) by reflexivity.
      rewrite <- Z.div_div by lia. rewrite Z.div_mul by lia. reflexivity. }
    rewrite Hdiv. split; [|reflexivity].
    pose proof (Z.div_mod (cur * 512) 4096 ltac:(lia)) as Hdm.
    rewrite Hdiv in Hdm. lia.
Qed.

Lemma lines_up_fits d cur bv :
  wf_bvec bv -> lines_up d cur bv ->
  seg_offset d cur bv + bv_len bv <= PAGE_SIZE.
Proof.
  intros Hbv Hup. destruct d.
  - apply Hup.
  - apply seg_offset_bio_fits, Hbv.
Qed.

Lemma lines_up_next d cur bv :
  0 <= cur -> 0 <= bv_len bv ->
  cursor_pos d cur + bv_len bv < max_pages d * PAGE_SIZE ->
  lines_up d cur bv ->
  0 <= next_cursor d cur bv /\
  cursor_pos d (next_cursor d cur bv) = cursor_pos d cur + bv_len bv.
Proof.
  intros Hcur Hlen Hmax Hup.
  destruct d; cbn [lines_up next_cursor cursor_pos max_pages] in *;
    rewrite page_size_val in *.
  - rewrite u32_small by lia. lia.
  - destruct Hup as [_ Hsect]. unfold SECTOR_SHIFT.
    rewrite Z.shiftr_div_pow2 by lia. change (2 ^ 9) with 512.
    pose proof (Z.div_mod (bv_len bv) 512 ltac:(lia)) as Hdm.
    pose proof (Z.div_pos (bv_len bv) 512 Hlen ltac:(lia)).
    rewrite u64_small by lia. lia.
Qed.

(** *** A whole request *)

Lemma request_len_cons bv rest : request_len (bv :: rest) = bv_len bv + request_len rest.
Proof. reflexivity. Qed.

Lemma request_len_nonneg segs :
  Forall (fun bv => 0 < bv_len bv) segs -> 0 <= request_len segs.
Proof.
  induction 1 as [|bv rest Hbv _ IH]; [reflexivity|].
  rewrite request_len_cons. lia.
Qed.

Lemma payloads_cons bv rest : payloads (bv :: rest) = payload bv ++ payloads rest.
Proof. reflexivity. Qed.

Lemma bytes_at_app s a (n m : nat) :
  bytes_at s a (n + m) = bytes_at s a n ++ bytes_at s (a + Z.of_nat n) m.
Proof.
  revert a. induction n as [|n IH]; intros a.
  - cbn [Nat.add app]. unfold bytes_at at 2. cbn [seq map app].
    unfold bytes_at. apply map_ext. intros k. f_equal. lia.
  - cbn [Nat.add]. rewrite !bytes_at_S, IH. cbn [app]. do 2 f_equal.
    unfold bytes_at. apply map_ext. intros k. f_equal. lia.
Qed.

Lemma cursor_pos_nonneg d cur : 0 <= cur -> 0 <= cursor_pos d cur.
Proof. intros H. destruct d; cbn; lia. Qed.

Lemma lines_up_index_in_device d cur bv n :
  0 <= cur -> wf_bvec bv -> 0 < bv_len bv -> lines_up d cur bv ->
  cursor_pos d cur + bv_len bv <= n * PAGE_SIZE ->
  cursor_pos d cur + bv_len bv <= max_pages d * PAGE_SIZE ->
  seg_index d cur bv < n /\ seg_lands d cur bv = cursor_pos d cur.
Proof.
  intros Hcur Hbv Hpos Hup Hdev Hmax.
  destruct (lines_up_lands d cur bv Hcur) as [Hl Hi];
    [apply Hbv | lia | exact Hup |].
  split; [|exact Hl]. rewrite Hi.
  pose proof (cursor_pos_nonneg d cur Hcur).
  apply Z.div_lt_upper_bound; rewrite page_size_val in *; lia.
Qed.

(** A write request whose segments line up puts its bytes, in order, at
    its position on the device. *)
Lemma request_write_bytes d segs :
  forall cur s,
    store_ok s -> Forall wf_bvec segs -> Forall (fun bv => 0 < bv_len bv) segs ->
    0 <= cur -> request_lines_up d cur segs ->
    cursor_pos d cur + request_len segs <= ramjam_pages s * PAGE_SIZE ->
    cursor_pos d cur + request_len segs <= max_pages d * PAGE_SIZE ->
    exists s',
      for_each_segment d WRITE cur segs s = Done segs s' /\
      store_ok s' /\ ramjam_pages s' = ramjam_pages s /\
      (forall a, 0 <= a ->
         byte_at s' a =
         if decide (cursor_pos d cur <= a < cursor_pos d cur + request_len segs)
         then default Byte.x00 (payloads segs !! Z.to_nat (a - cursor_pos d cur))
         else byte_at s a).
Proof.
  induction segs as [|bv rest IH]; intros cur s Hs Hwf Hpos Hcur Hup Hdev Hmax.
  - exists s. rewrite for_each_segment_nil. split; [reflexivity|].
    split; [exact Hs|]. split; [reflexivity|].
    intros a Ha. cbn [request_len foldr]. rewrite decide_False by lia. reflexivity.
  - apply Forall_cons in Hwf as [Hbv Hwf]. apply Forall_cons in Hpos as [Hlen Hpos].
    destruct Hup as [Hup1 Hup]. rewrite request_len_cons in *.
    pose proof (request_len_nonneg rest Hpos) as Hrest.
    set (P := cursor_pos d cur) in *.
    destruct (lines_up_index_in_device d cur bv (ramjam_pages s) Hcur Hbv Hlen Hup1)
      as [Hidx Hlands]; [fold P; lia | fold P; lia |].
    destruct (segment_write_bytes d cur bv s Hs Hbv Hidx (lines_up_fits d cur bv Hbv Hup1))
      as (s1 & Hseg & Hs1 & Hcap1 & Hb1).
    rewrite Hlands in Hb1. fold P in Hb1.
    rewrite for_each_segment_cons. unfold bind. rewrite Hseg.
    pose proof (length_payload bv Hbv) as Hpl.
    destruct rest as [|bv2 rest].
    + rewrite for_each_segment_nil. exists s1. split; [reflexivity|].
      split; [exact Hs1|]. split; [exact Hcap1|].
      intros a Ha. rewrite Hb1 by exact Ha.
      cbn [request_len foldr]. rewrite Z.add_0_r.
      rewrite payloads_cons. cbn [payloads map concat]. rewrite app_nil_r. reflexivity.
    + assert (Hlen2 : 0 < bv_len bv2) by (apply Forall_cons in Hpos as [? _]; assumption).
      rewrite request_len_cons in *.
      pose proof (request_len_nonneg rest ltac:(apply Forall_cons in Hpos as [_ ?]; assumption)).
      destruct (lines_up_next d cur bv Hcur ltac:(lia)) as [Hnext Hposn];
        [fold P; lia | exact Hup1 |].
      fold P in Hposn.
      destruct (IH (next_cursor d cur bv) s1 Hs1 Hwf Hpos Hnext Hup) as
        (s2 & Hloop & Hs2 & Hcap2 & Hb2).
      { rewrite Hposn, Hcap1, ?request_len_cons. lia. }
      { rewrite Hposn, ?request_len_cons. lia. }
      rewrite Hposn in Hb2.
      rewrite Hloop. exists s2. split; [reflexivity|].
      split; [exact Hs2|]. split; [rewrite Hcap2; exact Hcap1|].
      intros a Ha. rewrite Hb2 by exact Ha. rewrite Hb1 by exact Ha.
      rewrite (payloads_cons bv (bv2 :: rest)).
      rewrite ?request_len_cons.
      repeat case_decide; try lia.
      * rewrite lookup_app_r by lia. do 2 f_equal. lia.
      * rewrite lookup_app_l by lia. reflexivity.
      * reflexivity.
Qed.

(** A read request whose segments line up returns the bytes of the
    device at its position, in order, and changes nothing. *)
Lemma request_read_bytes d segs :
  forall cur s,
    wf_store s -> Forall wf_bvec segs -> Forall (fun bv => 0 < bv_len bv) segs ->
    0 <= cur -> request_lines_up d cur segs ->
    cursor_pos d cur + request_len segs <= max_pages d * PAGE_SIZE ->
    exists out,
      for_each_segment d READ cur segs s = Done out s /\
      payloads out = bytes_at s (cursor_pos d cur) (Z.to_nat (request_len segs)).
Proof.
  induction segs as [|bv rest IH]; intros cur s Hs Hwf Hpos Hcur Hup Hmax.
  - exists []. rewrite for_each_segment_nil. split; reflexivity.
  - apply Forall_cons in Hwf as [Hbv Hwf]. apply Forall_cons in Hpos as [Hlen Hpos].
    destruct Hup as [Hup1 Hup]. rewrite request_len_cons in *.
    pose proof (request_len_nonneg rest Hpos) as Hrest.
    set (P := cursor_pos d cur) in *.
    destruct (lines_up_lands d cur bv Hcur) as [Hlands _];
      [apply Hbv | fold P; lia | exact Hup1 |].
    destruct (segment_read_bytes d cur bv s Hs Hbv (lines_up_fits d cur bv Hbv Hup1))
      as (bv' & Hseg & Hout).
    rewrite Hlands in Hout. fold P in Hout.
    rewrite for_each_segment_cons. unfold bind. rewrite Hseg.
    rewrite Z2Nat.inj_add by lia. rewrite bytes_at_app, Z2Nat.id by lia.
    destruct rest as [|bv2 rest].
    + rewrite for_each_segment_nil. exists [bv']. split; [reflexivity|].
      rewrite payloads_cons, Hout. reflexivity.
    + assert (Hlen2 : 0 < bv_len bv2) by (apply Forall_cons in Hpos as [? _]; assumption).
      rewrite request_len_cons in *.
      pose proof (request_len_nonneg rest ltac:(apply Forall_cons in Hpos as [_ ?]; assumption)).
      destruct (lines_up_next d cur bv Hcur ltac:(lia)) as [Hnext Hposn];
        [fold P; lia | exact Hup1 |].
      fold P in Hposn.
      destruct (IH (next_cursor d cur bv) s Hs Hwf Hpos Hnext Hup) as (out & Hloop & Houts).
      { rewrite Hposn, ?request_len_cons. lia. }
      rewrite Hposn in Houts.
      rewrite Hloop. exists (bv' :: out). split; [reflexivity|].
      rewrite payloads_cons, Hout, Houts, ?request_len_cons. reflexivity.
Qed.

Lemma start_cursor_pos d sector :
  0 <= sector -> sector * 512 < max_pages d * PAGE_SIZE ->
  0 <= start_cursor d sector /\ cursor_pos d (start_cursor d sector) = sector * 512.
Proof.
  intros Hs Hmax. destruct d; cbn [start_cursor cursor_pos max_pages] in *;
    rewrite page_size_val in *; [|lia].
  unfold SECTOR_SHIFT. rewrite Z.shiftl_mul_pow2 by lia. change (2 ^ 9) with 512.
  rewrite u64_small, u32_small by lia. lia.
Qed.

Lemma length_payloads segs :
  Forall wf_bvec segs -> Z.of_nat (length (payloads segs)) = request_len segs.
Proof.
  induction 1 as [|bv rest Hbv _ IH]; [reflexivity|].
  rewrite payloads_cons, length_app, request_len_cons, Nat2Z.inj_add.
  rewrite (length_payload bv Hbv), IH. reflexivity.
Qed.

Lemma submit_write_bytes d sector segs s :
  store_ok s -> Forall wf_bvec segs -> Forall (fun bv => 0 < bv_len bv) segs ->
  0 <= sector -> request_lines_up d (start_cursor d sector) segs ->
  sector * 512 + request_len segs <= ramjam_pages s * PAGE_SIZE ->
  sector * 512 + request_len segs <= max_pages d * PAGE_SIZE ->
  exists s',
    submit d WRITE sector segs s = Done (BLK_STS_OK, segs) s' /\
    store_ok s' /\ ramjam_pages s' = ramjam_pages s /\
    (forall a, 0 <= a ->
       byte_at s' a =
       if decide (sector * 512 <= a < sector * 512 + request_len segs)
       then default Byte.x00 (payloads segs !! Z.to_nat (a - sector * 512))
       else byte_at s a).
Proof.
  intros Hs Hwf Hpos Hsec Hup Hdev Hmax. rewrite submit_unfold. unfold bind.
  destruct segs as [|bv rest].
  - rewrite for_each_segment_nil. exists s. split; [reflexivity|].
    split; [exact Hs|]. split; [reflexivity|].
    intros a Ha. cbn [request_len foldr]. rewrite decide_False by lia. reflexivity.
  - assert (Hlt : sector * 512 < max_pages d * PAGE_SIZE).
    { pose proof (request_len_nonneg rest ltac:(apply Forall_cons in Hpos as [_ ?]; assumption)).
      apply Forall_cons in Hpos as [Hpos _]. rewrite request_len_cons in Hmax. lia. }
    destruct (start_cursor_pos d sector Hsec Hlt) as [Hcur Hcp].
    destruct (request_write_bytes d (bv :: rest) (start_cursor d sector) s
                Hs Hwf Hpos Hcur Hup) as (s' & Hloop & Hs' & Hcap & Hb);
      [rewrite Hcp; exact Hdev | rewrite Hcp; exact Hmax |].
    rewrite Hcp in Hb. rewrite Hloop. exists s'.
    split; [reflexivity|]. split; [exact Hs'|]. split; [exact Hcap | exact Hb].
Qed.

Lemma submit_read_bytes d sector segs s :
  wf_store s -> Forall wf_bvec segs -> Forall (fun bv => 0 < bv_len bv) segs ->
  0 <= sector -> request_lines_up d (start_cursor d sector) segs ->
  sector * 512 + request_len segs <= max_pages d * PAGE_SIZE ->
  exists out,
    submit d READ sector segs s = Done (BLK_STS_OK, out) s /\
    payloads out = bytes_at s (sector * 512) (Z.to_nat (request_len segs)).
Proof.
  intros Hs Hwf Hpos Hsec Hup Hmax. rewrite submit_unfold. unfold bind.
  destruct segs as [|bv rest].
  - rewrite for_each_segment_nil. exists []. split; reflexivity.
  - assert (Hlt : sector * 512 < max_pages d * PAGE_SIZE).
    { pose proof (request_len_nonneg rest ltac:(apply Forall_cons in Hpos as [_ ?]; assumption)).
      apply Forall_cons in Hpos as [Hpos _]. rewrite request_len_cons in Hmax. lia. }
    destruct (start_cursor_pos d sector Hsec Hlt) as [Hcur Hcp].
    destruct (request_read_bytes d (bv :: rest) (start_cursor d sector) s
                Hs Hwf Hpos Hcur Hup) as (out & Hloop & Hout);
      [rewrite Hcp; exact Hmax |].
    rewrite Hcp in Hout. rewrite Hloop. exists out.
    split; [reflexivity | exact Hout].
Qed.
(** * The claims *)

(** C1, counterexample.  The store has four pages and is empty.

    Positions and segments below the page size, which the queue limits of
    [ramjam_init] ([logical_block_size = PAGE_SIZE]) mean to keep out:
    - [blk_modern.c], a one-page write at sector 4 (byte 2048): the
      handler copies 4096 bytes to offset 2048 of page 0, past its end;
    - [blk_bio.c], a one-page write at sector 0 in two half-page segments
      [aa], [bb] at offset 0 of their buffer pages: both go to offset 0 of
      page 0, and reading back the same way returns [bb bb].

    Whole-page requests whose buffers are not page-aligned:
    - [blk_modern.c], two pages at sector 0 in four half-page segments
      [aa bb cc dd], the first two in the upper half of their buffer
      pages: the page index comes from [pos + bv_offset], so [bb] lands in
      page 1 where [dd] overwrites it; reading back the same way returns
      [aa dd cc dd];
    - [blk_bio.c], two pages at sector 0 from a buffer that starts in the
      middle of a page (segments of 2048, 4096 and 2048 bytes): the offset
      in the store page is [bv_offset], so the second segment overwrites
      the first; reading back the same way returns [bb bb cc]. *)
Lemma round_trip_counterexample :
  let s := ramjam_init 4 [] in
  submit modern WRITE 4 [full_seg Byte.xaa] s = Undef BadCopy /\
  (let wsegs := [half_seg Byte.xaa 0; half_seg Byte.xbb 0] in
   let rsegs := [half_seg Byte.x00 0; half_seg Byte.x00 0] in
   exists s1,
     submit bio_based WRITE 0 wsegs s = Done (BLK_STS_OK, wsegs) s1 /\
     read_bytes bio_based 0 rsegs s1
     = Some (replicate 2048 Byte.xbb ++ replicate 2048 Byte.xbb) /\
     read_bytes bio_based 0 rsegs s1 <> Some (payloads wsegs)) /\
  (let wsegs := [half_seg Byte.xaa 2048; half_seg Byte.xbb 2048;
                 half_seg Byte.xcc 0; half_seg Byte.xdd 0] in
   let rsegs := [half_seg Byte.x00 2048; half_seg Byte.x00 2048;
                 half_seg Byte.x00 0; half_seg Byte.x00 0] in
   exists s1,
     submit modern WRITE 0 wsegs s = Done (BLK_STS_OK, wsegs) s1 /\
     read_bytes modern 0 rsegs s1
     = Some (replicate 2048 Byte.xaa ++ replicate 2048 Byte.xdd ++
             replicate 2048 Byte.xcc ++ replicate 2048 Byte.xdd) /\
     read_bytes modern 0 rsegs s1 <> Some (payloads wsegs)) /\
  (let wsegs := [half_seg Byte.xaa 2048; full_seg Byte.xbb; half_seg Byte.xcc 0] in
   let rsegs := [half_seg Byte.x00 2048; full_seg Byte.x00; half_seg Byte.x00 0] in
   exists s1,
     submit bio_based WRITE 0 wsegs s = Done (BLK_STS_OK, wsegs) s1 /\
     read_bytes bio_based 0 rsegs s1
     = Some (replicate 2048 Byte.xbb ++ replicate 4096 Byte.xbb ++
             replicate 2048 Byte.xcc) /\
     read_bytes bio_based 0 rsegs s1 <> Some (payloads wsegs)).
Proof.
  intros s. split; [vm_compute; reflexivity|]. split; [|split].
  - intros wsegs rsegs. eexists.
    split; [vm_compute; reflexivity|].
    split; [vm_compute; reflexivity|].
    intros H. apply (f_equal (fun o => o ≫= (.!! 0%nat))) in H.
    vm_compute in H. discriminate H.
  - intros wsegs rsegs. eexists.
    split; [vm_compute; reflexivity|].
    split; [vm_compute; reflexivity|].
    intros H. apply (f_equal (fun o => o ≫= (.!! 2048%nat))) in H.
    vm_compute in H. discriminate H.
  - intros wsegs rsegs. eexists.
    split; [vm_compute; reflexivity|].
    split; [vm_compute; reflexivity|].
    intros H. apply (f_equal (fun o => o ≫= (.!! 0%nat))) in H.
    vm_compute in H. discriminate H.
Qed.

(** C1 (round trip, as the code has it).  For transfers made of whole
    pages at a page-aligned position, also over several pages and several
    segments: with a store in good order and allocations that succeed,
    writing the pages [datas] from page [p] on, within capacity and
    within what the position arithmetic can address ([max_pages]), and
    reading the same range back into any whole-page buffers returns
    exactly [datas], through either handler. *)
Theorem aligned_round_trip (d : driver) (p : nat) (datas : list (list Byte.byte))
    (bufs : list bio_vec) (s : machine) :
  wf_store s -> alloc_succeeds s ->
  Forall (fun data => Z.of_nat (length data) = PAGE_SIZE) datas ->
  Forall whole_page bufs -> length bufs = length datas ->
  Z.of_nat (p + length datas) <= ramjam_pages s ->
  Z.of_nat (p + length datas) <= max_pages d ->
  exists s1 out,
    submit d WRITE (8 * Z.of_nat p) (map page_seg datas) s
      = Done (BLK_STS_OK, map page_seg datas) s1 /\
    submit d READ (8 * Z.of_nat p) bufs s1 = Done (BLK_STS_OK, out) s1 /\
    payloads out = concat datas.
Proof.
  intros Hwf Hplan Hdatas Hbufs Hlen Hfit Hcap.
  destruct (store_pages_inv datas p s Hwf Hplan Hdatas) as (Hwf1 & _ & Hcap1).
  exists (store_pages p datas s), (map page_seg datas).
  destruct datas as [|data0 datas0] eqn:Hnil.
  { destruct bufs; [|discriminate Hlen]. destruct d; repeat split. }
  rewrite <- Hnil in *.
  assert (Hp20 : 0 <= Z.of_nat p < max_pages d).
  { subst datas. cbn [length] in Hcap. lia. }
  rewrite !submit_unfold, !page_cursor_start by exact Hp20. unfold bind.
  rewrite write_loop by assumption.
  rewrite (read_loop d bufs datas); try assumption; try (rewrite Hcap1; assumption).
  - repeat split. apply payloads_page_segs, Hdatas.
  - intros k data Hk. apply content_store_pages; assumption.
Qed.

Lemma aligned_round_trip_witness :
  let datas := [replicate 4096 Byte.xaa; replicate 4096 Byte.xbb] in
  let bufs := [full_seg Byte.x00; full_seg Byte.x00] in
  exists s1 out,
    submit modern WRITE (8 * Z.of_nat 1) (map page_seg datas) (ramjam_init 4 [])
      = Done (BLK_STS_OK, map page_seg datas) s1 /\
    submit modern READ (8 * Z.of_nat 1) bufs s1 = Done (BLK_STS_OK, out) s1 /\
    payloads out = concat datas.
Proof.
  intros datas bufs.
  apply (aligned_round_trip modern 1 datas bufs (ramjam_init 4 [])).
  - apply ramjam_init_wf. lia.
  - constructor.
  - repeat constructor.
  - repeat (constructor; [vm_compute; repeat split|]). constructor.
  - reflexivity.
  - vm_compute. discriminate.
  - vm_compute. discriminate.
Defined.

(** C2 (zero-fill), evaluated where it breaks, in [blk_modern.c].

    A store of four pages: after a whole-page write of [aa] to page 1
    (sector 8), page 0 has never been written and its entry is
    unallocated.  A one-page read at sector 0 whose two segments lie in
    the upper half of their buffer pages returns 2048 zero bytes followed
    by 2048 bytes [aa] taken from page 1: the second segment's index is
    [(2048 + 2048) >> PAGE_SHIFT].

    A store of 2^20 + 1 pages: after a whole-page write of [aa] to page 0,
    page 2^20 has never been written.  A whole-page read of it (sector
    2^23) returns [aa]: the byte position [pos] is a [uint32_t] and 2^32
    wraps to 0.  [blk_bio.c], which keeps the sector in a [sector_t],
    returns zero bytes there. *)
Theorem zero_fill_fails_in_modern :
  (let s := state_after (submit modern WRITE 8 [full_seg Byte.xaa]) (ramjam_init 4 []) in
   let rsegs := [half_seg Byte.x00 2048; half_seg Byte.x00 2048] in
   pages s = [None; Some 0%nat; None; None] /\
   read_bytes modern 0 rsegs s = Some (zero_bytes 2048 ++ replicate 2048 Byte.xaa) /\
   read_bytes modern 0 rsegs s <> Some (zero_bytes 4096)) /\
  (let s := state_after (submit modern WRITE 0 [full_seg Byte.xaa])
                        (ramjam_init (2 ^ 20 + 1) []) in
   pages s !! 0%nat = Some (Some 0%nat) /\
   pages s !! (2 ^ 20)%nat = Some None /\
   read_bytes modern (2 ^ 23) [full_seg Byte.x00] s = Some (replicate 4096 Byte.xaa)) /\
  (let s := state_after (submit bio_based WRITE 0 [full_seg Byte.xaa])
                        (ramjam_init (2 ^ 20 + 1) []) in
   read_bytes bio_based (2 ^ 23) [full_seg Byte.x00] s = Some (zero_bytes 4096)).
Proof.
  split; [|split].
  - intros s rsegs. split; [vm_compute; reflexivity|].
    split; [vm_compute; reflexivity|].
    intros H. apply (f_equal (fun o => o ≫= (.!! 2048%nat))) in H.
    vm_compute in H. discriminate H.
  - intros s. repeat split; vm_compute; reflexivity.
  - intros s. vm_compute. reflexivity.
Qed.



(** C4 (cross-endpoint consistency), evaluated where it breaks, in
    [blk_modern.c].

    A store of four pages: a one-page write at sector 0 in two segments
    lying in the upper half of their buffer pages.  The bytes [bb] written
    at device offsets 2048..4095 go to page 1.  A fault on page 0, the
    page containing offset 2048, then maps frame 0, where offset 2048
    reads as zero.  Conversely a byte [ee] stored through that mapping at
    offset 2048 is not what a block read of the same shape returns for
    device offset 2048: it returns [bb].

    A store of 2^20 + 1 pages: a whole-page write of [aa] to page 2^20
    (sector 2^23) lands in page 0, [pos] being a [uint32_t]; the fault on
    page 2^20 finds its entry empty and maps a new zeroed frame. *)
Theorem cross_endpoint_fails_in_modern :
  (let s := ramjam_init 4 [] in
   let wsegs := [half_seg Byte.xaa 2048; half_seg Byte.xbb 2048] in
   let rsegs := [half_seg Byte.x00 2048; half_seg Byte.x00 2048] in
   exists s1 s2 s3,
     submit modern WRITE 0 wsegs s = Done (BLK_STS_OK, wsegs) s1 /\
     fault modern 0 s1 = Done (VM_FAULT_NONE, Some 0%nat) s2 /\
     user_load 0 2048 s2 = Done [Byte.x00] s2 /\
     user_store 0 2048 Byte.xee s2 = Done tt s3 /\
     (read_bytes modern 0 rsegs s3 ≫= (.!! 2048%nat)) = Some Byte.xbb) /\
  (let s1 := state_after (submit modern WRITE (2 ^ 23) [full_seg Byte.xaa])
                         (ramjam_init (2 ^ 20 + 1) []) in
   let s2 := state_after (fault modern (2 ^ 20)) s1 in
   pages s1 !! 0%nat = Some (Some 0%nat) /\
   pages s1 !! (2 ^ 20)%nat = Some None /\
   pages s2 !! (2 ^ 20)%nat = Some (Some 1%nat) /\
   page_bytes <$> physmem s2 !! 1%nat = Some (zero_bytes PAGE_SIZE)).
Proof.
  split.
  - intros s wsegs rsegs. do 3 eexists.
    split; [vm_compute; reflexivity|].
    split; [vm_compute; reflexivity|].
    split; [vm_compute; reflexivity|].
    split; [vm_compute; reflexivity|].
    vm_compute. reflexivity.
  - intros s1 s2. repeat split; vm_compute; reflexivity.
Qed.

(** C5, counterexample.  A three-page write to pages 1, 2 and 3 in which
    the allocation for page 2 fails: the handler reports [BLK_STS_OK], and
    it does not abort, since page 3 is allocated and written afterwards. *)
Lemma allocation_failure_counterexample :
  let s := ramjam_init 4 [true; false; true] in
  let segs := [full_seg Byte.xaa; full_seg Byte.xbb; full_seg Byte.xcc] in
  exists out s',
    submit modern WRITE 8 segs s = Done (BLK_STS_OK, out) s' /\
    pages s' = [None; Some 0%nat; None; Some 1%nat] /\
    page_bytes <$> physmem s' !! 1%nat = Some (payload (full_seg Byte.xcc)).
Proof.
  eexists. eexists. split; [vm_compute; reflexivity|].
  split; vm_compute; reflexivity.
Qed.

(** C5 (allocation failure on the block path, as the code has it).  When
    a write segment resolves to an unallocated entry within capacity and
    [alloc_page] fails, the segment is skipped: the page table and every
    frame are as before (earlier pages keep their data, the entry stays
    unallocated), only the allocator has moved on.  The loop then goes on
    with the remaining segments, and the transfer still completes with
    [BLK_STS_OK].  When the transfer has ended, the entry is still
    unallocated, and a read of the page returns zero bytes, unless a
    later segment of the transfer resolved to the same page. *)
Theorem allocation_failure_skips_the_segment :
  forall (d : driver) (cur : Z) (bvec : bio_vec) (rest : list bio_vec)
         (s : machine) (plan : list bool),
    seg_index d cur bvec < ramjam_pages s ->
    pages s !! Z.to_nat (seg_index d cur bvec) = Some None ->
    alloc_plan s = false :: plan ->
    let s1 := set_alloc_plan plan s in
    segment d WRITE cur bvec s = Done bvec s1 /\
    pages s1 = pages s /\ physmem s1 = physmem s /\
    for_each_segment d WRITE cur (bvec :: rest) s =
      (let* bs := for_each_segment d WRITE (next_cursor d cur bvec) rest in
       ret (bvec :: bs)) s1 /\
    (forall sector segs s2 r s',
        submit d WRITE sector segs s2 = Done r s' -> fst r = BLK_STS_OK) /\
    (forall out s',
        for_each_segment d WRITE cur (bvec :: rest) s = Done out s' ->
        Forall (fun j => Z.to_nat j <> Z.to_nat (seg_index d cur bvec))
               (seg_indices d (next_cursor d cur bvec) rest) ->
        pages s' !! Z.to_nat (seg_index d cur bvec) = Some None /\
        (forall cur' bvec',
            wf_bvec bvec' ->
            seg_index d cur' bvec' = seg_index d cur bvec ->
            segment d READ cur' bvec' s' = Done (zero_filled bvec') s' /\
            payload (zero_filled bvec') = zero_bytes (bv_len bvec'))).
Proof.
  intros d cur bvec rest s plan Hlt Hslot Hplan s1.
  pose proof (segment_write_alloc_fails d cur bvec s plan Hlt Hslot Hplan) as Hseg.
  assert (Hloop : for_each_segment d WRITE cur (bvec :: rest) s =
                  (let* bs := for_each_segment d WRITE (next_cursor d cur bvec) rest in
                   ret (bvec :: bs)) s1).
  { rewrite for_each_segment_cons. unfold bind at 1. rewrite Hseg. reflexivity. }
  split; [exact Hseg|]. split; [reflexivity|]. split; [reflexivity|].
  split; [exact Hloop|]. split.
  - intros sector segs s2 r s'. apply submit_status.
  - intros out s' Hrun Hother.
    assert (Hend : pages s' !! Z.to_nat (seg_index d cur bvec) = Some None).
    { rewrite Hloop in Hrun. apply bind_Done in Hrun as (bs & s2 & Hrest & Hret).
      injection Hret as _ <-.
      pose proof (for_each_segment_K (Z.to_nat (seg_index d cur bvec)) (Some None)
                    d WRITE rest (next_cursor d cur bvec) Hother s1 Hslot) as HK.
      rewrite Hrest in HK. exact HK. }
    split; [exact Hend|].
    intros cur' bvec' Hwf Hsame. split; [|apply payload_zero_filled, Hwf].
    apply segment_read_unallocated; [exact Hwf|].
    rewrite Hsame. exact Hend.
Qed.

Lemma allocation_failure_skips_the_segment_witness :
  let s := state_after (submit bio_based WRITE 16 [full_seg Byte.xaa])
                       (ramjam_init 8 [true; false; true]) in
  let s1 := set_alloc_plan [true] s in
  let segs := [full_seg Byte.xbb; full_seg Byte.xcc] in
  let s' := state_after (for_each_segment bio_based WRITE 24 segs) s in
  segment bio_based WRITE 24 (full_seg Byte.xbb) s = Done (full_seg Byte.xbb) s1 /\
  pages s1 = pages s /\ physmem s1 = physmem s /\
  pages s' = [None; None; Some 0%nat; None; Some 1%nat; None; None; None] /\
  pages s' !! Z.to_nat (seg_index bio_based 24 (full_seg Byte.xbb)) = Some None.
Proof.
  intros s s1 segs s'.
  destruct (allocation_failure_skips_the_segment
              bio_based 24 (full_seg Byte.xbb) [full_seg Byte.xcc] s [true])
    as (H1 & H2 & H3 & _ & _ & H6).
  - vm_compute. reflexivity.
  - vm_compute. reflexivity.
  - vm_compute. reflexivity.
  - split; [exact H1|]. split; [exact H2|]. split; [exact H3|].
    split; [vm_compute; reflexivity|].
    refine (proj1 (H6 segs s' _ _)).
    + vm_compute. reflexivity.
    + constructor; [vm_compute; discriminate | constructor].
Defined.

(** C6 (fault error taxonomy), evaluated where it breaks.  In
    [blk_modern.c] a fault on page 0 whose allocation fails returns
    [VM_FAULT_SIGBUS], the code it also returns for page 4, which is out
    of range; [blk_bio.c] returns [VM_FAULT_OOM] for the failed
    allocation.  The store is unchanged in each case, but for the
    allocator having been asked once. *)
Theorem fault_errors_not_distinct_in_modern :
  let s := ramjam_init 4 [false] in
  Modern.ramjam_vma_fault 0 s = Done (VM_FAULT_SIGBUS, None) (ramjam_init 4 []) /\
  Modern.ramjam_vma_fault 4 s = Done (VM_FAULT_SIGBUS, None) s /\
  Bio.ramjam_vm_fault 0 s = Done (VM_FAULT_OOM, None) (ramjam_init 4 []) /\
  Bio.ramjam_vm_fault 4 s = Done (VM_FAULT_SIGBUS, None) s.
Proof.
  intros s. repeat split.
Qed.

(** C7 (validation when the mapping is established), evaluated where it
    breaks.  With four pages, a one-page mapping at page offset 4 lies
    beyond the capacity.  [ramjam_mmap] of [blk_modern.c] accepts it and
    the refusal comes with the first fault; [rramjam_mmap] of [blk_bio.c]
    refuses it with [-EINVAL].  Neither touches the store. *)
Theorem mmap_not_validated_in_modern :
  let s := ramjam_init 4 [] in
  let vma := mkvma 4096 8192 4 false in
  Modern.ramjam_mmap vma s = Done (0, mkvma 4096 8192 4 true) s /\
  Modern.ramjam_vma_fault 4 s = Done (VM_FAULT_SIGBUS, None) s /\
  Bio.rramjam_mmap vma s = Done (- EINVAL, vma) s.
Proof.
  intros s vma. repeat split.
Qed.

(** C8 (allocation-state invariant).  Along every sequence of block
    transfers, mapping faults and mapped stores, started from any state of
    the store, the number of allocated page-table entries never decreases
    and never exceeds [ramjam_pages]; the capacity is unchanged, and an
    entry that is allocated keeps the very same frame for ever, so it
    goes from unallocated to allocated at most once and never back. *)
Theorem allocation_state_invariant :
  forall (d : driver) (before after : list op) (s s1 s2 : machine),
    table_ok s ->
    exec_all d before s = Done tt s1 ->
    exec_all d after s1 = Done tt s2 ->
    (allocated s1 <= allocated s2)%nat /\
    Z.of_nat (allocated s2) <= ramjam_pages s2 /\
    ramjam_pages s2 = ramjam_pages s /\
    (forall (i pfn : nat),
        pages s1 !! i = Some (Some pfn) -> pages s2 !! i = Some (Some pfn)).
Proof.
  intros d before after s s1 s2 Hok H1 H2.
  pose proof (exec_all_grows d before s s1 Hok H1) as G1.
  pose proof (grows_table_ok s s1 G1 Hok) as Hok1.
  pose proof (exec_all_grows d after s1 s2 Hok1 H2) as G2.
  pose proof (grows_table_ok s1 s2 G2 Hok1) as Hok2.
  split; [apply grows_allocated, G2|].
  split; [apply allocated_le_capacity, Hok2|].
  split; [destruct G1 as [E1 _], G2 as [E2 _]; congruence|].
  apply G2.
Qed.

Lemma allocation_state_invariant_witness :
  let s := ramjam_init 4 [] in
  let s1 := state_after (exec_all modern [OpSubmit WRITE 8 [full_seg Byte.xaa]]) s in
  let s2 := state_after
              (exec_all modern [OpFault 3; OpSubmit READ 0 [full_seg Byte.x00]]) s1 in
  (allocated s1 <= allocated s2)%nat /\
  Z.of_nat (allocated s2) <= ramjam_pages s2 /\
  ramjam_pages s2 = ramjam_pages s /\
  (forall (i pfn : nat),
      pages s1 !! i = Some (Some pfn) -> pages s2 !! i = Some (Some pfn)).
Proof.
  intros s s1 s2.
  apply (allocation_state_invariant modern
           [OpSubmit WRITE 8 [full_seg Byte.xaa]]
           [OpFault 3; OpSubmit READ 0 [full_seg Byte.x00]] s s1 s2).
  - split; [cbn; lia | reflexivity].
  - vm_compute. reflexivity.
  - vm_compute. reflexivity.
Defined.

(** C9 (block-path reads never allocate).  A read transfer submitted to
    either block front-end leaves the machine exactly as it was: the page
    table, the count of allocated entries, the frames and the allocator
    are untouched ([alloc_page] is never called).  On the blk-mq path the
    lookup is [ramjam_get_page(pgoff, false)], and a segment whose entry is
    unallocated has its buffer filled with zero bytes. *)
Theorem block_reads_never_allocate :
  forall (d : driver) (sector : Z) (segs : list bio_vec)
         (s s' : machine) (r : blk_status_t * list bio_vec),
    submit d READ sector segs s = Done r s' ->
    s' = s /\
    pages s' = pages s /\
    allocated s' = allocated s /\
    alloc_plan s' = alloc_plan s /\
    (forall pos bvec,
        Modern.rq_segment READ pos bvec =
        (let* page := Modern.ramjam_get_page (Modern.seg_pgoff pos bvec) false in
         match page with
         | Some pfn =>
             let* data := page_read pfn (pos mod PAGE_SIZE) (bv_len bvec) in
             bvec_store bvec data
         | None => memzero_page bvec
         end)) /\
    (forall pos bvec,
        pages s !! Z.to_nat (Modern.seg_pgoff pos bvec) = Some None ->
        Modern.rq_segment READ pos bvec s = memzero_page bvec s) /\
    (forall sec bvec,
        pages s !! Z.to_nat (Bio.seg_pg_idx sec) = Some None ->
        Bio.bio_segment READ sec bvec s = memzero_page bvec s).
Proof.
  intros d sector segs s s' r Hrun.
  assert (Hs : s' = s).
  { pose proof (pure_submit_read d sector segs s) as H.
    rewrite Hrun in H. exact H. }
  subst s'. repeat split.
  - intros pos bvec Hslot.
    unfold Modern.rq_segment, Modern.ramjam_get_page, bind,
      read_ramjam_pages, pages_load. cbn.
    pose proof (seg_pgoff_nonneg pos bvec) as Hnn.
    destruct (Z.geb_spec (Modern.seg_pgoff pos bvec) (ramjam_pages s));
      [reflexivity|].
    destruct (Z.ltb_spec (Modern.seg_pgoff pos bvec) 0); [lia|].
    rewrite Hslot. cbn. rewrite Hslot. reflexivity.
  - intros sec bvec Hslot.
    unfold Bio.bio_segment, bind, read_ramjam_pages, pages_load. cbn.
    pose proof (seg_pg_idx_nonneg sec) as Hnn.
    destruct (Z.ltb_spec (Bio.seg_pg_idx sec) (ramjam_pages s));
      [|reflexivity].
    destruct (Z.ltb_spec (Bio.seg_pg_idx sec) 0); [lia|].
    rewrite Hslot. reflexivity.
Qed.

Lemma block_reads_never_allocate_witness :
  let s := state_after (exec_all bio_based [OpSubmit WRITE 8 [full_seg Byte.xaa]])
                       (ramjam_init 4 []) in
  let segs := [full_seg Byte.x00; full_seg Byte.x00] in
  let s' := state_after (submit bio_based READ 0 segs) s in
  s' = s /\ pages s' = pages s /\ allocated s' = allocated s /\
  alloc_plan s' = alloc_plan s.
Proof.
  intros s segs s'.
  destruct (block_reads_never_allocate bio_based 0 segs s s'
              (BLK_STS_OK, [full_seg Byte.x00; full_seg Byte.xaa]))
    as (H1 & H2 & H3 & H4 & _).
  - vm_compute. reflexivity.
  - auto.
Defined.

(** C10 (every access to the page-table array is bounds-checked).  From a
    state whose table has [ramjam_pages] slots, no sequence of operations
    of either variant ever indexes [pages] outside the array, and neither
    does [ramjam_get_page] on any page index.  For an index at or beyond
    [ramjam_pages], [ramjam_get_page] returns NULL, the bio handler's
    lookup finds no page and the fault handlers answer [VM_FAULT_SIGBUS],
    all without touching the machine. *)
Theorem page_table_access_in_bounds :
  forall (d : driver) (os : list op) (s : machine),
    table_ok s ->
    (forall i, exec_all d os s <> Undef (BadIndex i)) /\
    (forall pgoff allocate i,
        0 <= pgoff ->
        Modern.ramjam_get_page pgoff allocate s <> Undef (BadIndex i)) /\
    (forall pgoff allocate,
        ramjam_pages s <= pgoff ->
        Modern.ramjam_get_page pgoff allocate s = Done None s) /\
    (forall pgoff,
        ramjam_pages s <= pgoff ->
        Modern.ramjam_vma_fault pgoff s = Done (VM_FAULT_SIGBUS, None) s) /\
    (forall dr sector bvec,
        ramjam_pages s <= Bio.seg_pg_idx sector ->
        Bio.bio_segment dr sector bvec s =
        match dr with
        | READ => memzero_page bvec s
        | WRITE => Done bvec s
        end) /\
    (forall pgoff,
        ramjam_pages s <= u32 pgoff ->
        Bio.ramjam_vm_fault pgoff s = Done (VM_FAULT_SIGBUS, None) s).
Proof.
  intros d os s Hok.
  assert (Hget : forall pgoff allocate,
             ramjam_pages s <= pgoff ->
             Modern.ramjam_get_page pgoff allocate s = Done None s).
  { intros pgoff allocate Hge.
    unfold Modern.ramjam_get_page, bind, read_ramjam_pages.
    destruct (Z.geb_spec pgoff (ramjam_pages s)); [reflexivity | lia]. }
  split; [|split; [|split; [|split; [|split]]]].
  - intros i Hbad.
    pose proof (exec_all_J s Hok d os s (reflexivity s)) as H.
    rewrite Hbad in H. discriminate H.
  - intros pgoff allocate i Hpg Hbad.
    pose proof (get_page_J s Hok pgoff allocate Hpg s (reflexivity s)) as H.
    rewrite Hbad in H. discriminate H.
  - exact Hget.
  - intros pgoff Hge. unfold Modern.ramjam_vma_fault, bind.
    rewrite (Hget pgoff true Hge). reflexivity.
  - intros dr sector bvec Hge.
    unfold Bio.bio_segment, bind, read_ramjam_pages.
    destruct (Z.ltb_spec (Bio.seg_pg_idx sector) (ramjam_pages s)); [lia|].
    cbn. rewrite andb_false_r. cbn. destruct dr; reflexivity.
  - intros pgoff Hge. unfold Bio.ramjam_vm_fault, bind, read_ramjam_pages.
    destruct (Z.geb_spec (u32 pgoff) (ramjam_pages s)); [reflexivity | lia].
Qed.

Lemma page_table_access_in_bounds_witness :
  let s := ramjam_init 4 [] in
  let os := [OpSubmit WRITE 24 [full_seg Byte.xaa; full_seg Byte.xbb];
             OpFault 4; OpFault 2] in
  (forall i, exec_all bio_based os s <> Undef (BadIndex i)) /\
  Modern.ramjam_get_page 4 true s = Done None s /\
  Bio.ramjam_vm_fault 4 s = Done (VM_FAULT_SIGBUS, None) s.
Proof.
  intros s os.
  destruct (page_table_access_in_bounds bio_based os s)
    as (H1 & _ & H3 & _ & _ & H6).
  - split; [cbn; lia | reflexivity].
  - split; [exact H1|].
    split; [apply H3; cbn; lia | apply H6; vm_compute; discriminate].
Defined.


(** * Further properties of the driver *)

(** X1 (the store stays in good order).  Whatever block transfers,
    faults, mmap calls and stores through a mapping are run on a store
    whose table has [ramjam_pages] slots, whose allocated entries point to
    page-sized frames and whose entries share no frame, the store they
    leave is again such a store: in particular no operation of either
    variant makes two pages of the device share a frame. *)
Theorem store_stays_well_formed (d : driver) (os : list op) (s s' : machine) :
  wf_store s -> exec_all d os s = Done tt s' -> wf_store s'.
Proof.
  intros Hwf Hrun. pose proof (exec_all_wf d os s Hwf) as H.
  rewrite Hrun in H. exact H.
Qed.

Lemma store_stays_well_formed_witness :
  let os := [OpSubmit WRITE 1 [half_seg Byte.xaa 2048]; OpFault 3;
             OpUserStore 1 7 Byte.x5a; OpSubmit READ 0 [full_seg Byte.x00]] in
  wf_store (state_after (exec_all modern os) (ramjam_init 4 [])).
Proof.
  intros os.
  apply (store_stays_well_formed modern os (ramjam_init 4 [])).
  - apply ramjam_init_wf. lia.
  - vm_compute. reflexivity.
Defined.

(** X2 (every frame is accounted for).  From a freshly initialised
    store, after any sequence of operations of either variant, every
    frame that [alloc_page] ever returned is the frame of one entry of the
    page table, and the table's reference on it is still there: the
    handlers lose no frame and drop no reference. *)
Theorem frames_stay_accounted (d : driver) (os : list op) (n : Z)
    (plan : list bool) (s : machine) :
  exec_all d os (ramjam_init n plan) = Done tt s ->
  (forall pfn : nat, (pfn < length (physmem s))%nat ->
     exists i : nat, pages s !! i = Some (Some pfn)) /\
  (forall (i pfn : nat),
     pages s !! i = Some (Some pfn) -> (1 <= page_refs s pfn)%nat).
Proof.
  intros Hrun.
  pose proof (exec_all_accounted d os (ramjam_init n plan)
                (ramjam_init_accounted n plan)) as H.
  rewrite Hrun in H. destruct H as [HA HB]. split; assumption.
Qed.

Lemma frames_stay_accounted_witness :
  let os := [OpSubmit WRITE 8 [full_seg Byte.xaa]; OpFault 3; OpFault 1] in
  let s := state_after (exec_all bio_based os) (ramjam_init 4 [true; false]) in
  (forall pfn : nat, (pfn < length (physmem s))%nat ->
     exists i : nat, pages s !! i = Some (Some pfn)) /\
  (forall (i pfn : nat),
     pages s !! i = Some (Some pfn) -> (1 <= page_refs s pfn)%nat).
Proof.
  intros os s.
  apply (frames_stay_accounted bio_based os 4 [true; false] s).
  vm_compute. reflexivity.
Defined.

(** X3 ([blk_bio.c] never copies past the end of a page).  On a store in
    good order, a bio of either direction whose segments lie within
    their buffer pages is always carried out to the end: no access to the
    page table is out of range, no copy runs past the end of a frame or
    of a buffer, and the bio completes with [BLK_STS_OK], leaving the store
    in good order. *)
Theorem submit_bio_never_overruns (b : Bio.bio) (s : machine) :
  wf_store s -> Forall wf_bvec (Bio.bi_segs b) ->
  exists bufs s',
    Bio.ramjam_submit_bio b s = Done (BLK_STS_OK, bufs) s' /\ wf_store s'.
Proof.
  intros Hwf Hsegs.
  destruct (ramjam_submit_bio_total b s Hwf Hsegs) as (bufs & s' & Hrun).
  exists bufs, s'. split; [exact Hrun|].
  pose proof (exec_wf bio_based
                (OpSubmit (Bio.bio_data_dir b) (Bio.bi_sector b) (Bio.bi_segs b))
                s Hwf) as H.
  cbn [exec submit] in H. unfold bind in H.
  destruct b as [dr sector segs]. cbn [Bio.bio_data_dir Bio.bi_sector Bio.bi_segs] in *.
  rewrite Hrun in H. exact H.
Qed.

Lemma submit_bio_never_overruns_witness :
  exists bufs s',
    Bio.ramjam_submit_bio
      (Bio.mkbio WRITE 3 [half_seg Byte.xaa 2048; half_seg Byte.xbb 2048])
      (ramjam_init 4 [])
    = Done (BLK_STS_OK, bufs) s' /\ wf_store s'.
Proof.
  apply (submit_bio_never_overruns
           (Bio.mkbio WRITE 3 [half_seg Byte.xaa 2048; half_seg Byte.xbb 2048])
           (ramjam_init 4 [])).
  - apply ramjam_init_wf. lia.
  - repeat (constructor; [vm_compute; repeat split; discriminate|]). constructor.
Defined.

(** X4 ([rramjam_mmap] of [blk_bio.c] checks the range).  For an area
    whose bounds and file offset fit the kernel's types, the handler
    accepts the mapping, attaching the fault handler, exactly when
    [vm_pgoff * PAGE_SIZE + (vm_end - vm_start)] is at most
    [ramjam_pages * PAGE_SIZE]; otherwise it returns [-EINVAL] and leaves
    the area as it was.  Either way the store is untouched: nothing is
    allocated or populated at mmap time. *)
Theorem rramjam_mmap_checks_capacity (vma : vm_area_struct) (s : machine) :
  0 <= vm_start vma <= vm_end vma -> vm_end vma < 2 ^ 64 ->
  0 <= vm_pgoff vma ->
  vm_pgoff vma * PAGE_SIZE + (vm_end vma - vm_start vma) < 2 ^ 64 ->
  0 <= ramjam_pages s < 2 ^ 32 ->
  (vm_pgoff vma * PAGE_SIZE + (vm_end vma - vm_start vma)
     <= ramjam_pages s * PAGE_SIZE ->
   Bio.rramjam_mmap vma s
   = Done (0, mkvma (vm_start vma) (vm_end vma) (vm_pgoff vma) true) s) /\
  (ramjam_pages s * PAGE_SIZE
     < vm_pgoff vma * PAGE_SIZE + (vm_end vma - vm_start vma) ->
   Bio.rramjam_mmap vma s = Done (- EINVAL, vma) s).
Proof.
  intros Hse Hend Hpg Hsum Hcap.
  rewrite (rramjam_mmap_validates vma s Hse Hend Hpg Hsum Hcap).
  split; intros H.
  - destruct (Z.ltb_spec (ramjam_pages s * PAGE_SIZE)
                (vm_pgoff vma * PAGE_SIZE + (vm_end vma - vm_start vma)));
      [lia | reflexivity].
  - destruct (Z.ltb_spec (ramjam_pages s * PAGE_SIZE)
                (vm_pgoff vma * PAGE_SIZE + (vm_end vma - vm_start vma)));
      [reflexivity | lia].
Qed.

Lemma rramjam_mmap_checks_capacity_witness :
  let s := ramjam_init 4 [] in
  Bio.rramjam_mmap (mkvma 4096 12288 2 false) s
    = Done (0, mkvma 4096 12288 2 true) s /\
  Bio.rramjam_mmap (mkvma 4096 12288 3 false) s
    = Done (- EINVAL, mkvma 4096 12288 3 false) s.
Proof.
  intros s. split.
  - apply (rramjam_mmap_checks_capacity (mkvma 4096 12288 2 false) s);
      vm_compute; try split; congruence.
  - apply (rramjam_mmap_checks_capacity (mkvma 4096 12288 3 false) s);
      vm_compute; try split; congruence.
Defined.

(** X5 (a store that holds nothing reads as zero).  On a store none of
    whose pages is allocated, for instance a freshly initialised one, a
    read transfer of either variant, at any sector and with any
    segments that lie within their buffer pages, completes with
    [BLK_STS_OK], fills every segment with zero bytes and leaves the store
    exactly as it was. *)
Theorem empty_store_reads_zero (d : driver) (sector : Z) (segs : list bio_vec)
    (s : machine) :
  table_ok s -> Forall (fun e => e = None) (pages s) -> Forall wf_bvec segs ->
  submit d READ sector segs s = Done (BLK_STS_OK, map zero_filled segs) s /\
  Forall (fun b => b = Byte.x00) (payloads (map zero_filled segs)).
Proof.
  intros Hok Hall Hsegs. split; [|apply payloads_zero_filled, Hsegs].
  rewrite submit_unfold. unfold bind.
  rewrite for_each_segment_read_empty by assumption. reflexivity.
Qed.

Lemma empty_store_reads_zero_witness :
  let segs := [half_seg Byte.xff 1024; full_seg Byte.xee] in
  let s := ramjam_init 4 [] in
  submit modern READ 5 segs s = Done (BLK_STS_OK, map zero_filled segs) s /\
  Forall (fun b => b = Byte.x00) (payloads (map zero_filled segs)).
Proof.
  intros segs s.
  apply (empty_store_reads_zero modern 5 segs s).
  - split; [cbn; lia | reflexivity].
  - repeat constructor.
  - repeat (constructor; [vm_compute; repeat split; discriminate|]). constructor.
Defined.

(** X6 (what a fault answers).  The fault handler looks up the page
    index [vmf->pgoff] ([blk_bio.c] first truncates it to 32 bits).  For
    an index at or beyond [ramjam_pages] it answers [VM_FAULT_SIGBUS] and
    touches nothing.  For a page without a frame when [alloc_page] fails,
    [blk_bio.c] answers [VM_FAULT_OOM] and [blk_modern.c]
    [VM_FAULT_SIGBUS]; the page table and the frames are as before.  In
    every other case, on a store in good order, the handler answers 0 and
    gives the frame that the table then holds for the page. *)
Theorem fault_error_codes (d : driver) (pgoff : Z) (s : machine) :
  wf_store s -> 0 <= pgoff ->
  let idx := fault_index d pgoff in
  (ramjam_pages s <= idx ->
   fault d pgoff s = Done (VM_FAULT_SIGBUS, None) s) /\
  (forall plan,
     idx < ramjam_pages s -> pages s !! Z.to_nat idx = Some None ->
     alloc_plan s = false :: plan ->
     fault d pgoff s
     = Done (match d with
             | modern => VM_FAULT_SIGBUS
             | bio_based => VM_FAULT_OOM
             end, None) (set_alloc_plan plan s)) /\
  (idx < ramjam_pages s ->
   pages s !! Z.to_nat idx <> Some None \/ head (alloc_plan s) <> Some false ->
   exists pfn s',
     fault d pgoff s = Done (VM_FAULT_NONE, Some pfn) s' /\
     pages s' !! Z.to_nat idx = Some (Some pfn)).
Proof.
  intros Hwf Hpg idx. split; [|split].
  - intros Hge. destruct d; cbn [fault fault_index] in *.
    + apply (proj1 (ramjam_vma_fault_errors pgoff s) Hge).
    + apply (proj1 (ramjam_vm_fault_errors pgoff s) Hge).
  - intros plan Hlt Hslot Hplan. destruct d; cbn [fault fault_index] in *.
    + apply (proj2 (ramjam_vma_fault_errors pgoff s) plan); [lia | assumption..].
    + apply (proj2 (ramjam_vm_fault_errors pgoff s) plan); assumption.
  - intros Hlt Hcase. rewrite fault_at_index by exact Hpg. fold idx.
    pose proof (fault_index_nonneg d pgoff Hpg) as Hnn. fold idx in Hnn.
    assert (Hlt' : Z.of_nat (Z.to_nat idx) < ramjam_pages s) by lia.
    assert (Hbio : d = bio_based -> Z.of_nat (Z.to_nat idx) < 2 ^ 32).
    { intros Hd. pose proof (fault_index_bio d pgoff Hpg Hd). fold idx in H. lia. }
    destruct (table_slot s (Z.to_nat idx) (proj1 Hwf) Hlt') as [[pfn|] Hslot].
    + destruct (proj1 (proj2 Hwf) _ pfn Hslot) as (pg & Hfr & _).
      rewrite (fault_hit d _ pfn pg s Hlt' Hbio Hslot Hfr).
      eexists. eexists. split; [reflexivity | exact Hslot].
    + destruct Hcase as [Hc|Hc]; [contradiction|].
      rewrite (fault_miss d _ s Hlt' Hbio Hc Hslot).
      eexists. eexists. split; [reflexivity|]. simpl_machine.
      apply list_lookup_insert_eq. eauto using lookup_lt_Some.
Qed.

Lemma fault_error_codes_witness :
  fault bio_based 9 (ramjam_init 4 []) = Done (VM_FAULT_SIGBUS, None) (ramjam_init 4 []) /\
  fault bio_based 1 (ramjam_init 4 [false]) = Done (VM_FAULT_OOM, None) (ramjam_init 4 []) /\
  fault modern 1 (ramjam_init 4 [false]) = Done (VM_FAULT_SIGBUS, None) (ramjam_init 4 []).
Proof.
  split; [|split].
  - apply (fault_error_codes bio_based 9 (ramjam_init 4 []));
      [apply ramjam_init_wf; lia | lia | vm_compute; discriminate].
  - apply (proj1 (proj2 (fault_error_codes bio_based 1 (ramjam_init 4 [false])
                           ltac:(apply ramjam_init_wf; lia) ltac:(lia))) []);
      [vm_compute; reflexivity | reflexivity | reflexivity].
  - apply (proj1 (proj2 (fault_error_codes modern 1 (ramjam_init 4 [false])
                           ltac:(apply ramjam_init_wf; lia) ltac:(lia))) []);
      [vm_compute; reflexivity | reflexivity | reflexivity].
Defined.

(** X7 (demand allocation by the fault handler).  On a store in good
    order on which allocation succeeds, a fault on a page of the device
    answers 0 with the page's frame.  If the page had no frame, one is
    allocated, zero-filled and entered in the table, so the number of
    allocated pages grows by exactly one; if it had one, nothing is
    allocated.  No byte of the device changes.  A second fault on the
    same page gives the same frame, allocates nothing and only adds a
    reference. *)
Theorem fault_allocates_on_first_touch (d : driver) (p : nat) (s : machine) :
  store_ok s -> Z.of_nat p < ramjam_pages s ->
  exists pfn s1 s2,
    fault d (Z.of_nat p) s = Done (VM_FAULT_NONE, Some pfn) s1 /\
    allocated s1 = (allocated s + match content s p with Some _ => 0 | None => 1 end)%nat /\
    frame_bytes s1 pfn = Some (default (zero_bytes PAGE_SIZE) (content s p)) /\
    (forall a, byte_at s1 a = byte_at s a) /\
    fault d (Z.of_nat p) s1 = Done (VM_FAULT_NONE, Some pfn) s2 /\
    allocated s2 = allocated s1 /\
    page_refs s2 pfn = S (page_refs s1 pfn) /\
    frame_bytes s2 pfn = frame_bytes s1 pfn.
Proof.
  intros Hs Hlt.
  destruct (fault_resolves d p s Hs Hlt) as
    (pfn & s1 & Hf1 & Hs1 & Hgrow & Hslot1 & _ & _ & Hbytes & _).
  assert (Hlt1 : Z.of_nat p < ramjam_pages s1) by (rewrite (proj1 Hgrow); exact Hlt).
  destruct (proj1 (proj2 (proj1 Hs1)) p pfn Hslot1) as (pg1 & Hpg1 & Hlen1).
  assert (Hcap1 : d = bio_based -> Z.of_nat p < 2 ^ 32).
  { intros _. destruct Hs1 as (_ & _ & _ & ?). lia. }
  pose proof (fault_hit d p pfn pg1 s1 Hlt1 Hcap1 Hslot1 Hpg1) as Hf2.
  assert (Hpfn : (pfn < length (physmem s1))%nat) by eauto using lookup_lt_Some.
  assert (Hfirst :
    allocated s1 = (allocated s + match content s p with Some _ => 0 | None => 1 end)%nat /\
    frame_bytes s1 pfn = Some (default (zero_bytes PAGE_SIZE) (content s p))).
  { destruct Hs as (Hwf & Hacc & Hplan & Hcap).
    destruct (table_slot s p (proj1 Hwf) Hlt) as [[f|] Hp].
    - destruct (proj1 (proj2 Hwf) p f Hp) as (pg & Hpg & _).
      rewrite (fault_hit d p f pg s Hlt ltac:(lia) Hp Hpg) in Hf1.
      injection Hf1 as <- <-. unfold content, frame_bytes. rewrite Hp, Hpg.
      unfold allocated, table_frames. simpl_machine.
      rewrite list_lookup_insert_eq by eauto using lookup_lt_Some.
      split; [apply plus_n_O | reflexivity].
    - rewrite (fault_miss d p s Hlt ltac:(lia) (alloc_succeeds_head s Hplan) Hp) in Hf1.
      injection Hf1 as <- <-. unfold content, frame_bytes. rewrite Hp.
      unfold allocated, table_frames. simpl_machine.
      rewrite (allocated_fill _ _ _ Hp), list_lookup_middle by reflexivity.
      split; [lia | reflexivity]. }
  exists pfn, s1. eexists.
  split; [exact Hf1|]. split; [apply Hfirst|]. split; [apply Hfirst|].
  split; [exact Hbytes|]. split; [exact Hf2|].
  split; [reflexivity|]. split.
  - rewrite page_refs_update by exact Hpfn. rewrite decide_True by reflexivity.
    unfold page_refs, refs_in. rewrite Hpg1. reflexivity.
  - unfold frame_bytes. simpl_machine.
    rewrite list_lookup_insert_eq by exact Hpfn. rewrite Hpg1. reflexivity.
Qed.

Lemma fault_allocates_on_first_touch_witness :
  exists pfn s1 s2,
    fault modern (Z.of_nat 2) (ramjam_init 4 [])
      = Done (VM_FAULT_NONE, Some pfn) s1 /\
    allocated s1 = (allocated (ramjam_init 4 [])
                    + match content (ramjam_init 4 []) 2 with
                      | Some _ => 0 | None => 1 end)%nat /\
    frame_bytes s1 pfn
      = Some (default (zero_bytes PAGE_SIZE) (content (ramjam_init 4 []) 2)) /\
    (forall a, byte_at s1 a = byte_at (ramjam_init 4 []) a) /\
    fault modern (Z.of_nat 2) s1 = Done (VM_FAULT_NONE, Some pfn) s2 /\
    allocated s2 = allocated s1 /\
    page_refs s2 pfn = S (page_refs s1 pfn) /\
    frame_bytes s2 pfn = frame_bytes s1 pfn.
Proof.
  apply (fault_allocates_on_first_touch modern 2 (ramjam_init 4 [])).
  - apply ramjam_init_store_ok; [lia | constructor].
  - cbn. lia.
Defined.

(** X8 (round trip through the mapping).  A process that has the device
    mapped, in an area to which the mmap handler attached the fault
    handler, copies [src] to any offset of the mapping and copies the same
    range back into a buffer: the buffer then starts with [src].  The
    range may be of any length and alignment and may cross page
    boundaries; pages without a frame are given one by the fault handler
    on the way; and it does not matter in which order [memcpy] touches
    the bytes, as long as it touches them all.  The bytes of the device
    outside the range are as they were.  This holds on a store in good
    order on which allocation succeeds, for a range that lies within the
    mapping and within the device. *)
Theorem mapping_round_trip (d : driver) (vma : vm_area_struct) (ptes : ptes_t)
    (src dst : list Byte.byte) (off : Z) (order_w order_r : list nat)
    (s : machine) :
  map_ok ptes s -> vm_ops vma = true -> 0 <= vm_pgoff vma -> 0 <= off ->
  off + Z.of_nat (length src) <= vm_end vma - vm_start vma ->
  file_addr vma off + Z.of_nat (length src) <= ramjam_pages s * PAGE_SIZE ->
  covers order_w (length src) -> covers order_r (length src) ->
  (length src <= length dst)%nat ->
  exists ptes1 s1 ptes2 s2,
    memcpy_to_map d vma ptes off src order_w s = Done (Ok tt, ptes1) s1 /\
    memcpy_from_map d vma ptes1 off dst (length src) order_r s1
      = Done (Copied (src ++ drop (length src) dst), ptes2) s2 /\
    (forall a, 0 <= a ->
       ~ (file_addr vma off <= a < file_addr vma off + Z.of_nat (length src)) ->
       byte_at s2 a = byte_at s a).
Proof.
  intros Hok Hops Hpg Hoff Harea Hdev Hcw Hcr Hfit.
  destruct (memcpy_to_map_spec d vma src order_w ptes off s
              Hok Hops Hpg Hoff Harea Hdev Hcw)
    as (ptes1 & s1 & Hw & Hok1 & Hcap1 & Hb1).
  destruct (memcpy_from_map_spec d vma (length src) order_r dst ptes1 off s1
              Hok1 Hops Hpg Hoff Harea)
    as (ptes2 & s2 & Hr & Hok2 & Hcap2 & Hb2);
    [rewrite Hcap1; exact Hdev | exact Hfit | exact Hcr |].
  exists ptes1, s1, ptes2, s2. split; [exact Hw|]. split.
  - rewrite Hr. do 4 f_equal. unfold bytes_at. apply map_seq_lookup.
    intros k Hk. assert (Hfa : 0 <= file_addr vma off).
    { unfold file_addr. rewrite page_size_val. lia. }
    rewrite Hb1 by lia. rewrite decide_True by lia.
    replace (file_addr vma off + Z.of_nat k - file_addr vma off) with (Z.of_nat k) by lia.
    rewrite Nat2Z.id. reflexivity.
  - intros a Ha Hout. rewrite Hb2, Hb1 by exact Ha.
    rewrite decide_False by exact Hout. reflexivity.
Qed.

Lemma mapping_round_trip_witness :
  let vma := mkvma 4096 20480 0 true in
  let src := [Byte.x01; Byte.x02; Byte.x03; Byte.x04; Byte.x05; Byte.x06] in
  let dst := replicate 8 Byte.xff in
  let s := ramjam_init 4 [] in
  exists ptes1 s1 ptes2 s2,
    memcpy_to_map bio_based vma ∅ 4093 src (reverse (seq 0 6)) s
      = Done (Ok tt, ptes1) s1 /\
    memcpy_from_map bio_based vma ptes1 4093 dst (length src) (seq 0 6) s1
      = Done (Copied (src ++ drop (length src) dst), ptes2) s2 /\
    (forall a, 0 <= a ->
       ~ (file_addr vma 4093 <= a < file_addr vma 4093 + Z.of_nat (length src)) ->
       byte_at s2 a = byte_at s a).
Proof.
  intros vma src dst s.
  apply (mapping_round_trip bio_based vma ∅ src dst 4093 (reverse (seq 0 6)) (seq 0 6) s).
  - split; [apply ramjam_init_store_ok; [lia | constructor] | apply ptes_ok_empty].
  - reflexivity.
  - cbn. lia.
  - lia.
  - cbn. lia.
  - vm_compute. discriminate.
  - apply covers_reverse, (covers_seq 6).
  - apply (covers_seq 6).
  - cbn. lia.
Defined.

(** X9 (what is written through the mapping is what the block endpoint
    reads).  After a process has copied [src] into the mapping, a block
    read of one whole page returns, byte for byte, the bytes of [src]
    where the page overlaps the range written, and what the device held
    before everywhere else (zero for a page never written); the read
    leaves the store as it is.  This holds on a store in good order on
    which allocation succeeds, for a copy that lies within the mapping
    and within the device and touches each of its bytes, and for a page
    that the handler's position arithmetic can address: a page index
    below 2^20 (the first 4 GiB) in [blk_modern.c], where the position is
    a [uint32_t], and below 2^32 in [blk_bio.c]. *)
Theorem mapping_write_then_block_read (d : driver) (vma : vm_area_struct)
    (ptes : ptes_t) (src : list Byte.byte) (off : Z) (order : list nat)
    (p : nat) (bvec : bio_vec) (s : machine) :
  map_ok ptes s -> vm_ops vma = true -> 0 <= vm_pgoff vma -> 0 <= off ->
  off + Z.of_nat (length src) <= vm_end vma - vm_start vma ->
  file_addr vma off + Z.of_nat (length src) <= ramjam_pages s * PAGE_SIZE ->
  covers order (length src) ->
  Z.of_nat p < max_pages d -> whole_page bvec ->
  exists ptes1 s1 out,
    memcpy_to_map d vma ptes off src order s = Done (Ok tt, ptes1) s1 /\
    submit d READ (8 * Z.of_nat p) [bvec] s1 = Done (BLK_STS_OK, [out]) s1 /\
    length (payload out) = Z.to_nat PAGE_SIZE /\
    (forall k : nat, Z.of_nat k < PAGE_SIZE ->
       let a := Z.of_nat p * PAGE_SIZE + Z.of_nat k in
       payload out !! k =
       Some (if decide (file_addr vma off <= a < file_addr vma off + Z.of_nat (length src))
             then default Byte.x00 (src !! Z.to_nat (a - file_addr vma off))
             else byte_at s a)).
Proof.
  intros Hok Hops Hpg Hoff Harea Hdev Hcov Hmax Hbv.
  destruct (memcpy_to_map_spec d vma src order ptes off s
              Hok Hops Hpg Hoff Harea Hdev Hcov)
    as (ptes1 & s1 & Hw & [Hs1 _] & Hcap1 & Hb1).
  destruct (block_read_page_bytes d p bvec s1 (proj1 Hs1) Hmax Hbv) as (out & Hr & Hout).
  exists ptes1, s1, out. split; [exact Hw|]. split; [exact Hr|].
  rewrite Hout. split; [apply length_bytes_at|].
  intros k Hk a. rewrite lookup_bytes_at by lia. fold a.
  rewrite Hb1; [reflexivity|]. unfold a. rewrite page_size_val. lia.
Qed.

Lemma mapping_write_then_block_read_witness :
  let vma := mkvma 4096 20480 0 true in
  let src := [Byte.x01; Byte.x02; Byte.x03; Byte.x04; Byte.x05; Byte.x06] in
  let s := ramjam_init 4 [] in
  exists ptes1 s1 out,
    memcpy_to_map modern vma ∅ 4093 src (reverse (seq 0 6)) s
      = Done (Ok tt, ptes1) s1 /\
    submit modern READ (8 * Z.of_nat 1) [full_seg Byte.xff] s1
      = Done (BLK_STS_OK, [out]) s1 /\
    length (payload out) = Z.to_nat PAGE_SIZE /\
    (forall k : nat, Z.of_nat k < PAGE_SIZE ->
       let a := Z.of_nat 1 * PAGE_SIZE + Z.of_nat k in
       payload out !! k =
       Some (if decide (file_addr vma 4093 <= a
                        < file_addr vma 4093 + Z.of_nat (length src))
             then default Byte.x00 (src !! Z.to_nat (a - file_addr vma 4093))
             else byte_at s a)).
Proof.
  intros vma src s.
  apply (mapping_write_then_block_read modern vma ∅ src 4093 (reverse (seq 0 6)) 1
           (full_seg Byte.xff) s).
  - split; [apply ramjam_init_store_ok; [lia | constructor] | apply ptes_ok_empty].
  - reflexivity.
  - cbn. lia.
  - lia.
  - cbn. lia.
  - vm_compute. discriminate.
  - apply covers_reverse, (covers_seq 6).
  - vm_compute. reflexivity.
  - vm_compute. repeat split.
Defined.

(** X10 (what the block endpoint writes is what the mapping reads).
    After a whole-page block write of [data] to page [p], a process that
    copies any range of that page out of its mapping into a buffer gets
    the bytes of [data] at that place; it does not matter whether the
    process had touched the page before the write.  This holds on a store
    in good order on which allocation succeeds (when [alloc_page] fails
    the handler drops the write), for a page of the device that the
    handler's position arithmetic can address (a page index below 2^20
    in [blk_modern.c], below 2^32 in [blk_bio.c]), and for a copy that
    lies within the mapping, fits the buffer and touches each of its
    bytes. *)
Theorem block_write_then_mapping_read (d : driver) (vma : vm_area_struct)
    (ptes : ptes_t) (p : nat) (data dst : list Byte.byte) (off : Z) (len : nat)
    (order : list nat) (s : machine) :
  map_ok ptes s ->
  Z.of_nat p < ramjam_pages s -> Z.of_nat p < max_pages d ->
  Z.of_nat (length data) = PAGE_SIZE ->
  vm_ops vma = true -> 0 <= vm_pgoff vma -> 0 <= off ->
  off + Z.of_nat len <= vm_end vma - vm_start vma ->
  Z.of_nat p * PAGE_SIZE <= file_addr vma off ->
  file_addr vma off + Z.of_nat len <= (Z.of_nat p + 1) * PAGE_SIZE ->
  (len <= length dst)%nat -> covers order len ->
  exists s1 ptes2 s2,
    submit d WRITE (8 * Z.of_nat p) [page_seg data] s
      = Done (BLK_STS_OK, [page_seg data]) s1 /\
    memcpy_from_map d vma ptes off dst len order s1
      = Done (Copied (slice data (file_addr vma off - Z.of_nat p * PAGE_SIZE)
                            (Z.of_nat len) ++ drop len dst),
              ptes2) s2.
Proof.
  intros [Hs Hptes] Hlt Hmax Hdata Hops Hpg Hoff Harea Hlo Hhi Hfit Hcov.
  destruct (block_write_page_bytes d p data s Hs Hlt Hmax Hdata)
    as (s1 & Hw & Hs1 & Hgrow & Hmono & Hb1).
  assert (Hok1 : map_ok ptes s1).
  { split; [exact Hs1 | apply (ptes_ok_grows ptes s s1); assumption]. }
  destruct (memcpy_from_map_spec d vma len order dst ptes off s1 Hok1 Hops Hpg Hoff Harea)
    as (ptes2 & s2 & Hr & _); [|exact Hfit | exact Hcov |].
  { rewrite (proj1 Hgrow). rewrite page_size_val in *. lia. }
  exists s1, ptes2, s2. split; [exact Hw|]. rewrite Hr. do 4 f_equal.
  set (fa := file_addr vma off) in *. set (o := fa - Z.of_nat p * PAGE_SIZE).
  assert (Ho : 0 <= o /\ o + Z.of_nat len <= PAGE_SIZE) by (unfold o; lia).
  apply list_eq. intros k. unfold slice.
  destruct (decide (k < len)%nat) as [Hk|Hk].
  - rewrite lookup_bytes_at by exact Hk.
    rewrite lookup_take_lt, lookup_drop by lia.
    replace (fa + Z.of_nat k)
      with (Z.of_nat p * PAGE_SIZE + Z.of_nat (Z.to_nat o + k)) by (unfold o; lia).
    rewrite Hb1 by lia. rewrite decide_True by reflexivity.
    destruct (lookup_lt_is_Some_2 data (Z.to_nat o + k)) as [x Hx]; [lia|].
    rewrite Hx. reflexivity.
  - rewrite lookup_ge_None_2 by (rewrite length_bytes_at; lia).
    symmetry. apply lookup_ge_None_2. rewrite length_take, length_drop. lia.
Qed.

Lemma block_write_then_mapping_read_witness :
  let vma := mkvma 4096 20480 0 true in
  let data := replicate (Z.to_nat 4096) Byte.xaa in
  let dst := replicate 128 Byte.x00 in
  let s := ramjam_init 4 [] in
  exists s1 ptes2 s2,
    submit modern WRITE (8 * Z.of_nat 2) [page_seg data] s
      = Done (BLK_STS_OK, [page_seg data]) s1 /\
    memcpy_from_map modern vma ∅ 8200 dst 100 (reverse (seq 0 100)) s1
      = Done (Copied (slice data (file_addr vma 8200 - Z.of_nat 2 * PAGE_SIZE)
                            (Z.of_nat 100) ++ drop 100 dst), ptes2) s2.
Proof.
  intros vma data dst s.
  apply (block_write_then_mapping_read modern vma ∅ 2 data dst 8200 100
           (reverse (seq 0 100)) s).
  - split; [apply ramjam_init_store_ok; [lia | constructor] | apply ptes_ok_empty].
  - cbn. lia.
  - vm_compute. reflexivity.
  - vm_compute. reflexivity.
  - reflexivity.
  - cbn. lia.
  - lia.
  - cbn. lia.
  - vm_compute. discriminate.
  - vm_compute. discriminate.
  - cbn. lia.
  - apply covers_reverse, (covers_seq 100).
Defined.

(** X11 (unloading gives everything back).  When the module is unloaded
    after any sequence of operations on a store of fewer than 2^31 pages,
    [ramjam_exit] of either variant runs to its end without indexing
    outside the table, leaves none of the module's registrations live,
    and drops exactly one reference, the table's, on every frame that was
    ever allocated, changing no byte; so every frame that no mapping
    still holds goes back to the allocator. *)
Theorem unload_releases_everything (d : driver) (os : list op) (n : Z)
    (plan : list bool) (ks : kstate) (s : machine) :
  0 <= n < 2 ^ 31 ->
  exec_all d os (ramjam_init n plan) = Done tt s ->
  exists ks' s',
    module_exit d ks s = Done ks' s' /\
    live ks' = [] /\ pages s' = [] /\
    (forall pfn : nat, (pfn < length (physmem s))%nat ->
       S (page_refs s' pfn) = page_refs s pfn) /\
    (forall pfn : nat, frame_bytes s' pfn = frame_bytes s pfn).
Proof.
  intros Hn Hrun.
  pose proof (reachable_wf d os n plan s ltac:(lia) Hrun) as Hwf.
  pose proof (exec_all_accounted d os (ramjam_init n plan)
                (ramjam_init_accounted n plan)) as Hacc.
  rewrite Hrun in Hacc.
  pose proof (exec_all_grows d os (ramjam_init n plan) s
                (proj1 (ramjam_init_wf n plan ltac:(lia))) Hrun) as (Hcap & _).
  cbn [ramjam_init ramjam_pages] in Hcap.
  rewrite (module_exit_spec d ks s Hwf Hacc ltac:(lia)).
  eexists. eexists. split; [reflexivity|].
  split; [reflexivity|]. split; [reflexivity|]. split.
  - intros pfn Hlt. unfold page_refs at 1. simpl_machine.
    rewrite refs_in_drop_refs by (apply table_frames_NoDup, Hwf).
    destruct (proj2 Hacc pfn Hlt) as [i Hi].
    rewrite decide_True by (apply elem_of_table_frames; eauto).
    pose proof (proj1 Hacc i pfn Hi) as Hpos.
    fold (page_refs s pfn). lia.
  - intros pfn. unfold frame_bytes. simpl_machine. apply bytes_drop_refs.
Qed.

Lemma unload_releases_everything_witness :
  let os := [OpSubmit WRITE 8 [full_seg Byte.xaa]; OpFault 3] in
  let s := state_after (exec_all bio_based os) (ramjam_init 4 []) in
  exists ks' s',
    module_exit bio_based (mkkstate all_resources 32) s = Done ks' s' /\
    live ks' = [] /\ pages s' = [] /\
    (forall pfn : nat, (pfn < length (physmem s))%nat ->
       S (page_refs s' pfn) = page_refs s pfn) /\
    (forall pfn : nat, frame_bytes s' pfn = frame_bytes s pfn).
Proof.
  intros os s.
  apply (unload_releases_everything bio_based os 4 [] (mkkstate all_resources 32) s).
  - lia.
  - vm_compute. reflexivity.
Defined.

(** X12 ([ramjam_init] of [blk_bio.c] is all or nothing).  Either every
    call succeeds, and the function returns 0 with the page table, the
    character device region, class, cdev and device node, the block
    major, the tag set and the disk all live, the disk being added with
    a capacity of [ramjam_pages * (PAGE_SIZE / 512)] sectors; or it
    returns the negated errno of the first call that fails ([-ENOMEM]
    for the table) and nothing it had acquired before is left live. *)
Theorem bio_init_all_or_nothing (k : kernel) (n : Z) :
  (Forall (fun c => k c = None) bio_init_calls /\
   BioModule.ramjam_init k n = (0, mkkstate all_resources (capacity_sectors n)))
  \/
  (exists before c after e,
      bio_init_calls = before ++ c :: after /\
      Forall (fun c' => k c' = None) before /\
      k c = Some e /\
      BioModule.ramjam_init k n
      = (- match c with K_vcalloc => ENOMEM | _ => e end, mkkstate [] 0)).
Proof.
  unfold BioModule.ramjam_init, bio_init_calls.
  destruct (k K_vcalloc) as [e|] eqn:H1.
  { right. exists [], K_vcalloc. eexists. exists e.
    split; [reflexivity|]. repeat split; [constructor | assumption]. }
  destruct (k K_alloc_chrdev_region) as [e|] eqn:H2.
  { right. exists [K_vcalloc], K_alloc_chrdev_region. eexists. exists e.
    split; [reflexivity|]. repeat split; [repeat constructor; assumption | assumption]. }
  destruct (k K_class_create) as [e|] eqn:H3.
  { right. exists [K_vcalloc; K_alloc_chrdev_region], K_class_create.
    eexists. exists e.
    split; [reflexivity|]. repeat split; [repeat constructor; assumption | assumption]. }
  destruct (k K_cdev_add) as [e|] eqn:H4.
  { right. exists [K_vcalloc; K_alloc_chrdev_region; K_class_create], K_cdev_add.
    eexists. exists e.
    split; [reflexivity|]. repeat split; [repeat constructor; assumption | assumption]. }
  destruct (k K_device_create) as [e|] eqn:H5.
  { right.
    exists [K_vcalloc; K_alloc_chrdev_region; K_class_create; K_cdev_add],
      K_device_create.
    eexists. exists e.
    split; [reflexivity|]. repeat split; [repeat constructor; assumption | assumption]. }
  destruct (k K_register_blkdev) as [e|] eqn:H6.
  { right.
    exists [K_vcalloc; K_alloc_chrdev_region; K_class_create; K_cdev_add;
            K_device_create], K_register_blkdev.
    eexists. exists e.
    split; [reflexivity|]. repeat split; [repeat constructor; assumption | assumption]. }
  destruct (k K_blk_mq_alloc_tag_set) as [e|] eqn:H7.
  { right.
    exists [K_vcalloc; K_alloc_chrdev_region; K_class_create; K_cdev_add;
            K_device_create; K_register_blkdev], K_blk_mq_alloc_tag_set.
    eexists. exists e.
    split; [reflexivity|]. repeat split; [repeat constructor; assumption | assumption]. }
  destruct (k K_blk_mq_alloc_disk) as [e|] eqn:H8.
  { right.
    exists [K_vcalloc; K_alloc_chrdev_region; K_class_create; K_cdev_add;
            K_device_create; K_register_blkdev; K_blk_mq_alloc_tag_set],
      K_blk_mq_alloc_disk.
    eexists. exists e.
    split; [reflexivity|]. repeat split; [repeat constructor; assumption | assumption]. }
  destruct (k K_add_disk) as [e|] eqn:H9.
  { right.
    exists [K_vcalloc; K_alloc_chrdev_region; K_class_create; K_cdev_add;
            K_device_create; K_register_blkdev; K_blk_mq_alloc_tag_set;
            K_blk_mq_alloc_disk], K_add_disk.
    eexists. exists e.
    split; [reflexivity|]. repeat split; [repeat constructor; assumption | assumption]. }
  left. split; [repeat constructor; assumption | reflexivity].
Qed.

(** X13 (the error path of [ramjam_init] of [blk_modern.c]).  The
    function looks at the result of seven of its nine calls; the results
    of [device_create] and [cdev_add] are ignored, so it returns 0 as
    soon as those seven succeed.  When one of the seven fails it returns
    the negated errno of the first that does, and its error path releases
    the page table, the character device region, the class and what it
    had of the block device, but neither the cdev nor the device node:
    if the failure comes after the character device was set up, the cdev
    and the device node that were created are still live when the
    function returns its error. *)
Theorem modern_init_error_path (k : kernel) (n : Z) :
  let chardev :=
    match k K_cdev_add with Some _ => [] | None => [R_cdev] end ++
    match k K_device_create with Some _ => [] | None => [R_device] end in
  (Forall (fun c => k c = None) modern_checked_calls /\
   ModernModule.ramjam_init k n
   = (0, mkkstate ([R_gendisk; R_disk; R_tag_set; R_blkdev] ++ chardev ++
                   [R_class; R_chrdev_region; R_pages]) (capacity_sectors n)))
  \/
  (exists before c after e,
      modern_checked_calls = before ++ c :: after /\
      Forall (fun c' => k c' = None) before /\
      k c = Some e /\
      ModernModule.ramjam_init k n
      = (- match c with K_vcalloc => ENOMEM | _ => e end,
         mkkstate match c with
                  | K_vcalloc | K_alloc_chrdev_region | K_class_create => []
                  | _ => chardev
                  end 0)).
Proof.
  intros chardev. unfold ModernModule.ramjam_init, modern_checked_calls.
  destruct (k K_vcalloc) as [e|] eqn:H1.
  { right. exists [], K_vcalloc. eexists. exists e.
    split; [reflexivity|]. repeat split; [constructor | assumption]. }
  destruct (k K_alloc_chrdev_region) as [e|] eqn:H2.
  { right. exists [K_vcalloc], K_alloc_chrdev_region. eexists. exists e.
    split; [reflexivity|]. repeat split; [repeat constructor; assumption | assumption]. }
  destruct (k K_class_create) as [e|] eqn:H3.
  { right. exists [K_vcalloc; K_alloc_chrdev_region], K_class_create.
    eexists. exists e.
    split; [reflexivity|]. repeat split; [repeat constructor; assumption | assumption]. }
  destruct (k K_register_blkdev) as [e|] eqn:H6.
  { right. exists [K_vcalloc; K_alloc_chrdev_region; K_class_create], K_register_blkdev.
    eexists. exists e.
    split; [reflexivity|].
    split; [repeat constructor; assumption|]. split; [assumption|].
    unfold chardev. destruct (k K_cdev_add), (k K_device_create); reflexivity. }
  destruct (k K_blk_mq_alloc_tag_set) as [e|] eqn:H7.
  { right.
    exists [K_vcalloc; K_alloc_chrdev_region; K_class_create; K_register_blkdev],
      K_blk_mq_alloc_tag_set.
    eexists. exists e.
    split; [reflexivity|].
    split; [repeat constructor; assumption|]. split; [assumption|].
    unfold chardev. destruct (k K_cdev_add), (k K_device_create); reflexivity. }
  destruct (k K_blk_mq_alloc_disk) as [e|] eqn:H8.
  { right.
    exists [K_vcalloc; K_alloc_chrdev_region; K_class_create; K_register_blkdev;
            K_blk_mq_alloc_tag_set], K_blk_mq_alloc_disk.
    eexists. exists e.
    split; [reflexivity|].
    split; [repeat constructor; assumption|]. split; [assumption|].
    unfold chardev. destruct (k K_cdev_add), (k K_device_create); reflexivity. }
  destruct (k K_add_disk) as [e|] eqn:H9.
  { right.
    exists [K_vcalloc; K_alloc_chrdev_region; K_class_create; K_register_blkdev;
            K_blk_mq_alloc_tag_set; K_blk_mq_alloc_disk], K_add_disk.
    eexists. exists e.
    split; [reflexivity|].
    split; [repeat constructor; assumption|]. split; [assumption|].
    unfold chardev. destruct (k K_cdev_add), (k K_device_create); reflexivity. }
  left. split; [repeat constructor; assumption|].
  unfold chardev. destruct (k K_cdev_add), (k K_device_create); reflexivity.
Qed.

(** X14 (the advertised capacity is the table, in [blk_bio.c]).  When
    [ramjam_init] has succeeded, the disk is as large as [set_capacity]
    made it; every bio that lies within that capacity, with segments of
    at least one sector, resolves each of its segments to a page index
    within the table, so for the requests the block layer lets through
    the handler never takes its out-of-range path. *)
Theorem bio_within_capacity_stays_in_table (k : kernel) (n : Z) (ks : kstate)
    (sector : Z) (segs : list bio_vec) :
  0 <= n < 2 ^ 32 ->
  BioModule.ramjam_init k n = (0, ks) ->
  0 <= sector ->
  Forall (fun bv => 512 <= bv_len bv) segs ->
  sector + bio_sectors segs <= disk_capacity ks ->
  Forall (fun i => 0 <= i < n) (seg_indices bio_based sector segs).
Proof.
  intros Hn Hinit Hs Hsegs Hfit.
  pose proof (bio_init_capacity k n) as Hcap. rewrite Hinit in Hcap. cbn [snd] in Hcap.
  rewrite capacity_sectors_pages in Hcap by exact Hn.
  apply bio_indices_in_table; try assumption.
  destruct Hcap as [Hcap|Hcap]; rewrite Hcap in Hfit; lia.
Qed.

Lemma bio_within_capacity_stays_in_table_witness :
  Forall (fun i => 0 <= i < 4)
         (seg_indices bio_based 16 [full_seg Byte.xaa; full_seg Byte.xbb]).
Proof.
  apply (bio_within_capacity_stays_in_table
           (fun _ => None) 4 (mkkstate all_resources 32) 16
           [full_seg Byte.xaa; full_seg Byte.xbb]).
  - lia.
  - vm_compute. reflexivity.
  - lia.
  - repeat (constructor; [vm_compute; discriminate|]). constructor.
  - vm_compute. discriminate.
Defined.

(** X15 ([test.c] echoes its input through the device).  Run with both
    operations selected (the default), [main] maps the device, copies
    what it reads from standard input (at most 8192 bytes) into the
    mapping at [offset], copies the same range back and writes it to
    standard output: the output is the input.  It exits with status 0,
    and afterwards the device holds the input at [offset] and is
    unchanged elsewhere.  This needs a store in good order on which
    allocation succeeds, the range to lie within the mapping of 512 MiB
    and within the device, and, with [blk_bio.c], a device of at least
    512 MiB, since [rramjam_mmap] refuses the mapping otherwise.  The
    order in which the two calls of [memcpy] touch their bytes does not
    matter, as long as each touches all of them. *)
Theorem test_main_echo (d : driver) (base : Z) (args : list Z)
    (input : list Byte.byte) (order_w order_r : list nat) (s : machine) :
  let operation := default (Z.lor OP_READ OP_WRITE) (args !! 0%nat) in
  let offset := default 0 (args !! 1%nat) in
  let buf := take (Z.to_nat BUF_LEN) input in
  store_ok s -> 0 <= base -> base + MAP_LEN < 2 ^ 64 ->
  Z.land operation OP_WRITE <> 0 -> Z.land operation OP_READ <> 0 ->
  0 <= offset -> offset + Z.of_nat (length buf) <= MAP_LEN ->
  offset + Z.of_nat (length buf) <= ramjam_pages s * PAGE_SIZE ->
  (d = bio_based -> MAP_LEN <= ramjam_pages s * PAGE_SIZE) ->
  covers order_w (length buf) -> covers order_r (length buf) ->
  exists s',
    test_main d base args input order_w order_r s = Done (Exited 0 buf) s' /\
    (forall a, 0 <= a ->
       byte_at s' a =
       if decide (offset <= a < offset + Z.of_nat (length buf))
       then default Byte.x00 (buf !! Z.to_nat (a - offset))
       else byte_at s a).
Proof.
  intros operation offset buf Hs Hbase Hend Hw Hr Hoff Harea Hdev Hbio Hcw Hcr.
  set (vma := mkvma base (base + MAP_LEN) 0 true).
  assert (Hlenbuf : Z.of_nat (length buf) <= BUF_LEN).
  { unfold buf. rewrite length_take. unfold BUF_LEN. lia. }
  destruct (memcpy_to_map_spec d vma buf order_w ∅ offset s) as
    (ptes1 & s1 & Hcopy & Hok1 & Hcap1 & Hb1).
  { split; [exact Hs | apply ptes_ok_empty]. }
  { reflexivity. }
  { reflexivity. }
  { exact Hoff. }
  { cbn [vma vm_end vm_start]. lia. }
  { rewrite file_addr_0 by reflexivity. exact Hdev. }
  { exact Hcw. }
  set (buf2 := replicate (Z.to_nat BUF_LEN) Byte.x00).
  destruct (memcpy_from_map_spec d vma (length buf) order_r buf2 ptes1 offset s1 Hok1) as
    (ptes2 & s2 & Hback & Hok2 & Hcap2 & Hb2).
  { reflexivity. }
  { reflexivity. }
  { exact Hoff. }
  { cbn [vma vm_end vm_start]. lia. }
  { rewrite file_addr_0, Hcap1 by reflexivity. exact Hdev. }
  { unfold buf2. rewrite length_replicate. lia. }
  { exact Hcr. }
  destruct (unmap_spec ptes2 s2 Hok2) as (s3 & Hun & _ & _ & Hb3 & _).
  rewrite file_addr_0 in Hb1, Hback by reflexivity.
  assert (Hbytes : bytes_at s1 offset (length buf) = buf).
  { unfold bytes_at. apply map_seq_lookup. intros k Hk.
    rewrite Hb1 by lia. rewrite decide_True by lia.
    replace (offset + Z.of_nat k - offset) with (Z.of_nat k) by lia.
    rewrite Nat2Z.id. reflexivity. }
  rewrite Hbytes in Hback.
  assert (Hn : Z.to_nat (u64 (Z.of_nat (length buf))) = length buf).
  { rewrite u64_small by (unfold BUF_LEN in Hlenbuf; lia). apply Nat2Z.id. }
  exists s3. split.
  - unfold test_main. fold operation offset buf.
    unfold bind at 1.
    rewrite (mmap_accepts d base s (proj1 Hs)
               ltac:(destruct Hs as (_ & _ & _ & ?); assumption) Hbase Hend Hbio).
    cbv beta iota. change (negb (0 =? 0)) with false. cbv beta iota.
    rewrite (proj2 (Z.eqb_neq _ _) Hw), (proj2 (Z.eqb_neq _ _) Hr).
    cbn [negb]. fold vma. unfold bind at 1. rewrite Hcopy. cbv beta iota.
    rewrite Hn. fold buf2. unfold bind at 1. rewrite Hback. cbv beta iota.
    unfold bind. rewrite Hun. rewrite Nat2Z.id, take_app_length. reflexivity.
  - intros a Ha. rewrite Hb3, Hb2. apply Hb1, Ha.
Qed.

Lemma test_main_echo_witness :
  let input := [Byte.x68; Byte.x65; Byte.x6c; Byte.x6c; Byte.x6f] in
  let s := ramjam_init 262144 [] in
  exists s',
    test_main bio_based 0 [3; 4094] input (reverse (seq 0 5)) (seq 0 5) s
      = Done (Exited 0 input) s' /\
    (forall a, 0 <= a ->
       byte_at s' a =
       if decide (4094 <= a < 4094 + Z.of_nat (length input))
       then default Byte.x00 (input !! Z.to_nat (a - 4094))
       else byte_at s a).
Proof.
  intros input s.
  apply (test_main_echo bio_based 0 [3; 4094] input (reverse (seq 0 5)) (seq 0 5) s).
  - apply ramjam_init_store_ok; [lia | constructor].
  - lia.
  - vm_compute. reflexivity.
  - vm_compute. discriminate.
  - vm_compute. discriminate.
  - vm_compute. discriminate.
  - vm_compute. discriminate.
  - vm_compute. discriminate.
  - intros _. vm_compute. discriminate.
  - apply covers_reverse, (covers_seq 5).
  - apply (covers_seq 5).
Defined.

(** X16 ([test.c] against a small [blk_bio.c] device).  [main] always
    asks for a mapping of 512 MiB.  With [blk_bio.c] and a device smaller
    than that, [rramjam_mmap] refuses the mapping with [-EINVAL], so
    [main] exits with [EXIT_FAILURE] whatever its arguments and input,
    having written nothing to standard output and changed nothing in the
    store. *)
Theorem test_main_refused_on_small_device (base : Z) (args : list Z)
    (input : list Byte.byte) (order_w order_r : list nat) (s : machine) :
  wf_store s -> ramjam_pages s < 2 ^ 32 ->
  0 <= base -> base + MAP_LEN < 2 ^ 64 ->
  ramjam_pages s * PAGE_SIZE < MAP_LEN ->
  test_main bio_based base args input order_w order_r s
    = Done (Exited EXIT_FAILURE []) s.
Proof.
  intros Hwf Hcap Hbase Hend Hsmall.
  unfold test_main, bind.
  rewrite (mmap_refuses base s Hwf Hcap Hbase Hend Hsmall). reflexivity.
Qed.

Lemma test_main_refused_on_small_device_witness :
  test_main bio_based 4096 [] [Byte.x68; Byte.x69] [0; 1]%nat [1; 0]%nat
            (ramjam_init 4 [])
  = Done (Exited EXIT_FAILURE []) (ramjam_init 4 []).
Proof.
  apply (test_main_refused_on_small_device 4096 [] [Byte.x68; Byte.x69]
           [0; 1]%nat [1; 0]%nat (ramjam_init 4 [])).
  - apply ramjam_init_wf. lia.
  - cbn. lia.
  - lia.
  - vm_compute. reflexivity.
  - vm_compute. reflexivity.
Defined.

(** X17 (an access beyond the device is a SIGBUS).  When a process
    touches a byte of its mapping whose page index is at or beyond
    [ramjam_pages] (which a mapping accepted by [ramjam_mmap] of
    [blk_modern.c] can contain, as that handler checks nothing), the
    fault handler of either variant answers [VM_FAULT_SIGBUS]: a copy
    whose first access is to such a byte stops there with SIGBUS, no
    page-table entry is added, and table, frames and allocator are
    untouched. *)
Theorem access_beyond_device_is_sigbus (d : driver) (vma : vm_area_struct)
    (ptes : ptes_t) (off : Z) (src dst : list Byte.byte) (n k : nat)
    (b : Byte.byte) (rest : list nat) (s : machine) :
  wf_store s -> ptes_ok ptes s ->
  0 <= vm_pgoff vma -> 0 <= off + Z.of_nat k < vm_end vma - vm_start vma ->
  ramjam_pages s <= vm_pgoff vma + Z.shiftr (off + Z.of_nat k) PAGE_SHIFT < 2 ^ 32 ->
  src !! k = Some b -> (k < n)%nat ->
  memcpy_to_map d vma ptes off src (k :: rest) s = Done (Sig SIGBUS, ptes) s /\
  memcpy_from_map d vma ptes off dst n (k :: rest) s = Done (Stopped SIGBUS, ptes) s.
Proof.
  intros Hwf Hptes Hpg Hoff Hout Hsrc Hkn.
  set (o := off + Z.of_nat k) in *.
  set (pg := vm_pgoff vma + Z.shiftr o PAGE_SHIFT) in *.
  assert (Hnone : ptes !! pg = None).
  { destruct (ptes !! pg) as [pfn|] eqn:E; [|reflexivity].
    destruct (Hptes pg pfn E) as (H0 & Hslot & _).
    apply lookup_lt_Some in Hslot. rewrite (wf_store_length s Hwf) in Hslot.
    destruct Hwf as ([Hcap _] & _). lia. }
  assert (Hfault : fault d pg s = Done (VM_FAULT_SIGBUS, None) s).
  { destruct d; cbn [fault].
    - apply (proj1 (ramjam_vma_fault_errors pg s)). lia.
    - apply (proj1 (ramjam_vm_fault_errors pg s)).
      rewrite u32_small; [lia|]. destruct Hwf as ([Hcap _] & _). lia. }
  assert (Htouch : touch d vma ptes o s = Done (Sig SIGBUS, ptes) s).
  { unfold touch.
    destruct (Z.leb_spec 0 o); [|lia].
    destruct (Z.ltb_spec o (vm_end vma - vm_start vma)); [|lia].
    cbn [andb]. fold pg. rewrite u64_small.
    - rewrite Hnone. destruct (vm_ops vma); [|reflexivity].
      unfold bind. rewrite Hfault. reflexivity.
    - destruct Hwf as ([Hcap _] & _). lia. }
  split.
  - cbn [memcpy_to_map]. rewrite Hsrc. fold o. unfold bind. rewrite Htouch. reflexivity.
  - cbn [memcpy_from_map]. rewrite (proj2 (Nat.ltb_lt k n) Hkn). fold o.
    unfold bind. rewrite Htouch. reflexivity.
Qed.

Lemma access_beyond_device_is_sigbus_witness :
  let vma := mkvma 0 MAP_LEN 0 true in
  let s := ramjam_init 4 [] in
  memcpy_to_map modern vma ∅ 16383 [Byte.x68; Byte.x69] [1; 0]%nat s
    = Done (Sig SIGBUS, ∅) s /\
  memcpy_from_map modern vma ∅ 16383 [Byte.x00; Byte.x00] 2 [1; 0]%nat s
    = Done (Stopped SIGBUS, ∅) s.
Proof.
  intros vma s.
  apply (access_beyond_device_is_sigbus modern vma ∅ 16383 [Byte.x68; Byte.x69]
           [Byte.x00; Byte.x00] 2 1 Byte.x69 [0%nat] s).
  - apply ramjam_init_wf. lia.
  - apply ptes_ok_empty.
  - cbn. lia.
  - vm_compute. split; [discriminate | reflexivity].
  - vm_compute. split; [discriminate | reflexivity].
  - reflexivity.
  - lia.
Defined.

(** X18 ([test.c] leaves no reference behind).  Take any run of [main]
    whose copies stay within the mapping and within its buffers: an
    offset from 0 to 512 MiB less 8192 and a count from 0 to 8192, with
    any operation, any input, and [memcpy] touching the bytes in any
    order.  On a store in good order on which allocation succeeds, the
    run comes to an end, by [exit] or, when the range reaches beyond the
    device, by a SIGBUS, and the driver meets no undefined access.  Each
    fault has taken a reference on the frame it returned; when the
    mapping is gone every one of them has been given back.  The store is
    in good order again, every frame that existed before has exactly the
    references it had, and every frame allocated during the run has one
    reference, the table's, which [ramjam_exit] drops. *)
Theorem test_main_gives_references_back (d : driver) (base : Z) (args : list Z)
    (input : list Byte.byte) (order_w order_r : list nat) (s : machine) :
  let offset := default 0 (args !! 1%nat) in
  let cnt := default BUF_LEN (args !! 2%nat) in
  store_ok s -> 0 <= base -> base + MAP_LEN < 2 ^ 64 ->
  0 <= offset -> offset + BUF_LEN <= MAP_LEN -> 0 <= cnt <= BUF_LEN ->
  exists r s',
    test_main d base args input order_w order_r s = Done r s' /\
    ((exists status out, r = Exited status out) \/ r = Killed SIGBUS) /\
    store_ok s' /\
    ramjam_pages s' = ramjam_pages s /\
    (forall f, (f < length (physmem s))%nat -> page_refs s' f = page_refs s f) /\
    (forall f, (length (physmem s) <= f < length (physmem s'))%nat ->
       page_refs s' f = 1%nat).
Proof.
  intros offset cnt Hs Hbase Hend Hoff Hin Hcnt.
  destruct (test_main_total d base args input order_w order_r s Hs Hbase Hend)
    as (r & s' & Hrun & Hs' & Hold & Hnew & Hcap & Hres).
  exists r, s'. split; [exact Hrun|]. split; [exact (Hres Hoff Hin Hcnt)|].
  split; [exact Hs'|]. split; [exact Hcap | split; assumption].
Qed.

Lemma test_main_gives_references_back_witness :
  let s := state_after (fault modern 1) (ramjam_init 4 []) in
  let input := [Byte.x68; Byte.x69; Byte.x21; Byte.x0a; Byte.x68; Byte.x69] in
  exists r s',
    test_main modern 0 [3; 16380] input (seq 0 6) (seq 0 6) s = Done r s' /\
    ((exists status out, r = Exited status out) \/ r = Killed SIGBUS) /\
    store_ok s' /\
    ramjam_pages s' = ramjam_pages s /\
    (forall f, (f < length (physmem s))%nat -> page_refs s' f = page_refs s f) /\
    (forall f, (length (physmem s) <= f < length (physmem s'))%nat ->
       page_refs s' f = 1%nat).
Proof.
  intros s input.
  apply (test_main_gives_references_back modern 0 [3; 16380] input (seq 0 6) (seq 0 6) s).
  - destruct (fault_resolves modern 1 (ramjam_init 4 [])) as (pfn & s1 & Hf & Hs1 & _).
    + apply ramjam_init_store_ok; [lia | constructor].
    + cbn. lia.
    + unfold s, state_after. change (Z.of_nat 1) with 1 in Hf. rewrite Hf. exact Hs1.
  - lia.
  - vm_compute. reflexivity.
  - vm_compute. discriminate.
  - vm_compute. discriminate.
  - vm_compute. split; discriminate.
Defined.

(** X19 (load, use, unload: all memory comes back).  On a freshly
    initialised store of fewer than 2^31 pages on which allocation
    succeeds, after any run of [test.c] whose copies stay within the
    mapping and within its buffers (an offset from 0 to 512 MiB less
    8192, a count from 0 to 8192; any operation, input and order of
    [memcpy]), unloading the module with [ramjam_exit] of either variant
    leaves no registration live and no reference on any frame: every page
    that the run made the driver allocate is back with the allocator. *)
Theorem test_then_unload_frees_every_frame (d : driver) (n : Z) (plan : list bool)
    (base : Z) (args : list Z) (input : list Byte.byte)
    (order_w order_r : list nat) (ks : kstate) :
  let offset := default 0 (args !! 1%nat) in
  let cnt := default BUF_LEN (args !! 2%nat) in
  0 <= n < 2 ^ 31 -> Forall (fun b => b = true) plan ->
  0 <= base -> base + MAP_LEN < 2 ^ 64 ->
  0 <= offset -> offset + BUF_LEN <= MAP_LEN -> 0 <= cnt <= BUF_LEN ->
  exists r s1 ks' s2,
    test_main d base args input order_w order_r (ramjam_init n plan) = Done r s1 /\
    ((exists status out, r = Exited status out) \/ r = Killed SIGBUS) /\
    module_exit d ks s1 = Done ks' s2 /\
    live ks' = [] /\
    (forall f : nat, page_refs s2 f = 0%nat).
Proof.
  intros offset cnt Hn Hplan Hbase Hend Hoff Hin Hcnt.
  destruct (test_main_total d base args input order_w order_r (ramjam_init n plan))
    as (r & s1 & Hrun & (Hwf & Hacc & _) & _ & Hnew & Hcap & Hres);
    [apply ramjam_init_store_ok; [lia | exact Hplan] | assumption..|].
  cbn [ramjam_init ramjam_pages physmem length] in Hnew, Hcap.
  exists r, s1. eexists. eexists. split; [exact Hrun|].
  split; [exact (Hres Hoff Hin Hcnt)|].
  rewrite (module_exit_spec d ks s1 Hwf Hacc ltac:(lia)).
  split; [reflexivity|]. split; [reflexivity|].
  intros f. unfold page_refs at 1. simpl_machine.
  rewrite refs_in_drop_refs by (apply table_frames_NoDup, Hwf).
  fold (page_refs s1 f).
  destruct (decide (f < length (physmem s1))%nat) as [Hlt|Hge].
  - rewrite (Hnew f ltac:(lia)). destruct (proj2 Hacc f Hlt) as [i Hi].
    rewrite decide_True by (apply elem_of_table_frames; eauto). reflexivity.
  - assert (page_refs s1 f = 0%nat) as ->.
    { unfold page_refs, refs_in. rewrite lookup_ge_None_2 by lia. reflexivity. }
    destruct (decide _); reflexivity.
Qed.

Lemma test_then_unload_frees_every_frame_witness :
  exists r s1 ks' s2,
    test_main bio_based 0 [1; 100] [Byte.x68; Byte.x69] [1; 0]%nat []
              (ramjam_init 262144 [])
      = Done r s1 /\
    ((exists status out, r = Exited status out) \/ r = Killed SIGBUS) /\
    module_exit bio_based (mkkstate all_resources 2097152) s1 = Done ks' s2 /\
    live ks' = [] /\
    (forall f : nat, page_refs s2 f = 0%nat).
Proof.
  apply (test_then_unload_frees_every_frame bio_based 262144 [] 0 [1; 100]
           [Byte.x68; Byte.x69] [1; 0]%nat [] (mkkstate all_resources 2097152)).
  - lia.
  - constructor.
  - lia.
  - vm_compute. reflexivity.
  - vm_compute. discriminate.
  - vm_compute. discriminate.
  - vm_compute. split; discriminate.
Defined.

(** X20 (a block write puts its bytes at its sector).  A write request
    whose segments line up with the device (in [blk_modern.c]: buffer
    offset and position do not carry into the next page and no segment
    crosses a store page; in [blk_bio.c]: the buffer offset equals the
    position modulo the page size and lengths are whole sectors)
    completes with [BLK_STS_OK], and afterwards the device holds the
    request's bytes, in order, from byte [sector * 512] on; every other
    byte of the device is as before.  This holds on a store in good order
    on which allocation succeeds (when [alloc_page] fails the handler
    drops the segment), for segments that lie within their buffer pages
    and are not empty, and for a request that ends within the device and
    within what the handler's position arithmetic can address: the first
    4 GiB in [blk_modern.c], where the position is a [uint32_t], and
    2^32 pages in [blk_bio.c]. *)
Theorem block_write_sets_device_bytes (d : driver) (sector : Z)
    (segs : list bio_vec) (s : machine) :
  store_ok s -> Forall wf_bvec segs -> Forall (fun bv => 0 < bv_len bv) segs ->
  0 <= sector -> request_lines_up d (start_cursor d sector) segs ->
  sector * 512 + request_len segs <= ramjam_pages s * PAGE_SIZE ->
  sector * 512 + request_len segs <= max_pages d * PAGE_SIZE ->
  exists s',
    submit d WRITE sector segs s = Done (BLK_STS_OK, segs) s' /\
    (forall a, 0 <= a ->
       byte_at s' a =
       if decide (sector * 512 <= a < sector * 512 + request_len segs)
       then default Byte.x00 (payloads segs !! Z.to_nat (a - sector * 512))
       else byte_at s a).
Proof.
  intros Hs Hwf Hpos Hsec Hup Hdev Hmax.
  destruct (submit_write_bytes d sector segs s Hs Hwf Hpos Hsec Hup Hdev Hmax)
    as (s' & Hw & _ & _ & Hb).
  exists s'. split; [exact Hw | exact Hb].
Qed.

Lemma block_write_sets_device_bytes_witness :
  let segs := [mkbvec (replicate 4096 Byte.xaa) 0 2048;
               mkbvec (replicate 4096 Byte.xbb) 1024 2048;
               mkbvec (replicate 4096 Byte.xcc) 0 4096] in
  let s := ramjam_init 4 [] in
  exists s',
    submit modern WRITE 8 segs s = Done (BLK_STS_OK, segs) s' /\
    (forall a, 0 <= a ->
       byte_at s' a =
       if decide (8 * 512 <= a < 8 * 512 + request_len segs)
       then default Byte.x00 (payloads segs !! Z.to_nat (a - 8 * 512))
       else byte_at s a).
Proof.
  intros segs s.
  apply (block_write_sets_device_bytes modern 8 segs s).
  - apply ramjam_init_store_ok; [lia | constructor].
  - repeat constructor; vm_compute; discriminate.
  - repeat constructor.
  - lia.
  - vm_compute. repeat split; discriminate.
  - vm_compute. discriminate.
  - vm_compute. discriminate.
Defined.

(** X21 (a block read returns the device's bytes).  A read request whose
    segments line up with the device ([request_lines_up]: in
    [blk_modern.c] buffer offset and position do not carry into the next
    page and no segment crosses a store page; in [blk_bio.c] the buffer
    offset equals the position modulo the page size and lengths are whole
    sectors) returns, in its buffers
    and in order, the bytes the device holds from byte [sector * 512] on,
    and changes nothing: no page is allocated, and a byte of a page never
    written, or beyond the end of the device, reads as zero.  This holds
    on a store in good order, for segments that lie within their buffer
    pages and are not empty, and for a request that ends within what the
    handler's position arithmetic can address: the first 4 GiB in
    [blk_modern.c], where the position is a [uint32_t] (beyond them a
    read returns the bytes of a lower page), and 2^32 pages in
    [blk_bio.c]. *)
Theorem block_read_returns_device_bytes (d : driver) (sector : Z)
    (segs : list bio_vec) (s : machine) :
  wf_store s -> Forall wf_bvec segs -> Forall (fun bv => 0 < bv_len bv) segs ->
  0 <= sector -> request_lines_up d (start_cursor d sector) segs ->
  sector * 512 + request_len segs <= max_pages d * PAGE_SIZE ->
  exists out,
    submit d READ sector segs s = Done (BLK_STS_OK, out) s /\
    payloads out = bytes_at s (sector * 512) (Z.to_nat (request_len segs)).
Proof.
  intros Hs Hwf Hpos Hsec Hup Hmax.
  exact (submit_read_bytes d sector segs s Hs Hwf Hpos Hsec Hup Hmax).
Qed.

Lemma block_read_returns_device_bytes_witness :
  let segs := [mkbvec (replicate 4096 Byte.xaa) 0 1024;
               mkbvec (replicate 4096 Byte.xbb) 1024 3072;
               mkbvec (replicate 4096 Byte.xcc) 0 4096] in
  let os := [OpSubmit WRITE 0 [page_seg (replicate 4096 Byte.x11)]] in
  let s := state_after (exec_all bio_based os) (ramjam_init 2 []) in
  exists out,
    submit bio_based READ 0 segs s = Done (BLK_STS_OK, out) s /\
    payloads out = bytes_at s (0 * 512) (Z.to_nat (request_len segs)).
Proof.
  intros segs os s.
  apply (block_read_returns_device_bytes bio_based 0 segs s).
  - pose proof (exec_all_wf bio_based os _ (ramjam_init_wf 2 [] ltac:(lia))) as H.
    assert (E : exec_all bio_based os (ramjam_init 2 []) = Done tt s)
      by (vm_compute; reflexivity).
    rewrite E in H. exact H.
  - repeat constructor; vm_compute; discriminate.
  - repeat constructor.
  - lia.
  - vm_compute. repeat split; reflexivity.
  - vm_compute. discriminate.
Defined.

(** X22 (block round trip under any segmentation).  What a write request
    stored is what a later read of the same range returns, however the
    two requests are cut into segments, as long as the segments of both
    line up with the device ([request_lines_up]: in [blk_modern.c]
    buffer offset and position do not carry into the next page and no
    segment crosses a store page; in [blk_bio.c] the buffer offset equals
    the position modulo the page size and lengths are whole sectors), lie
    within their buffer pages and are not empty.  This holds on a store in good order on which
    allocation succeeds, for a range that lies within the device and
    within what the handler's position arithmetic can address (the first
    4 GiB in [blk_modern.c], 2^32 pages in [blk_bio.c]). *)
Theorem block_round_trip_any_segmentation (d : driver) (sector : Z)
    (segs bufs : list bio_vec) (s : machine) :
  store_ok s ->
  Forall wf_bvec segs -> Forall (fun bv => 0 < bv_len bv) segs ->
  Forall wf_bvec bufs -> Forall (fun bv => 0 < bv_len bv) bufs ->
  0 <= sector ->
  request_lines_up d (start_cursor d sector) segs ->
  request_lines_up d (start_cursor d sector) bufs ->
  request_len bufs = request_len segs ->
  sector * 512 + request_len segs <= ramjam_pages s * PAGE_SIZE ->
  sector * 512 + request_len segs <= max_pages d * PAGE_SIZE ->
  exists s' out,
    submit d WRITE sector segs s = Done (BLK_STS_OK, segs) s' /\
    submit d READ sector bufs s' = Done (BLK_STS_OK, out) s' /\
    payloads out = payloads segs.
Proof.
  intros Hs Hwf Hpos Hwfb Hposb Hsec Hup Hupb Hlen Hdev Hmax.
  destruct (submit_write_bytes d sector segs s Hs Hwf Hpos Hsec Hup Hdev Hmax)
    as (s' & Hw & Hs' & _ & Hb).
  destruct (submit_read_bytes d sector bufs s' (proj1 Hs') Hwfb Hposb Hsec Hupb)
    as (out & Hr & Hout); [rewrite Hlen; exact Hmax|].
  exists s', out. split; [exact Hw|]. split; [exact Hr|].
  rewrite Hout, Hlen. pose proof (length_payloads segs Hwf) as Hl.
  pose proof (request_len_nonneg segs Hpos) as Hnn.
  apply list_eq. intros k.
  destruct (decide (k < length (payloads segs))%nat) as [Hk|Hk].
  - rewrite lookup_bytes_at by lia. rewrite Hb by lia.
    rewrite decide_True by lia.
    replace (Z.to_nat (sector * 512 + Z.of_nat k - sector * 512)) with k by lia.
    destruct (lookup_lt_is_Some_2 (payloads segs) k Hk) as [x Hx].
    rewrite Hx. reflexivity.
  - rewrite lookup_ge_None_2 by (rewrite length_bytes_at; lia).
    symmetry. apply lookup_ge_None_2. lia.
Qed.

Lemma block_round_trip_any_segmentation_witness :
  let segs := [mkbvec (replicate 4096 Byte.xaa) 0 2048;
               mkbvec (replicate 4096 Byte.xbb) 1024 2048;
               mkbvec (replicate 4096 Byte.xcc) 0 4096] in
  let bufs := [mkbvec (replicate 4096 Byte.x00) 0 4096;
               mkbvec (replicate 4096 Byte.x00) 0 2048;
               mkbvec (replicate 4096 Byte.x00) 1024 2048] in
  let s := ramjam_init 4 [] in
  exists s' out,
    submit modern WRITE 8 segs s = Done (BLK_STS_OK, segs) s' /\
    submit modern READ 8 bufs s' = Done (BLK_STS_OK, out) s' /\
    payloads out = payloads segs.
Proof.
  intros segs bufs s.
  apply (block_round_trip_any_segmentation modern 8 segs bufs s).
  - apply ramjam_init_store_ok; [lia | constructor].
  - repeat constructor; vm_compute; discriminate.
  - repeat constructor.
  - repeat constructor; vm_compute; discriminate.
  - repeat constructor.
  - lia.
  - vm_compute. repeat split; discriminate.
  - vm_compute. repeat split; discriminate.
  - reflexivity.
  - vm_compute. discriminate.
  - vm_compute. discriminate.
Defined.
